(** * AB3DMOT-TS: a shallow embedding of the 3D multi-object tracker

    The development follows the TypeScript sources:
    - [types.ts]   : [BoundingBox3D], [Detection], [Track];
    - [utils.ts]   : [calculate3DIoU] and [calculateIntersection3D], and the
                     helpers [getBoundingBoxCenter], [getBoundingBoxVolume]
                     and [isOverlapping];
    - [kalman.ts]  : [KalmanFilter3D];
    - [index.ts]   : the tracker without estimator ([Module Plain]), which has
                     both [update] and [step] and spawns before it prunes,
                     and [trackBatch];
    - the second tracker source, which wires [KalmanFilter3D] into the
                     pipeline, has [step] only and prunes before it spawns
                     ([Module Kalman]);
    - [hungarian.ts] : [HungarianAlgorithm], [calculateCostMatrix] and
                     [createIoUCostFunction].

    Number model.  A JavaScript [number] is an IEEE-754 double.  Geometry and
    the estimator are modelled over the exact rationals [Q] (no rounding, no
    NaN, no infinities); statements about them are up to [Qeq].  A statement
    over [Q] is read as a statement about the code only where rounding cannot
    change it: orders and signs, symmetry, and the exact steps [x * 0],
    [x * 1], [x + 0] and [x - x].  Where rounding matters, [utils.ts] is
    embedded a second time over binary64 ([Module Double], on the kernel's
    primitive floats), and the code is evaluated there.  Frame
    counters ([age], [hits], [timeSinceUpdate]), [maxAge], [minHits] and track
    ids only ever hold integers in the source (integer literals and [++]) and
    are modelled as [Z].  Loop counters are [nat]; the sentinel [-1] of the
    assignment array makes that array a [list Z].

    State.  The methods mutate [this]; the embedding passes the tracker
    explicitly and returns the new one.  A method that can throw returns a
    [completion] together with the tracker as the throw left it.

    Aliasing.  [track.bbox = detection.bbox] shares the detection's box object
    with the track.  Boxes are modelled by value: the development assumes the
    caller does not reuse one box object in two detections.  In the estimator
    variant [predictTracks] writes the predicted position into that shared
    box, so the box inside an output of an earlier frame changes afterwards;
    the output of [step] is modelled as it is when [step] returns. *)

From Stdlib Require Import ZArith QArith Qminmax Qabs Lia Lqa String PrimFloat.
From stdpp Require Import base option list gmap.

Local Open Scope Z_scope.

(** ** Numbers *)

(** [a < b] on [number], as a boolean. *)
Definition Qltb (a b : Q) : bool :=
  match (a ?= b)%Q with Lt => true | _ => false end.

(** [a >= b] on [number], as a boolean. *)
Definition Qgeb (a b : Q) : bool := Qle_bool b a.

(** ** types.ts *)

Module BBox.
Record t : Type := mk
  { x : Q; y : Q; z : Q;
    width : Q; height : Q; length : Q;
    orientation : Q }.
End BBox.
Abbreviation BoundingBox3D := BBox.t.

Module Detection.
Record t : Type := mk
  { id : option Z;
    bbox : BoundingBox3D;
    confidence : Q;
    classId : option Z }.
End Detection.
Abbreviation Detection := Detection.t.

(** ** utils.ts *)

Local Open Scope Q_scope.

Definition calculateIntersection3D (bbox1 bbox2 : BoundingBox3D) : Q :=
  let x1Min := BBox.x bbox1 - BBox.width bbox1 / 2 in
  let x1Max := BBox.x bbox1 + BBox.width bbox1 / 2 in
  let y1Min := BBox.y bbox1 - BBox.height bbox1 / 2 in
  let y1Max := BBox.y bbox1 + BBox.height bbox1 / 2 in
  let z1Min := BBox.z bbox1 - BBox.length bbox1 / 2 in
  let z1Max := BBox.z bbox1 + BBox.length bbox1 / 2 in
  let x2Min := BBox.x bbox2 - BBox.width bbox2 / 2 in
  let x2Max := BBox.x bbox2 + BBox.width bbox2 / 2 in
  let y2Min := BBox.y bbox2 - BBox.height bbox2 / 2 in
  let y2Max := BBox.y bbox2 + BBox.height bbox2 / 2 in
  let z2Min := BBox.z bbox2 - BBox.length bbox2 / 2 in
  let z2Max := BBox.z bbox2 + BBox.length bbox2 / 2 in
  let xOverlap := Qmax 0 (Qmin x1Max x2Max - Qmax x1Min x2Min) in
  let yOverlap := Qmax 0 (Qmin y1Max y2Max - Qmax y1Min y2Min) in
  let zOverlap := Qmax 0 (Qmin z1Max z2Max - Qmax z1Min z2Min) in
  xOverlap * yOverlap * zOverlap.

Definition calculate3DIoU (bbox1 bbox2 : BoundingBox3D) : Q :=
  let intersection := calculateIntersection3D bbox1 bbox2 in
  let volume1 := BBox.width bbox1 * BBox.height bbox1 * BBox.length bbox1 in
  let volume2 := BBox.width bbox2 * BBox.height bbox2 * BBox.length bbox2 in
  let union := volume1 + volume2 - intersection in
  if Qltb 0 union then intersection / union else 0.

(** ** utils.ts on doubles

    The same two functions over binary64: [+], [-], [*], [/] and [>] are the
    IEEE-754 operations JavaScript uses.  [Math.max] and [Math.min] of two
    numbers return [NaN] if either is [NaN] and order [-0] below [+0]. *)

Module Double.

Local Open Scope float_scope.

Record BoundingBox3D : Type := mk
  { x : float;
    y : float;
    z : float;
    width : float;
    height : float;
    length : float;
    orientation : float }.

(** [Math.max(a, b)] *)
Definition max (a b : float) : float :=
  if is_nan a || is_nan b then nan
  else if a <? b then b
  else if b <? a then a
  else if is_zero a && get_sign a then b else a.

(** [Math.min(a, b)] *)
Definition min (a b : float) : float :=
  if is_nan a || is_nan b then nan
  else if a <? b then a
  else if b <? a then b
  else if is_zero a && negb (get_sign a) then b else a.

Definition calculateIntersection3D (bbox1 bbox2 : BoundingBox3D) : float :=
  let x1Min := x bbox1 - width bbox1 / 2 in
  let x1Max := x bbox1 + width bbox1 / 2 in
  let y1Min := y bbox1 - height bbox1 / 2 in
  let y1Max := y bbox1 + height bbox1 / 2 in
  let z1Min := z bbox1 - length bbox1 / 2 in
  let z1Max := z bbox1 + length bbox1 / 2 in
  let x2Min := x bbox2 - width bbox2 / 2 in
  let x2Max := x bbox2 + width bbox2 / 2 in
  let y2Min := y bbox2 - height bbox2 / 2 in
  let y2Max := y bbox2 + height bbox2 / 2 in
  let z2Min := z bbox2 - length bbox2 / 2 in
  let z2Max := z bbox2 + length bbox2 / 2 in
  let xOverlap := max 0 (min x1Max x2Max - max x1Min x2Min) in
  let yOverlap := max 0 (min y1Max y2Max - max y1Min y2Min) in
  let zOverlap := max 0 (min z1Max z2Max - max z1Min z2Min) in
  xOverlap * yOverlap * zOverlap.

Definition calculate3DIoU (bbox1 bbox2 : BoundingBox3D) : float :=
  let intersection := calculateIntersection3D bbox1 bbox2 in
  let volume1 := width bbox1 * height bbox1 * length bbox1 in
  let volume2 := width bbox2 * height bbox2 * length bbox2 in
  let union := volume1 + volume2 - intersection in
  if 0 <? union then intersection / union else 0.

End Double.

(** ** Exceptions

    A JavaScript call either returns a value or throws.  [Throw] carries the
    message of the [Error] object. *)

Inductive completion (A : Type) : Type :=
| Normal (a : A)
| Throw (message : string).
Arguments Normal {A} a.
Arguments Throw {A} message.

(** ** kalman.ts *)

Module KalmanFilter3D.

Record t : Type := mk
  { state : list Q;
    covariance : list (list Q);
    processNoise : Q;
    measurementNoise : Q }.

(** [A[i][j]]; the model reads [0] outside the array, where JavaScript
    reads [undefined].  No call below leaves the array on a filter whose
    state has 6 entries and whose covariance is 6 by 6.

    The matrix helpers store every entry they compute in lowest terms
    ([Qred]); this changes the representation of the rational, not its
    value ([Qred_correct]), and keeps the entries small when the tracker is
    run on concrete frames. *)
Definition entry (A : list (list Q)) (i j : nat) : Q := nth j (nth i A []) 0.
Arguments entry A (i j)%_nat_scope.

Definition constructor (initialBbox : BoundingBox3D)
    (processNoise measurementNoise : Q) : t :=
  {| state := [BBox.x initialBbox; BBox.y initialBbox; BBox.z initialBbox; 0; 0; 0];
     covariance :=
       [ [1; 0; 0; 0; 0; 0];
         [0; 1; 0; 0; 0; 0];
         [0; 0; 1; 0; 0; 0];
         [0; 0; 0; 1; 0; 0];
         [0; 0; 0; 0; 1; 0];
         [0; 0; 0; 0; 0; 1] ];
     processNoise := processNoise;
     measurementNoise := measurementNoise |}.

Definition matrixMultiply (A B : list (list Q)) : list (list Q) :=
  map (fun i =>
    map (fun j =>
      Qred (fold_left (fun acc k => acc + entry A i k * entry B k j)
                      (seq 0 (length B)) 0))
      (seq 0 (length (hd [] B))))
    (seq 0 (length A)).

Definition matrixVectorMultiply (A : list (list Q)) (v : list Q) : list Q :=
  map (fun i =>
    Qred (fold_left (fun acc j => acc + entry A i j * nth j v 0)
                    (seq 0 (length v)) 0))
    (seq 0 (length A)).

Definition matrixTranspose (A : list (list Q)) : list (list Q) :=
  map (fun i => map (fun j => entry A j i) (seq 0 (length A)))
      (seq 0 (length (hd [] A))).

Definition matrixAdd (A B : list (list Q)) : list (list Q) :=
  map (fun i =>
    map (fun j => Qred (entry A i j + entry B i j))
        (seq 0 (length (nth i A []))))
    (seq 0 (length A)).

Definition matrixSubtract (A B : list (list Q)) : list (list Q) :=
  map (fun i =>
    map (fun j => Qred (entry A i j - entry B i j))
        (seq 0 (length (nth i A []))))
    (seq 0 (length A)).

Definition matrixInverse (A : list (list Q)) : completion (list (list Q)) :=
  if negb (length A =? 3)%nat || negb (length (hd [] A) =? 3)%nat
  then Throw "Only 3x3 matrix inversion is supported"
  else
    let det := entry A 0 0 * (entry A 1 1 * entry A 2 2 - entry A 1 2 * entry A 2 1)
               - entry A 0 1 * (entry A 1 0 * entry A 2 2 - entry A 1 2 * entry A 2 0)
               + entry A 0 2 * (entry A 1 0 * entry A 2 1 - entry A 1 1 * entry A 2 0) in
    if Qltb (Qabs det) (1 # 10000000000)
    then Throw "Matrix is singular"
    else
      let invDet := 1 / det in
      Normal
        [ [ Qred ((entry A 1 1 * entry A 2 2 - entry A 1 2 * entry A 2 1) * invDet);
            Qred ((entry A 0 2 * entry A 2 1 - entry A 0 1 * entry A 2 2) * invDet);
            Qred ((entry A 0 1 * entry A 1 2 - entry A 0 2 * entry A 1 1) * invDet) ];
          [ Qred ((entry A 1 2 * entry A 2 0 - entry A 1 0 * entry A 2 2) * invDet);
            Qred ((entry A 0 0 * entry A 2 2 - entry A 0 2 * entry A 2 0) * invDet);
            Qred ((entry A 0 2 * entry A 1 0 - entry A 0 0 * entry A 1 2) * invDet) ];
          [ Qred ((entry A 1 0 * entry A 2 1 - entry A 1 1 * entry A 2 0) * invDet);
            Qred ((entry A 0 1 * entry A 2 0 - entry A 0 0 * entry A 2 1) * invDet);
            Qred ((entry A 0 0 * entry A 1 1 - entry A 0 1 * entry A 1 0) * invDet) ] ].

Definition createProcessNoiseMatrix (this : t) (dt : Q) : list (list Q) :=
  let q := processNoise this in
  let dt2 := dt * dt in
  let dt3 := dt2 * dt in
  let dt4 := dt3 * dt in
  [ [dt4 / 4 * q; 0; 0; dt3 / 2 * q; 0; 0];
    [0; dt4 / 4 * q; 0; 0; dt3 / 2 * q; 0];
    [0; 0; dt4 / 4 * q; 0; 0; dt3 / 2 * q];
    [dt3 / 2 * q; 0; 0; dt2 * q; 0; 0];
    [0; dt3 / 2 * q; 0; 0; dt2 * q; 0];
    [0; 0; dt3 / 2 * q; 0; 0; dt2 * q] ].

Definition createIdentityMatrix (size : nat) : list (list Q) :=
  map (fun i => map (fun j => if (i =? j)%nat then 1 else 0) (seq 0 size))
      (seq 0 size).

Definition predict (dt : Q) (this : t) : t :=
  let F := [ [1; 0; 0; dt; 0; 0];
             [0; 1; 0; 0; dt; 0];
             [0; 0; 1; 0; 0; dt];
             [0; 0; 0; 1; 0; 0];
             [0; 0; 0; 0; 1; 0];
             [0; 0; 0; 0; 0; 1] ] in
  let state' := matrixVectorMultiply F (state this) in
  let Q := createProcessNoiseMatrix this dt in
  let covariance' :=
    matrixAdd
      (matrixMultiply (matrixMultiply F (covariance this)) (matrixTranspose F))
      Q in
  {| state := state'; covariance := covariance';
     processNoise := processNoise this;
     measurementNoise := measurementNoise this |}.

(** [update] throws out of [matrixInverse], before any field of the filter
    has been assigned: a throwing call leaves the filter as it was. *)
Definition update (measurement : Q * Q * Q) (this : t) : completion t :=
  let '(m0, m1, m2) := measurement in
  let H := [ [1; 0; 0; 0; 0; 0];
             [0; 1; 0; 0; 0; 0];
             [0; 0; 1; 0; 0; 0] ] in
  let R := [ [measurementNoise this; 0; 0];
             [0; measurementNoise this; 0];
             [0; 0; measurementNoise this] ] in
  let Ht := matrixTranspose H in
  let S := matrixAdd (matrixMultiply (matrixMultiply H (covariance this)) Ht) R in
  match matrixInverse S with
  | Throw message => Throw message
  | Normal Sinv =>
      let K := matrixMultiply (matrixMultiply (covariance this) Ht) Sinv in
      let predictedMeasurement := matrixVectorMultiply H (state this) in
      let residual := [ m0 - nth 0 predictedMeasurement 0;
                        m1 - nth 1 predictedMeasurement 0;
                        m2 - nth 2 predictedMeasurement 0 ] in
      let correction := matrixVectorMultiply K residual in
      let state' :=
        map (fun i => nth i (state this) 0 + nth i correction 0)
            (seq 0 (length (state this))) in
      let I := createIdentityMatrix 6 in
      let KH := matrixMultiply K H in
      let IminusKH := matrixSubtract I KH in
      Normal {| state := state';
                covariance := matrixMultiply IminusKH (covariance this);
                processNoise := processNoise this;
                measurementNoise := measurementNoise this |}
  end.

Definition getPosition (this : t) : list Q :=
  [nth 0 (state this) 0; nth 1 (state this) 0; nth 2 (state this) 0].

Definition getVelocity (this : t) : list Q :=
  [nth 3 (state this) 0; nth 4 (state this) 0; nth 5 (state this) 0].

End KalmanFilter3D.

(** ** types.ts, continued: tracks *)

Module Track.
Record t : Type := mk
  { id : Z;
    bbox : BoundingBox3D;
    velocity : Q * Q * Q;
    age : Z;
    hits : Z;
    timeSinceUpdate : Z;
    kalmanFilter : option KalmanFilter3D.t }.
End Track.
Abbreviation Track := Track.t.

(** ** index.ts: the tracker object

    Both tracker sources declare the same fields, constructor,
    [associateDetections], [deleteOldTracks] and output loop of [step]; these
    are embedded once.  The methods in which the two sources differ live in
    [Module Plain] and [Module Kalman]. *)

Module TrackedDetection.
Record t : Type := mk
  { detection : Detection;   (* [...detections[i]] *)
    trackId : Z }.
End TrackedDetection.
Abbreviation TrackedDetection := TrackedDetection.t.

Module Options.
Record t : Type := mk
  { maxAge : option Z;
    minHits : option Z;
    iouThreshold : option Q;
    data : option (list (list Detection)) }.
End Options.

Module Tracker.
Record t : Type := mk
  { tracks : list Track;
    nextTrackId : Z;
    maxAge : Z;
    minHits : Z;
    iouThreshold : Q;
    frames : list (list Detection) }.

Definition with_tracks (this : t) (tracks' : list Track) : t :=
  mk tracks' (nextTrackId this) (maxAge this) (minHits this)
     (iouThreshold this) (frames this).
End Tracker.
Abbreviation AB3DMOTTracker := Tracker.t.

(** The field initialisers of the class. *)
Definition initial : AB3DMOTTracker :=
  {| Tracker.tracks := [];
     Tracker.nextTrackId := 1;
     Tracker.maxAge := 3;
     Tracker.minHits := 3;
     Tracker.iouThreshold := 3 # 10;
     Tracker.frames := [] |}.

(** [a ?? b] *)
Definition nullish {A : Type} (a : option A) (b : A) : A :=
  match a with Some v => v | None => b end.

(** The constructor body holds no [throw]: it always completes normally. *)
Definition constructor (options : option Options.t) : completion AB3DMOTTracker :=
  match options with
  | Some options =>
      Normal
        {| Tracker.tracks := Tracker.tracks initial;
           Tracker.nextTrackId := Tracker.nextTrackId initial;
           Tracker.maxAge := nullish (Options.maxAge options) (Tracker.maxAge initial);
           Tracker.minHits := nullish (Options.minHits options) (Tracker.minHits initial);
           Tracker.iouThreshold :=
             nullish (Options.iouThreshold options) (Tracker.iouThreshold initial);
           Tracker.frames := nullish (Options.data options) (Tracker.frames initial) |}
  | None => Normal initial
  end.

Definition setData (frames : list (list Detection)) (this : AB3DMOTTracker)
  : AB3DMOTTracker :=
  Tracker.mk (Tracker.tracks this) (Tracker.nextTrackId this) (Tracker.maxAge this)
             (Tracker.minHits this) (Tracker.iouThreshold this) frames.

(** The inner loop of [associateDetections]: [t] is the loop counter, [best]
    the pair [(bestTrackIndex, bestIoU)]. *)
Fixpoint bestTrack (usedTracks : gset Z) (bbox : BoundingBox3D)
    (tracks : list Track) (t : nat) (best : Z * Q) : Z * Q :=
  match tracks with
  | [] => best
  | track :: rest =>
      if bool_decide (Z.of_nat t ∈ usedTracks)
      then bestTrack usedTracks bbox rest (S t) best
      else
        let iou := calculate3DIoU bbox (Track.bbox track) in
        if Qltb (snd best) iou
        then bestTrack usedTracks bbox rest (S t) (Z.of_nat t, iou)
        else bestTrack usedTracks bbox rest (S t) best
  end.

(** The outer loop of [associateDetections]; the result lists
    [assignments[0], assignments[1], ...]. *)
Fixpoint associateLoop (iouThreshold : Q) (tracks : list Track)
    (usedTracks : gset Z) (detections : list Detection) : list Z :=
  match detections with
  | [] => []
  | detection :: rest =>
      let '(bestTrackIndex, bestIoU) :=
        bestTrack usedTracks (Detection.bbox detection) tracks 0 ((-1)%Z, -1) in
      if negb (bestTrackIndex =? -1)%Z && Qgeb bestIoU iouThreshold
      then bestTrackIndex
           :: associateLoop iouThreshold tracks ({[bestTrackIndex]} ∪ usedTracks) rest
      else (-1)%Z :: associateLoop iouThreshold tracks usedTracks rest
  end.

Definition associateDetections (this : AB3DMOTTracker)
    (detections : list Detection) : list Z :=
  associateLoop (Tracker.iouThreshold this) (Tracker.tracks this) ∅ detections.

Definition deleteOldTracks (this : AB3DMOTTracker) : AB3DMOTTracker :=
  Tracker.with_tracks this
    (filter (fun track => (Track.timeSinceUpdate track <= Tracker.maxAge this)%Z)
            (Tracker.tracks this)).

(** Step 6 of [step]: the output loop, [i] being the loop counter.
    [assignments] has one entry per detection. *)
Fixpoint stepOutput (tracks : list Track) (newTrackMap : gmap nat Z)
    (detections : list Detection) (assignments : list Z) (i : nat)
  : list TrackedDetection :=
  match detections, assignments with
  | detection :: detections', assignedTrackIndex :: assignments' =>
      let rest := stepOutput tracks newTrackMap detections' assignments' (S i) in
      let created :=
        match newTrackMap !! i with
        | Some createdId => TrackedDetection.mk detection createdId :: rest
        | None => rest
        end in
      if negb (assignedTrackIndex =? -1)%Z
      then match tracks !! Z.to_nat assignedTrackIndex with
           | Some track => TrackedDetection.mk detection (Track.id track) :: rest
           | None => created
           end
      else created
  | _, _ => []
  end.

(** *** index.ts: the tracker without estimator *)

Module Plain.

Definition predictTracks (this : AB3DMOTTracker) : AB3DMOTTracker :=
  Tracker.with_tracks this
    (map (fun track =>
            Track.mk (Track.id track) (Track.bbox track) (Track.velocity track)
                     (Track.age track + 1)%Z (Track.hits track)
                     (Track.timeSinceUpdate track + 1)%Z
                     (Track.kalmanFilter track))
         (Tracker.tracks this)).

(** [assignments] holds, per detection, [-1] or an index into [tracks] (it
    is the array [associateDetections] returned); the model leaves the
    table alone at any other index. *)
Fixpoint updateLoop (detections : list Detection) (assignments : list Z)
    (tracks : list Track) : list Track :=
  match detections, assignments with
  | detection :: detections', trackIndex :: assignments' =>
      updateLoop detections' assignments'
        (if negb (trackIndex =? -1)%Z
         then alter (fun track =>
                       Track.mk (Track.id track) (Detection.bbox detection)
                                (Track.velocity track) (Track.age track)
                                (Track.hits track + 1)%Z 0%Z
                                (Track.kalmanFilter track))
                    (Z.to_nat trackIndex) tracks
         else tracks)
  | _, _ => tracks
  end.

Definition updateTracks (detections : list Detection) (assignments : list Z)
    (this : AB3DMOTTracker) : AB3DMOTTracker :=
  Tracker.with_tracks this (updateLoop detections assignments (Tracker.tracks this)).

Fixpoint createLoop (detections : list Detection) (assignments : list Z)
    (i : nat) (tracks : list Track) (nextTrackId : Z) (newMap : gmap nat Z)
  : list Track * Z * gmap nat Z :=
  match detections, assignments with
  | detection :: detections', assignment :: assignments' =>
      if (assignment =? -1)%Z
      then
        let newId := nextTrackId in
        createLoop detections' assignments' (S i)
          (tracks ++ [Track.mk newId (Detection.bbox detection) (0, 0, 0)
                               1%Z 1%Z 0%Z None])
          (nextTrackId + 1)%Z
          (<[i := newId]> newMap)
      else createLoop detections' assignments' (S i) tracks nextTrackId newMap
  | _, _ => (tracks, nextTrackId, newMap)
  end.

Definition createNewTracks (detections : list Detection) (assignments : list Z)
    (this : AB3DMOTTracker) : gmap nat Z * AB3DMOTTracker :=
  let '(tracks', nextTrackId', newMap) :=
    createLoop detections assignments 0 (Tracker.tracks this)
               (Tracker.nextTrackId this) ∅ in
  (newMap,
   Tracker.mk tracks' nextTrackId' (Tracker.maxAge this) (Tracker.minHits this)
              (Tracker.iouThreshold this) (Tracker.frames this)).

Definition update (detections : list Detection) (this : AB3DMOTTracker)
  : list Track * AB3DMOTTracker :=
  let this := predictTracks this in
  let assignments := associateDetections this detections in
  let this := updateTracks detections assignments this in
  let '(_, this) := createNewTracks detections assignments this in
  let this := deleteOldTracks this in
  (filter (fun track => (Tracker.minHits this <= Track.hits track)%Z)
          (Tracker.tracks this),
   this).

Definition step (detections : list Detection) (this : AB3DMOTTracker)
  : list TrackedDetection * AB3DMOTTracker :=
  let this := predictTracks this in
  let assignments := associateDetections this detections in
  let this := updateTracks detections assignments this in
  let '(newTrackMap, this) := createNewTracks detections assignments this in
  let this := deleteOldTracks this in
  (stepOutput (Tracker.tracks this) newTrackMap detections assignments 0, this).

(** The loop of [run] over a list of frames. *)
Fixpoint runLoop (frames : list (list Detection)) (this : AB3DMOTTracker)
  : list (list TrackedDetection) * AB3DMOTTracker :=
  match frames with
  | [] => ([], this)
  | detections :: frames' =>
      let '(frameOutput, this) := step detections this in
      let '(outputs, this) := runLoop frames' this in
      (frameOutput :: outputs, this)
  end.

Definition run (this : AB3DMOTTracker)
  : list (list TrackedDetection) * AB3DMOTTracker :=
  runLoop (Tracker.frames this) this.

End Plain.

(** *** The tracker with the estimator wired in

    [step] prunes before it spawns; there is no [update] method.  A throw
    out of [KalmanFilter3D.update] is not caught anywhere: the functions
    below return the completion together with the tracker as the throw left
    it. *)

Module Kalman.

Definition predictTracks (this : AB3DMOTTracker) : AB3DMOTTracker :=
  Tracker.with_tracks this
    (map (fun track =>
            let age' := (Track.age track + 1)%Z in
            let timeSinceUpdate' := (Track.timeSinceUpdate track + 1)%Z in
            match Track.kalmanFilter track with
            | Some kalmanFilter =>
                let kalmanFilter := KalmanFilter3D.predict 1 kalmanFilter in
                let pv := KalmanFilter3D.getPosition kalmanFilter
                          ++ KalmanFilter3D.getVelocity kalmanFilter in
                let bbox := Track.bbox track in
                Track.mk (Track.id track)
                         (BBox.mk (nth 0 pv 0) (nth 1 pv 0) (nth 2 pv 0)
                                  (BBox.width bbox) (BBox.height bbox)
                                  (BBox.length bbox) (BBox.orientation bbox))
                         (nth 3 pv 0, nth 4 pv 0, nth 5 pv 0)
                         age' (Track.hits track) timeSinceUpdate'
                         (Some kalmanFilter)
            | None =>
                Track.mk (Track.id track) (Track.bbox track) (Track.velocity track)
                         age' (Track.hits track) timeSinceUpdate' None
            end)
         (Tracker.tracks this)).

(** As in [Plain.updateLoop], [assignments] holds [-1] or an index into
    [tracks].  The fields [bbox], [timeSinceUpdate] and [hits] are assigned
    before [kalmanFilter.update] is called, so they stay assigned when it
    throws. *)
Fixpoint updateLoop (detections : list Detection) (assignments : list Z)
    (tracks : list Track) : completion unit * list Track :=
  match detections, assignments with
  | detection :: detections', trackIndex :: assignments' =>
      if negb (trackIndex =? -1)%Z
      then
        match tracks !! Z.to_nat trackIndex with
        | Some track =>
            let bbox := Detection.bbox detection in
            let touched kalmanFilter :=
              Track.mk (Track.id track) bbox (Track.velocity track)
                       (Track.age track) (Track.hits track + 1)%Z 0%Z
                       kalmanFilter in
            match Track.kalmanFilter track with
            | Some kalmanFilter =>
                match KalmanFilter3D.update
                        (BBox.x bbox, BBox.y bbox, BBox.z bbox) kalmanFilter with
                | Normal kalmanFilter' =>
                    updateLoop detections' assignments'
                      (<[Z.to_nat trackIndex := touched (Some kalmanFilter')]> tracks)
                | Throw message =>
                    (Throw message,
                     <[Z.to_nat trackIndex := touched (Some kalmanFilter)]> tracks)
                end
            | None =>
                updateLoop detections' assignments'
                  (<[Z.to_nat trackIndex := touched None]> tracks)
            end
        | None => updateLoop detections' assignments' tracks
        end
      else updateLoop detections' assignments' tracks
  | _, _ => (Normal tt, tracks)
  end.

Definition updateTracks (detections : list Detection) (assignments : list Z)
    (this : AB3DMOTTracker) : completion unit * AB3DMOTTracker :=
  let '(c, tracks') := updateLoop detections assignments (Tracker.tracks this) in
  (c, Tracker.with_tracks this tracks').

Fixpoint createLoop (detections : list Detection) (assignments : list Z)
    (i : nat) (tracks : list Track) (nextTrackId : Z) (newMap : gmap nat Z)
  : list Track * Z * gmap nat Z :=
  match detections, assignments with
  | detection :: detections', assignment :: assignments' =>
      if (assignment =? -1)%Z
      then
        let newId := nextTrackId in
        let kalmanFilter :=
          KalmanFilter3D.constructor (Detection.bbox detection) (1 # 10) (1 # 10) in
        createLoop detections' assignments' (S i)
          (tracks ++ [Track.mk newId (Detection.bbox detection) (0, 0, 0)
                               1%Z 1%Z 0%Z (Some kalmanFilter)])
          (nextTrackId + 1)%Z
          (<[i := newId]> newMap)
      else createLoop detections' assignments' (S i) tracks nextTrackId newMap
  | _, _ => (tracks, nextTrackId, newMap)
  end.

Definition createNewTracks (detections : list Detection) (assignments : list Z)
    (this : AB3DMOTTracker) : gmap nat Z * AB3DMOTTracker :=
  let '(tracks', nextTrackId', newMap) :=
    createLoop detections assignments 0 (Tracker.tracks this)
               (Tracker.nextTrackId this) ∅ in
  (newMap,
   Tracker.mk tracks' nextTrackId' (Tracker.maxAge this) (Tracker.minHits this)
              (Tracker.iouThreshold this) (Tracker.frames this)).

Definition step (detections : list Detection) (this : AB3DMOTTracker)
  : completion (list TrackedDetection) * AB3DMOTTracker :=
  let this := predictTracks this in
  let assignments := associateDetections this detections in
  match updateTracks detections assignments this with
  | (Throw message, this) => (Throw message, this)
  | (Normal _, this) =>
      let this := deleteOldTracks this in
      let '(newTrackMap, this) := createNewTracks detections assignments this in
      (Normal (stepOutput (Tracker.tracks this) newTrackMap detections assignments 0),
       this)
  end.

(** The loop of [run]; a throw out of [step] ends it. *)
Fixpoint runLoop (frames : list (list Detection)) (this : AB3DMOTTracker)
  : completion (list (list TrackedDetection)) * AB3DMOTTracker :=
  match frames with
  | [] => (Normal [], this)
  | detections :: frames' =>
      match step detections this with
      | (Throw message, this) => (Throw message, this)
      | (Normal frameOutput, this) =>
          match runLoop frames' this with
          | (Throw message, this) => (Throw message, this)
          | (Normal outputs, this) => (Normal (frameOutput :: outputs), this)
          end
      end
  end.

Definition run (this : AB3DMOTTracker)
  : completion (list (list TrackedDetection)) * AB3DMOTTracker :=
  runLoop (Tracker.frames this) this.

End Kalman.

(** Concrete boxes used by the examples. *)
Definition cube (cx : Q) (side : Q) : BoundingBox3D :=
  BBox.mk cx 0 0 side side side 0.

Definition detection_at (cx : Q) : Detection :=
  Detection.mk None (cube cx 2) (9 # 10) None.

Definition filter_example : KalmanFilter3D.t :=
  KalmanFilter3D.constructor (cube 0 2) (1 # 10) (1 # 10).

(** ** utils.ts, continued

    [calculateDistance3D] takes a square root and is not embedded over the
    rationals. *)

Definition getBoundingBoxCenter (bbox : BoundingBox3D) : Q * Q * Q :=
  (BBox.x bbox, BBox.y bbox, BBox.z bbox).


(** [threshold] is the optional third parameter, [0.1] when omitted. *)
Definition isOverlapping (bbox1 bbox2 : BoundingBox3D) (threshold : option Q) : bool :=
  let threshold := match threshold with Some t => t | None => 1 # 10 end in
  Qltb threshold (calculate3DIoU bbox1 bbox2).

(** ** index.ts, continued: [trackBatch]

    [{ ...options, data: frames }] keeps the three optional settings and sets
    [data]. *)

Definition batchOptions (frames : list (list Detection)) (options : option Options.t)
  : Options.t :=
  match options with
  | Some options =>
      Options.mk (Options.maxAge options) (Options.minHits options)
                 (Options.iouThreshold options) (Some frames)
  | None => Options.mk None None None (Some frames)
  end.

Definition trackBatch (frames : list (list Detection))
    (options : option Options.t) : completion (list (list TrackedDetection)) :=
  match constructor (Some (batchOptions frames options)) with
  | Normal tracker => Normal (fst (Plain.run tracker))
  | Throw message => Throw message
  end.

(** ** hungarian.ts

    The solver is not called by either tracker.  [costMatrix] is mutated in
    place by the methods; the embedding passes the object explicitly. *)

Module HungarianAlgorithm.

Record t : Type := mk
  { costMatrix : list (list Q);
    size : nat }.

(** [costMatrix[i][j]]; [0] outside the array (the methods below stay inside
    it on an object built by [constructor]). *)
Definition entry (costMatrix : list (list Q)) (i j : nat) : Q :=
  nth j (nth i costMatrix []) 0.

Definition padMatrix (this : t) : t :=
  let rows := length (costMatrix this) in
  (* add rows *)
  let withRows :=
    costMatrix this ++ replicate (size this - rows) (replicate (size this) 0) in
  (* add columns *)
  let withColumns :=
    imap (fun i row =>
            if (i <? size this)%nat
            then row ++ replicate (size this - length row) 0
            else row)
         withRows in
  mk withColumns (size this).

Definition constructor (costMatrix : list (list Q)) : t :=
  padMatrix (mk costMatrix (Nat.max (length costMatrix) (length (hd [] costMatrix)))).

(** [Math.min] over a list of numbers, [None] standing for [Infinity] (the
    minimum of no number). *)
Definition minimum (values : list Q) : option Q :=
  fold_left (fun min value =>
               Some (match min with Some m => Qmin m value | None => value end))
            values None.

(** The subtraction [costMatrix[i][j] -= min] for [j < size].  [min] is a
    number whenever the row is not empty; an empty row has no [j] to
    update. *)
Definition reduceRows (this : t) : t :=
  mk (imap (fun i row =>
              if (i <? size this)%nat
              then match minimum row with
                   | Some min =>
                       imap (fun j value =>
                               if (j <? size this)%nat then value - min else value)
                            row
                   | None => row
                   end
              else row)
           (costMatrix this))
     (size this).

(** One iteration of the outer loop of [reduceColumns], for column [j]. *)
Definition reduceColumn (size : nat) (costMatrix : list (list Q)) (j : nat)
  : list (list Q) :=
  let min := minimum (map (fun i => entry costMatrix i j) (seq 0 size)) in
  match min with
  | Some min =>
      imap (fun i row =>
              if (i <? size)%nat then alter (fun value => value - min) j row else row)
           costMatrix
  | None => costMatrix
  end.

Definition reduceColumns (this : t) : t :=
  mk (fold_left (reduceColumn (size this)) (seq 0 (size this)) (costMatrix this))
     (size this).

(** The three arrays the assignment loops work on. *)
Record marks : Type := mkMarks
  { assignment : list Z;
    rowCovered : list bool;
    colCovered : list bool }.

(** The body of the inner loop of [findInitialAssignment]. *)
Definition tryAssign (costMatrix : list (list Q)) (i : nat) (m : marks) (j : nat)
  : marks :=
  if Qeq_bool (entry costMatrix i j) 0
     && negb (nth i (rowCovered m) false)
     && negb (nth j (colCovered m) false)
  then mkMarks (<[i := Z.of_nat j]> (assignment m))
               (<[i := true]> (rowCovered m))
               (<[j := true]> (colCovered m))
  else m.

Definition findInitialAssignment (this : t) : list Z :=
  let start := mkMarks (replicate (size this) (-1)%Z)
                       (replicate (size this) false)
                       (replicate (size this) false) in
  assignment
    (fold_left (fun m i =>
                  fold_left (tryAssign (costMatrix this) i) (seq 0 (size this)) m)
               (seq 0 (size this)) start).

(** The first loop of [augmentPath]: mark the assigned rows and columns. *)
Definition markAssigned (size : nat) (assignment : list Z) : marks :=
  fold_left (fun m i =>
               let a := nth i (HungarianAlgorithm.assignment m) (-1)%Z in
               if negb (a =? -1)%Z
               then mkMarks (HungarianAlgorithm.assignment m)
                            (<[i := true]> (rowCovered m))
                            (<[Z.to_nat a := true]> (colCovered m))
               else m)
            (seq 0 size)
            (mkMarks assignment (replicate size false) (replicate size false)).

(** The inner loop of the second loop of [augmentPath], with its [break]. *)
Fixpoint firstFreeZero (costMatrix : list (list Q)) (i : nat) (m : marks)
    (js : list nat) : marks :=
  match js with
  | [] => m
  | j :: js' =>
      if negb (nth j (colCovered m) false) && Qeq_bool (entry costMatrix i j) 0
      then mkMarks (<[i := Z.of_nat j]> (assignment m))
                   (<[i := true]> (rowCovered m))
                   (<[j := true]> (colCovered m))
      else firstFreeZero costMatrix i m js'
  end.

Definition augmentPath (this : t) (assignment : list Z) : list Z :=
  let marked := markAssigned (size this) assignment in
  let final :=
    fold_left (fun m i =>
                 if negb (nth i (rowCovered m) false)
                 then firstFreeZero (costMatrix this) i m (seq 0 (size this))
                 else m)
              (seq 0 (size this)) marked in
  take (length (costMatrix this)) (HungarianAlgorithm.assignment final).

(** [solve] returns the assignment and leaves the reduced matrix in the
    object. *)
Definition solve (this : t) : list Z * t :=
  let this := reduceRows this in
  let this := reduceColumns this in
  let assignment := findInitialAssignment this in
  if (length (filter (fun a => a ≠ (-1)%Z) assignment) <? size this)%nat
  then (augmentPath this assignment, this)
  else (take (length (costMatrix this)) assignment, this).

End HungarianAlgorithm.

Definition calculateCostMatrix {T U : Type} (detections : list T) (tracks : list U)
    (costFunction : T -> U -> Q) : list (list Q) :=
  map (fun detection => map (fun track => costFunction detection track) tracks)
      detections.

(** The closure [createIoUCostFunction] returns; its [iou] is the constant
    the source assigns. *)
Definition createIoUCostFunction {T U : Type} (iouThreshold : option Q)
  : T -> U -> Q :=
  let iouThreshold := match iouThreshold with Some t => t | None => 3 # 10 end in
  fun detection track =>
    let iou := 0 in
    if Qltb iouThreshold iou then 1 - iou else 1.

(** Concrete frames: objects at [x = 0] and [x = 100], 2 by 2 by 2. *)
Definition frame_AB : list Detection := [detection_at 0; detection_at 100].
Definition frame_B : list Detection := [detection_at 100].
Definition five_frames : list (list Detection) :=
  [frame_AB; frame_B; frame_B; frame_B; frame_B].

(** A third object at [x = 200]. *)
Definition frame_ABC : list Detection :=
  [detection_at 0; detection_at 100; detection_at 200].
Definition frame_BC : list Detection := [detection_at 100; detection_at 200].
Definition five_frames_ABC : list (list Detection) :=
  [frame_ABC; frame_BC; frame_BC; frame_BC; frame_BC].

Definition invalid_options : Options.t :=
  Options.mk (Some (-1)%Z) (Some 0%Z) (Some 2) None.

(** On doubles: the box of width 0.1, height 1 and length 1 centred at
    [(cx, 0, 0)].  [1 / 10] is the double nearest to 0.1, the number the
    literal [0.1] denotes. *)
Definition thin_box (cx : float) : Double.BoundingBox3D :=
  Double.mk cx 0 0 (1 / 10) 1 1 0%float.

(** The frame pipeline in the order the specification names for [update] and
    [step] of [index.ts]: predict, associate, update matched tracks, spawn,
    prune. *)
Definition frame_pipeline (detections : list Detection) (this : AB3DMOTTracker)
  : AB3DMOTTracker :=
  let predicted := Plain.predictTracks this in
  let assignments := associateDetections predicted detections in
  let updated := Plain.updateTracks detections assignments predicted in
  let spawned := snd (Plain.createNewTracks detections assignments updated) in
  deleteOldTracks spawned.

(** The value a call returned, [default] if it threw. *)
Definition returned {A : Type} (c : completion A) (default : A) : A :=
  match c with Normal a => a | Throw _ => default end.

(** * Specification vocabulary *)

(** A box one of whose extents is 0. *)
Definition zero_extent (a : BoundingBox3D) : Prop :=
  BBox.width a == 0 \/ BBox.height a == 0 \/ BBox.length a == 0.

(** Equality of vectors and matrices of rationals, entry by entry. *)
Definition vector_eq (u v : list Q) : Prop := Forall2 Qeq u v.
Definition matrix_eq (A B : list (list Q)) : Prop := Forall2 vector_eq A B.

(** The shape every filter built by [KalmanFilter3D.constructor] has and that
    [predict] and [update] keep. *)
Definition filter_shape (kf : KalmanFilter3D.t) : Prop :=
  length (KalmanFilter3D.state kf) = 6%nat
  /\ length (KalmanFilter3D.covariance kf) = 6%nat
  /\ Forall (fun row => length row = 6%nat) (KalmanFilter3D.covariance kf).

(** A non-sentinel assignment names a track of the table that was unused when
    it was chosen and whose overlap with the detection reaches the threshold. *)
Definition admissible (iouThreshold : Q) (tracks : list Track)
    (usedTracks : gset Z) (detection : Detection) (trackIndex : Z) : Prop :=
  trackIndex = (-1)%Z
  \/ ((trackIndex ∉ usedTracks)
      /\ exists track : Track,
           (0 <= trackIndex)%Z
           /\ tracks !! Z.to_nat trackIndex = Some track
           /\ iouThreshold
              <= calculate3DIoU (Detection.bbox detection) (Track.bbox track)).

Definition track_ids (tracks : list Track) : list Z := Track.id <$> tracks.

(** The table invariant: ids are pairwise distinct and all below the next id
    to be minted. *)
Definition table_ok (this : AB3DMOTTracker) : Prop :=
  NoDup (track_ids (Tracker.tracks this))
  /\ Forall (fun id => (id < Tracker.nextTrackId this)%Z)
            (track_ids (Tracker.tracks this)).

(** What [createNewTracks] pushes: age 1, one hit, no miss. *)
Definition fresh_track (track : Track) : Prop :=
  Track.age track = 1%Z /\ Track.hits track = 1%Z
  /\ Track.timeSinceUpdate track = 0%Z.

(** [n, n + 1, ..., n + len - 1] *)
Definition id_range (n : Z) (len : nat) : list Z :=
  (fun k => (n + Z.of_nat k)%Z) <$> seq 0 len.

Definition ids_below (bound : Z) (outputs : list (list TrackedDetection)) : Prop :=
  Forall (Forall (fun o => (TrackedDetection.trackId o < bound)%Z)) outputs.

(** The id carried by an output entry of a frame: the id of a track that was
    in the table before the frame, or an id minted in this frame, which is
    then above every id of the table and every id output in earlier frames. *)
Definition output_id_ok (this this' : AB3DMOTTracker)
    (earlier : list (list TrackedDetection)) (o : TrackedDetection) : Prop :=
  TrackedDetection.trackId o ∈ track_ids (Tracker.tracks this)
  \/ ((Tracker.nextTrackId this <= TrackedDetection.trackId o
       < Tracker.nextTrackId this')%Z
      /\ Forall (fun id => (id < TrackedDetection.trackId o)%Z)
                (track_ids (Tracker.tracks this))
      /\ ids_below (TrackedDetection.trackId o) earlier).

Definition has_track (this : AB3DMOTTracker) (id timeSinceUpdate : Z) : Prop :=
  exists track : Track,
    track ∈ Tracker.tracks this
    /\ Track.id track = id
    /\ Track.timeSinceUpdate track = timeSinceUpdate.

Definition absent (this : AB3DMOTTracker) (id : Z) : Prop :=
  id ∉ track_ids (Tracker.tracks this).

(** The ids of the tracks that the association of a frame matches. *)
Definition matched_ids (this : AB3DMOTTracker) (detections : list Detection)
  : list Z :=
  let predicted := Plain.predictTracks this in
  omap (fun trackIndex : Z =>
          if (trackIndex =? -1)%Z then None
          else Track.id <$> (Tracker.tracks predicted !! Z.to_nat trackIndex))
       (associateDetections predicted detections).

(** The track [id] is matched in none of the frames, run from [this]. *)
Fixpoint never_matched (id : Z) (frames : list (list Detection))
    (this : AB3DMOTTracker) : Prop :=
  match frames with
  | [] => True
  | detections :: frames' =>
      (id ∉ matched_ids this detections)
      /\ never_matched id frames' (snd (Plain.step detections this))
  end.

(** The number of unmatched detections among the first [k]. *)
Definition unmatched_before (assignments : list Z) (k : nat) : nat :=
  length (filter (fun a => a = (-1)%Z) (take k assignments)).





(** A track has at least one hit, a non-negative miss streak, and its hits
    and current miss streak together do not exceed its age. *)
Definition counters_ok (track : Track) : Prop :=
  (1 <= Track.hits track)%Z
  /\ (0 <= Track.timeSinceUpdate track)%Z
  /\ (Track.hits track + Track.timeSinceUpdate track <= Track.age track)%Z.


(** The determinant [matrixInverse] computes, by cofactor expansion along
    the first row. *)
Definition determinant3 (A : list (list Q)) : Q :=
  KalmanFilter3D.entry A 0 0
  * (KalmanFilter3D.entry A 1 1 * KalmanFilter3D.entry A 2 2
     - KalmanFilter3D.entry A 1 2 * KalmanFilter3D.entry A 2 1)
  - KalmanFilter3D.entry A 0 1
    * (KalmanFilter3D.entry A 1 0 * KalmanFilter3D.entry A 2 2
       - KalmanFilter3D.entry A 1 2 * KalmanFilter3D.entry A 2 0)
  + KalmanFilter3D.entry A 0 2
    * (KalmanFilter3D.entry A 1 0 * KalmanFilter3D.entry A 2 1
       - KalmanFilter3D.entry A 1 1 * KalmanFilter3D.entry A 2 0).

(** The position and velocity a filter holds, as the tracker reads them. *)
Definition position_is (kf : KalmanFilter3D.t) (x y z : Q) : Prop :=
  vector_eq (KalmanFilter3D.getPosition kf) [x; y; z].
Definition velocity_is (kf : KalmanFilter3D.t) (vx vy vz : Q) : Prop :=
  vector_eq (KalmanFilter3D.getVelocity kf) [vx; vy; vz].

(** A matrix with [c] entries in every row. *)
Definition rectangular (c : nat) (A : list (list Q)) : Prop :=
  Forall (fun row => length row = c) A.

(** A square matrix is symmetric when [A[i][j]] equals [A[j][i]] at every
    position inside it. *)
Definition symmetric (A : list (list Q)) : Prop :=
  forall i j : nat, (i < length A)%nat -> (j < length A)%nat ->
    KalmanFilter3D.entry A i j == KalmanFilter3D.entry A j i.

(** The track carries a filter, and the filter is well shaped. *)
Definition has_filter (track : Track) : Prop :=
  exists kf : KalmanFilter3D.t,
    Track.kalmanFilter track = Some kf /\ filter_shape kf.

(** The state of the two assignment loops is consistent for the cost matrix
    [cm] of size [n]: the three arrays have [n] entries, an assigned row
    holds a column below [n] where the matrix is zero, no column is held by
    two rows, and the row and the column of every assignment are covered. *)
Definition marks_ok (cm : list (list Q)) (n : nat) (m : HungarianAlgorithm.marks)
  : Prop :=
  length (HungarianAlgorithm.assignment m) = n
  /\ length (HungarianAlgorithm.rowCovered m) = n
  /\ length (HungarianAlgorithm.colCovered m) = n
  /\ (forall (i : nat) (a : Z), HungarianAlgorithm.assignment m !! i = Some a ->
        a = (-1)%Z
        \/ exists j : nat, a = Z.of_nat j /\ (j < n)%nat
                           /\ HungarianAlgorithm.entry cm i j == 0)
  /\ (forall i i' j : nat,
        HungarianAlgorithm.assignment m !! i = Some (Z.of_nat j) ->
        HungarianAlgorithm.assignment m !! i' = Some (Z.of_nat j) -> i = i')
  /\ (forall i j : nat,
        HungarianAlgorithm.assignment m !! i = Some (Z.of_nat j) ->
        HungarianAlgorithm.rowCovered m !! i = Some true
        /\ HungarianAlgorithm.colCovered m !! j = Some true).





(** * Properties *)

Lemma Qltb_lt (a b : Q) : Qltb a b = true <-> a < b.
Proof.
  unfold Qltb. rewrite Qlt_alt. destruct (a ?= b); split; congruence.
Qed.

Lemma Qltb_nlt (a b : Q) : Qltb a b = false <-> b <= a.
Proof.
  rewrite <- not_true_iff_false, Qltb_lt. split.
  - apply Qnot_lt_le.
  - apply Qle_not_lt.
Qed.

Lemma Qgeb_ge (a b : Q) : Qgeb a b = true <-> b <= a.
Proof. apply Qle_bool_iff. Qed.

#[local] Instance Qltb_proper : Proper (Qeq ==> Qeq ==> eq) Qltb.
Proof.
  intros a a' Ha b b' Hb.
  destruct (Qltb a' b') eqn:E.
  - apply Qltb_lt. apply Qltb_lt in E. now rewrite Ha, Hb.
  - apply Qltb_nlt. apply Qltb_nlt in E. now rewrite Ha, Hb.
Qed.

(** ** Geometry *)

Section AxisOverlap.
Variables lo1 hi1 lo2 hi2 : Q.

Lemma axis_overlap_sym :
  Qmax 0 (Qmin hi1 hi2 - Qmax lo1 lo2) == Qmax 0 (Qmin hi2 hi1 - Qmax lo2 lo1).
Proof. now rewrite (Q.min_comm hi1 hi2), (Q.max_comm lo1 lo2). Qed.

Lemma axis_overlap_nonneg : 0 <= Qmax 0 (Qmin hi1 hi2 - Qmax lo1 lo2).
Proof. apply Q.le_max_l. Qed.

Lemma axis_overlap_le_l :
  lo1 <= hi1 -> Qmax 0 (Qmin hi1 hi2 - Qmax lo1 lo2) <= hi1 - lo1.
Proof.
  intros H. apply Q.max_lub; [lra|].
  pose proof (Q.le_min_l hi1 hi2). pose proof (Q.le_max_l lo1 lo2). lra.
Qed.

Lemma axis_overlap_le_r :
  lo2 <= hi2 -> Qmax 0 (Qmin hi1 hi2 - Qmax lo1 lo2) <= hi2 - lo2.
Proof.
  intros H. apply Q.max_lub; [lra|].
  pose proof (Q.le_min_r hi1 hi2). pose proof (Q.le_max_r lo1 lo2). lra.
Qed.

Lemma axis_overlap_self :
  0 <= hi1 - lo1 -> Qmax 0 (Qmin hi1 hi1 - Qmax lo1 lo1) == hi1 - lo1.
Proof.
  intros H. rewrite Q.min_id, Q.max_id. apply Q.max_r. exact H.
Qed.
End AxisOverlap.

Lemma half_span (c w : Q) : (c + w / 2) - (c - w / 2) == w.
Proof. field. Qed.

Lemma half_ordered (c w : Q) : 0 <= w -> c - w / 2 <= c + w / 2.
Proof.
  intros H. assert (0 <= w / 2) by (apply Qle_shift_div_l; lra). lra.
Qed.

Lemma axis_overlap_le_extent_l (c1 w1 c2 w2 : Q) :
  0 <= w1 ->
  Qmax 0 (Qmin (c1 + w1 / 2) (c2 + w2 / 2) - Qmax (c1 - w1 / 2) (c2 - w2 / 2))
  <= w1.
Proof.
  intros H. eapply Qle_trans.
  - apply axis_overlap_le_l, half_ordered, H.
  - rewrite half_span. apply Qle_refl.
Qed.

Lemma axis_overlap_le_extent_r (c1 w1 c2 w2 : Q) :
  0 <= w2 ->
  Qmax 0 (Qmin (c1 + w1 / 2) (c2 + w2 / 2) - Qmax (c1 - w1 / 2) (c2 - w2 / 2))
  <= w2.
Proof.
  intros H. eapply Qle_trans.
  - apply axis_overlap_le_r, half_ordered, H.
  - rewrite half_span. apply Qle_refl.
Qed.

Lemma calculateIntersection3D_sym (a b : BoundingBox3D) :
  calculateIntersection3D a b == calculateIntersection3D b a.
Proof.
  unfold calculateIntersection3D; cbv zeta.
  rewrite (axis_overlap_sym (BBox.x a - _)).
  rewrite (axis_overlap_sym (BBox.y a - _)).
  rewrite (axis_overlap_sym (BBox.z a - _)).
  reflexivity.
Qed.

Lemma calculate3DIoU_sym (a b : BoundingBox3D) :
  calculate3DIoU a b == calculate3DIoU b a.
Proof.
  unfold calculate3DIoU; cbv zeta.
  pose proof (calculateIntersection3D_sym a b) as HI.
  set (va := BBox.width a * BBox.height a * BBox.length a).
  set (vb := BBox.width b * BBox.height b * BBox.length b).
  assert (HU : va + vb - calculateIntersection3D a b
               == vb + va - calculateIntersection3D b a) by (rewrite HI; ring).
  rewrite (Qltb_proper 0 0 (Qeq_refl 0) _ _ HU).
  destruct (Qltb 0 (vb + va - calculateIntersection3D b a)); [|reflexivity].
  now rewrite HI, (Qplus_comm va vb).
Qed.

(** Boxes with non-negative extents.  [intersection_nonneg] holds of the
    code as it is.  The upper bounds ([intersection_le_volume1],
    [intersection_le_volume2], [calculate3DIoU_bounded]) are facts of exact
    arithmetic: on doubles the code satisfies them up to rounding only
    ([C8_overlap_self_counterexample]). *)
Section Extents.
Variables a b : BoundingBox3D.
Hypothesis a_w : 0 <= BBox.width a.
Hypothesis a_h : 0 <= BBox.height a.
Hypothesis a_l : 0 <= BBox.length a.
Hypothesis b_w : 0 <= BBox.width b.
Hypothesis b_h : 0 <= BBox.height b.
Hypothesis b_l : 0 <= BBox.length b.

Lemma intersection_nonneg : 0 <= calculateIntersection3D a b.
Proof.
  unfold calculateIntersection3D; cbv zeta.
  repeat apply Qmult_le_0_compat; apply axis_overlap_nonneg.
Qed.

Lemma intersection_le_volume1 :
  calculateIntersection3D a b
  <= BBox.width a * BBox.height a * BBox.length a.
Proof.
  unfold calculateIntersection3D; cbv zeta.
  apply Qmult_le_compat_nonneg; [split|split].
  - apply Qmult_le_0_compat; apply axis_overlap_nonneg.
  - apply Qmult_le_compat_nonneg; (split; [apply axis_overlap_nonneg|]).
    + apply axis_overlap_le_extent_l; assumption.
    + apply axis_overlap_le_extent_l; assumption.
  - apply axis_overlap_nonneg.
  - apply axis_overlap_le_extent_l; assumption.
Qed.

Lemma intersection_le_volume2 :
  calculateIntersection3D a b
  <= BBox.width b * BBox.height b * BBox.length b.
Proof.
  unfold calculateIntersection3D; cbv zeta.
  apply Qmult_le_compat_nonneg; [split|split].
  - apply Qmult_le_0_compat; apply axis_overlap_nonneg.
  - apply Qmult_le_compat_nonneg; (split; [apply axis_overlap_nonneg|]).
    + apply axis_overlap_le_extent_r; assumption.
    + apply axis_overlap_le_extent_r; assumption.
  - apply axis_overlap_nonneg.
  - apply axis_overlap_le_extent_r; assumption.
Qed.

Lemma calculate3DIoU_bounded :
  0 <= calculate3DIoU a b /\ calculate3DIoU a b <= 1.
Proof.
  pose proof intersection_nonneg as H0.
  pose proof intersection_le_volume1 as H1.
  pose proof intersection_le_volume2 as H2.
  unfold calculate3DIoU; cbv zeta.
  set (i := calculateIntersection3D a b) in *.
  set (va := BBox.width a * BBox.height a * BBox.length a) in *.
  set (vb := BBox.width b * BBox.height b * BBox.length b) in *.
  destruct (Qltb 0 (va + vb - i)) eqn:E; [|lra].
  apply Qltb_lt in E. split.
  - apply Qle_shift_div_l; [exact E|lra].
  - apply Qle_shift_div_r; [exact E|lra].
Qed.
End Extents.

(** In exact arithmetic the overlap of a box of positive volume with itself
    is 1.  On doubles this holds only up to rounding
    ([C8_overlap_self_counterexample]). *)
Lemma calculate3DIoU_self (a : BoundingBox3D) :
  0 < BBox.width a -> 0 < BBox.height a -> 0 < BBox.length a ->
  calculate3DIoU a a == 1.
Proof.
  intros Hw Hh Hl.
  assert (HI : calculateIntersection3D a a
               == BBox.width a * BBox.height a * BBox.length a).
  { unfold calculateIntersection3D; cbv zeta.
    rewrite !axis_overlap_self by (rewrite half_span; lra).
    rewrite !half_span. reflexivity. }
  unfold calculate3DIoU; cbv zeta.
  set (v := BBox.width a * BBox.height a * BBox.length a) in *.
  assert (Hv : 0 < v) by (unfold v; repeat apply Qmult_lt_0_compat; assumption).
  assert (HU : v + v - calculateIntersection3D a a == v) by (rewrite HI; ring).
  rewrite (Qltb_proper 0 0 (Qeq_refl 0) _ _ HU).
  destruct (Qltb 0 v) eqn:E.
  - rewrite HI. field. lra.
  - apply Qltb_nlt in E. lra.
Qed.

(** The overlap is never negative, whatever the extents: the intersection is
    a product of three numbers clamped at 0, and the quotient is taken only
    when the union is positive. *)
Lemma calculate3DIoU_nonneg (a b : BoundingBox3D) : 0 <= calculate3DIoU a b.
Proof.
  pose proof (intersection_nonneg a b) as H0.
  unfold calculate3DIoU; cbv zeta.
  match goal with |- context [Qltb 0 ?u] => destruct (Qltb 0 u) eqn:E end.
  - apply Qltb_lt in E. apply Qle_shift_div_l; [exact E|]. lra.
  - apply Qle_refl.
Qed.

(** Along an axis on which one box has extent 0 the boxes do not overlap:
    the interval of that box is the point [c1], [min(c1, hi2) <= c1] and
    [max(c1, lo2) >= c1]. *)
Lemma axis_overlap_zero_extent (c1 w1 lo2 hi2 : Q) :
  w1 == 0 ->
  Qmax 0 (Qmin (c1 + w1 / 2) hi2 - Qmax (c1 - w1 / 2) lo2) == 0.
Proof.
  intros Hw. apply Q.max_l.
  assert (Hhalf : w1 / 2 == 0) by (rewrite Hw; reflexivity).
  pose proof (Q.le_min_l (c1 + w1 / 2) hi2).
  pose proof (Q.le_max_l (c1 - w1 / 2) lo2).
  lra.
Qed.

Lemma intersection_zero_extent (a b : BoundingBox3D) :
  zero_extent a -> calculateIntersection3D a b == 0.
Proof.
  unfold calculateIntersection3D; cbv zeta.
  intros [Hw | [Hh | Hl]].
  - rewrite (axis_overlap_zero_extent (BBox.x a) (BBox.width a) _ _ Hw). ring.
  - rewrite (axis_overlap_zero_extent (BBox.y a) (BBox.height a) _ _ Hh). ring.
  - rewrite (axis_overlap_zero_extent (BBox.z a) (BBox.length a) _ _ Hl). ring.
Qed.

Lemma calculate3DIoU_zero_extent (a b : BoundingBox3D) :
  zero_extent a -> calculate3DIoU a b == 0.
Proof.
  intros Hz. pose proof (intersection_zero_extent a b Hz) as HI.
  unfold calculate3DIoU; cbv zeta.
  match goal with |- context [Qltb 0 ?u] => destruct (Qltb 0 u) eqn:E end;
    [|reflexivity].
  apply Qltb_lt in E. rewrite HI. field. lra.
Qed.

(** C8, as stated, fails, in two ways.  A box with a zero extent has union
    volume [0], and [calculate3DIoU] then returns [0], not [1].  And on
    doubles the overlap of a box of positive volume with itself is 1 only up
    to rounding: for the box of width 0.1, height 1 and length 1 at
    [x = 0.7] the code returns [1.0000000000000018], which is above 1, and
    for the same box at [x = 0.3] it returns [0.99999999999999944]. *)
Lemma C8_overlap_self_counterexample :
  ~ (calculate3DIoU (cube 0 0) (cube 0 0) == 1)
  /\ Double.calculate3DIoU (thin_box (7 / 10)%float) (thin_box (7 / 10)%float)
     = 0x1.0000000000008p+0%float
  /\ (1 <? Double.calculate3DIoU (thin_box (7 / 10)%float) (thin_box (7 / 10)%float))%float
     = true
  /\ Double.calculate3DIoU (thin_box (3 / 10)%float) (thin_box (3 / 10)%float)
     = 0x1.ffffffffffffbp-1%float
  /\ (Double.calculate3DIoU (thin_box (3 / 10)%float) (thin_box (3 / 10)%float) <? 1)%float
     = true.
Proof.
  split; [vm_compute; discriminate|]. repeat split; vm_compute; reflexivity.
Qed.

(** C8, amended: [overlap] is symmetric for all boxes and never negative;
    and it is [0] whenever one of the two boxes has a zero extent, so
    [overlap(a, a)] is [0], not [1], for such a box. *)
Theorem C8_overlap_properties :
  (forall a b : BoundingBox3D, calculate3DIoU a b == calculate3DIoU b a)
  /\ (forall a b : BoundingBox3D, 0 <= calculate3DIoU a b)
  /\ (forall a b : BoundingBox3D,
         zero_extent a ->
         calculate3DIoU a b == 0 /\ calculate3DIoU b a == 0).
Proof.
  split; [exact calculate3DIoU_sym|].
  split; [exact calculate3DIoU_nonneg|].
  intros a b Hz. split; [now apply calculate3DIoU_zero_extent|].
  rewrite calculate3DIoU_sym. now apply calculate3DIoU_zero_extent.
Qed.

Lemma C8_overlap_properties_witness :
  zero_extent (cube 0 0)
  /\ calculate3DIoU (cube 0 0) (cube 0 0) == 0
  /\ calculate3DIoU (cube 0 0) (cube 1 2) == 0
  /\ calculate3DIoU (cube 1 2) (cube 0 0) == 0.
Proof.
  assert (Hz : zero_extent (cube 0 0)) by (left; reflexivity).
  destruct C8_overlap_properties as (_ & _ & Hzero).
  split; [exact Hz|].
  split; [exact (proj1 (Hzero (cube 0 0) (cube 0 0) Hz))|].
  exact (Hzero (cube 0 0) (cube 1 2) Hz).
Defined.

(** ** Estimator *)

Ltac list_of_length l H :=
  repeat (destruct l as [|? l]; [discriminate H|]);
  destruct l; [clear H|discriminate H].

Lemma createProcessNoiseMatrix_zero (kf : KalmanFilter3D.t) :
  matrix_eq (KalmanFilter3D.createProcessNoiseMatrix kf 0)
            (repeat (repeat 0 6) 6).
Proof.
  unfold KalmanFilter3D.createProcessNoiseMatrix; cbn [repeat].
  repeat (constructor; [repeat (constructor; [try reflexivity; field|])|]);
    constructor.
Qed.

(** C9: predicting with [dt = 0] leaves the state vector and the covariance
    matrix unchanged (entry by entry, as rationals), and the process-noise
    matrix built for [dt = 0] is the zero matrix. *)
Theorem C9_predict_zero_dt (kf : KalmanFilter3D.t) :
  filter_shape kf ->
  vector_eq (KalmanFilter3D.state (KalmanFilter3D.predict 0 kf))
            (KalmanFilter3D.state kf)
  /\ matrix_eq (KalmanFilter3D.covariance (KalmanFilter3D.predict 0 kf))
               (KalmanFilter3D.covariance kf)
  /\ matrix_eq (KalmanFilter3D.createProcessNoiseMatrix kf 0)
               (repeat (repeat 0 6) 6).
Proof.
  intros (Hs & Hc & Hrows).
  split; [|split; [|apply createProcessNoiseMatrix_zero]].
  - destruct kf as [st cov q r]; cbn in *.
    list_of_length st Hs.
    cbv [KalmanFilter3D.matrixVectorMultiply KalmanFilter3D.entry
         map seq length fold_left nth].
    repeat (constructor; [rewrite Qred_correct; ring|]). constructor.
  - destruct kf as [st cov q r]; cbn in *.
    list_of_length cov Hc.
    repeat match goal with
           | H : Forall _ (_ :: _) |- _ =>
               let Hl := fresh "Hl" in
               apply Forall_cons_iff in H; destruct H as [Hl H]
           end.
    repeat match goal with
           | H : length ?l = 6%nat |- _ => list_of_length l H
           end.
    cbv [KalmanFilter3D.matrixAdd KalmanFilter3D.matrixMultiply
         KalmanFilter3D.matrixTranspose KalmanFilter3D.createProcessNoiseMatrix
         KalmanFilter3D.entry KalmanFilter3D.processNoise
         map seq length fold_left nth hd].
    repeat (constructor; [repeat (constructor; [rewrite !Qred_correct; field|])|]);
      repeat constructor.
Qed.

Lemma constructor_shape (b : BoundingBox3D) (q r : Q) :
  filter_shape (KalmanFilter3D.constructor b q r).
Proof. repeat split; repeat constructor. Qed.

Lemma matrixMultiply_length (A B : list (list Q)) :
  length (KalmanFilter3D.matrixMultiply A B) = length A.
Proof. unfold KalmanFilter3D.matrixMultiply. now rewrite length_map, length_seq. Qed.

Lemma matrixMultiply_row (A B : list (list Q)) (i : nat) :
  (i < length A)%nat ->
  length (nth i (KalmanFilter3D.matrixMultiply A B) []) = length (hd [] B).
Proof.
  intros Hi. unfold KalmanFilter3D.matrixMultiply.
  rewrite nth_lookup. change (map ?f ?l) with (f <$> l) at 1.
  rewrite list_lookup_fmap, lookup_seq_lt by exact Hi.
  cbv beta iota delta [fmap option_fmap option_map default from_option id].
  now rewrite length_map, length_seq.
Qed.

Lemma predict_shape (dt : Q) (kf : KalmanFilter3D.t) :
  filter_shape (KalmanFilter3D.predict dt kf).
Proof.
  unfold filter_shape, KalmanFilter3D.predict;
    cbn [KalmanFilter3D.state KalmanFilter3D.covariance].
  split; [unfold KalmanFilter3D.matrixVectorMultiply;
          now rewrite length_map, length_seq|].
  unfold KalmanFilter3D.matrixAdd.
  split; [now rewrite length_map, length_seq, !matrixMultiply_length|].
  apply Forall_forall. intros row Hrow.
  apply list_elem_of_In, in_map_iff in Hrow as (i & <- & Hi).
  apply in_seq in Hi. rewrite !matrixMultiply_length in Hi.
  rewrite length_map, length_seq.
  rewrite matrixMultiply_row by (rewrite matrixMultiply_length; apply Hi).
  reflexivity.
Qed.

Lemma update_shape (measurement : Q * Q * Q) (kf kf' : KalmanFilter3D.t) :
  filter_shape kf ->
  KalmanFilter3D.update measurement kf = Normal kf' ->
  filter_shape kf'.
Proof.
  intros (Hs & Hc & Hrows). destruct measurement as [[m0 m1] m2].
  unfold KalmanFilter3D.update.
  destruct (KalmanFilter3D.matrixInverse _) as [Sinv|message]; [|discriminate].
  intros [= <-]. unfold filter_shape.
  cbn [KalmanFilter3D.state KalmanFilter3D.covariance].
  rewrite length_map, length_seq. split; [exact Hs|].
  rewrite matrixMultiply_length.
  unfold KalmanFilter3D.matrixSubtract at 1.
  rewrite length_map, length_seq.
  split; [reflexivity|].
  apply Forall_forall. intros row Hrow.
  unfold KalmanFilter3D.matrixMultiply at 1 in Hrow.
  apply list_elem_of_In, in_map_iff in Hrow as (i & <- & _).
  rewrite length_map, length_seq.
  destruct (KalmanFilter3D.covariance kf) as [|row0 rows]; [discriminate|].
  apply Forall_cons_iff in Hrows as [H0 _]. exact H0.
Qed.

Lemma C9_predict_zero_dt_witness :
  filter_shape filter_example
  /\ vector_eq (KalmanFilter3D.state (KalmanFilter3D.predict 0 filter_example))
               (KalmanFilter3D.state filter_example)
  /\ matrix_eq (KalmanFilter3D.covariance (KalmanFilter3D.predict 0 filter_example))
               (KalmanFilter3D.covariance filter_example)
  /\ matrix_eq (KalmanFilter3D.createProcessNoiseMatrix filter_example 0)
               (repeat (repeat 0 6) 6).
Proof.
  split; [apply constructor_shape|].
  apply C9_predict_zero_dt, constructor_shape.
Defined.

(** ** Association *)

(** What the inner loop returns: the running best, or an unused track whose
    overlap with the detection is the returned score. *)
Lemma bestTrack_spec (usedTracks : gset Z) (bbox : BoundingBox3D)
    (tracks : list Track) (t : nat) (best : Z * Q) :
  bestTrack usedTracks bbox tracks t best = best
  \/ exists (k : nat) (track : Track),
       tracks !! k = Some track
       /\ (Z.of_nat (t + k) ∉ usedTracks)
       /\ bestTrack usedTracks bbox tracks t best
          = (Z.of_nat (t + k), calculate3DIoU bbox (Track.bbox track)).
Proof.
  revert t best. induction tracks as [|track rest IH]; intros t best; cbn.
  - now left.
  - case_bool_decide as Hused.
    + destruct (IH (S t) best) as [E | (k & tr & Hk & Hnot & E)]; [now left|].
      right. exists (S k), tr. rewrite Nat.add_succ_r. auto.
    + destruct (Qltb (snd best) (calculate3DIoU bbox (Track.bbox track))).
      * destruct (IH (S t) (Z.of_nat t, calculate3DIoU bbox (Track.bbox track)))
          as [E | (k & tr & Hk & Hnot & E)]; right.
        -- exists 0%nat, track. rewrite Nat.add_0_r. auto.
        -- exists (S k), tr. rewrite Nat.add_succ_r. auto.
      * destruct (IH (S t) best) as [E | (k & tr & Hk & Hnot & E)]; [now left|].
        right. exists (S k), tr. rewrite Nat.add_succ_r. auto.
Qed.

Lemma associateLoop_spec (iouThreshold : Q) (tracks : list Track)
    (detections : list Detection) (usedTracks : gset Z) :
  Forall2 (admissible iouThreshold tracks usedTracks) detections
          (associateLoop iouThreshold tracks usedTracks detections)
  /\ NoDup (filter (fun trackIndex => trackIndex ≠ (-1)%Z)
                   (associateLoop iouThreshold tracks usedTracks detections)).
Proof.
  revert usedTracks.
  induction detections as [|detection rest IH]; intros usedTracks;
    cbn [associateLoop].
  - split; constructor.
  - destruct (bestTrack_spec usedTracks (Detection.bbox detection) tracks 0
                             ((-1)%Z, -1))
      as [E | (k & track & Hk & Hnot & E)]; rewrite E; cbv beta iota zeta.
    + change (negb (-1 =? -1)%Z) with false; cbn [andb].
      destruct (IH usedTracks) as [HF HN]. split.
      * constructor; [now left | exact HF].
      * rewrite filter_cons_False by (intros H; now apply H). exact HN.
    + change (0 + k)%nat with k in *.
      destruct (negb (Z.of_nat k =? -1)%Z
                && Qgeb (calculate3DIoU (Detection.bbox detection) (Track.bbox track))
                        iouThreshold) eqn:Hif.
      * apply andb_true_iff in Hif as [_ Hge]. apply Qgeb_ge in Hge.
        destruct (IH ({[Z.of_nat k]} ∪ usedTracks)) as [HF HN]. split.
        -- constructor.
           ++ right. split; [exact Hnot|]. exists track.
              rewrite Nat2Z.id. repeat split; [lia | exact Hk | exact Hge].
           ++ eapply Forall2_impl; [exact HF|].
              intros d ti [-> | (Hti & Hrest)]; [now left|].
              right. split; [|exact Hrest].
              intros Hu. apply Hti, elem_of_union_r, Hu.
        -- rewrite filter_cons_True by lia. constructor; [|exact HN].
           intros Hin. apply list_elem_of_filter in Hin as [_ Hin].
           apply list_elem_of_lookup in Hin as [j Hj].
           destruct (Forall2_lookup_r _ _ _ _ _ HF Hj) as (d & _ & [Hm | (Hti & _)]);
             [lia | apply Hti, elem_of_union_l, elem_of_singleton; reflexivity].
      * destruct (IH usedTracks) as [HF HN]. split.
        -- constructor; [now left | exact HF].
        -- rewrite filter_cons_False by (intros H; now apply H). exact HN.
Qed.

Lemma NoDup_filter_lookup {A : Type} (P : A -> Prop) `{forall a, Decision (P a)}
    (l : list A) (i j : nat) (a : A) :
  NoDup (filter P l) -> P a -> l !! i = Some a -> l !! j = Some a -> i = j.
Proof.
  revert i j. induction l as [|b l IH]; intros i j HN HP Hi Hj; [discriminate|].
  destruct (decide (P b)) as [Hb | Hb].
  - rewrite filter_cons_True in HN by exact Hb.
    apply NoDup_cons in HN as [Hnotin HN].
    assert (Hin : forall n, l !! n = Some a -> a ∈ filter P l).
    { intros n Hn. apply list_elem_of_filter. split; [exact HP|].
      apply list_elem_of_lookup. eauto. }
    destruct i as [|i], j as [|j]; cbn in Hi, Hj; try reflexivity.
    + injection Hi as ->. exfalso. eauto.
    + injection Hj as ->. exfalso. eauto.
    + f_equal. eauto.
  - rewrite filter_cons_False in HN by exact Hb.
    destruct i as [|i], j as [|j]; cbn in Hi, Hj; try reflexivity.
    + injection Hi as ->. contradiction.
    + injection Hj as ->. contradiction.
    + f_equal. eauto.
Qed.

(** C10: the greedy association is one-to-one.  The assignment array has one
    entry per detection; two different detections never hold the same track
    index; and an assigned index names a track of the table whose overlap
    with the detection is at least [iouThreshold]. *)
Theorem C10_association_one_to_one (this : AB3DMOTTracker)
    (detections : list Detection) :
  let assignments := associateDetections this detections in
  length assignments = length detections
  /\ (forall (i j : nat) (trackIndex : Z),
         assignments !! i = Some trackIndex ->
         assignments !! j = Some trackIndex ->
         trackIndex ≠ (-1)%Z -> i = j)
  /\ (forall (i : nat) (detection : Detection) (trackIndex : Z),
         detections !! i = Some detection ->
         assignments !! i = Some trackIndex ->
         trackIndex ≠ (-1)%Z ->
         exists track : Track,
           (0 <= trackIndex)%Z
           /\ Tracker.tracks this !! Z.to_nat trackIndex = Some track
           /\ Tracker.iouThreshold this
              <= calculate3DIoU (Detection.bbox detection) (Track.bbox track)).
Proof.
  unfold associateDetections.
  destruct (associateLoop_spec (Tracker.iouThreshold this) (Tracker.tracks this)
                               detections ∅) as [HF HN].
  cbv zeta. split; [|split].
  - symmetry. eapply Forall2_length, HF.
  - intros i j trackIndex Hi Hj Hne.
    eapply NoDup_filter_lookup; [exact HN | exact Hne | exact Hi | exact Hj].
  - intros i detection trackIndex Hd Ha Hne.
    destruct (Forall2_lookup_lr _ _ _ _ _ _ HF Hd Ha) as [-> | (_ & Hex)];
      [contradiction | exact Hex].
Qed.

(** The indices that [associateDetections] hands to [updateTracks] lie in the
    table, and the update loops keep the length of the table: the loops never
    index outside it. *)
Lemma associateDetections_in_range (this : AB3DMOTTracker)
    (detections : list Detection) (trackIndex : Z) :
  trackIndex ∈ associateDetections this detections ->
  trackIndex = (-1)%Z
  \/ (0 <= trackIndex < Z.of_nat (length (Tracker.tracks this)))%Z.
Proof.
  unfold associateDetections. intros Hin.
  destruct (associateLoop_spec (Tracker.iouThreshold this) (Tracker.tracks this)
                               detections ∅) as [HF _].
  apply list_elem_of_lookup in Hin as [i Hi].
  destruct (Forall2_lookup_r _ _ _ _ _ HF Hi)
    as (d & _ & [-> | (_ & track & Hge & Hk & _)]); [now left | right].
  apply lookup_lt_Some in Hk. lia.
Qed.

Lemma plain_updateLoop_length (detections : list Detection) (assignments : list Z)
    (tracks : list Track) :
  length (Plain.updateLoop detections assignments tracks) = length tracks.
Proof.
  revert assignments tracks.
  induction detections as [|d ds IH]; intros [|a asg] tracks;
    cbn [Plain.updateLoop]; try reflexivity.
  rewrite IH. destruct (negb (a =? -1)%Z); [apply length_alter | reflexivity].
Qed.

Lemma kalman_updateLoop_length (detections : list Detection) (assignments : list Z)
    (tracks : list Track) :
  length (snd (Kalman.updateLoop detections assignments tracks)) = length tracks.
Proof.
  revert assignments tracks.
  induction detections as [|d ds IH]; intros [|a asg] tracks;
    cbn [Kalman.updateLoop]; try reflexivity.
  destruct (negb (a =? -1)%Z); [|apply IH].
  destruct (tracks !! Z.to_nat a) as [track|]; [|apply IH].
  cbv zeta. destruct (Track.kalmanFilter track) as [kf|].
  - destruct (KalmanFilter3D.update _ kf) as [kf'|message].
    + rewrite IH. apply length_insert.
    + cbn [snd]. apply length_insert.
  - rewrite IH. apply length_insert.
Qed.

(** ** Track identities *)

Lemma id_range_S (n : Z) (len : nat) :
  id_range n (S len) = n :: id_range (n + 1) len.
Proof.
  unfold id_range. cbn [seq fmap list_fmap]. f_equal; [lia|].
  rewrite <- fmap_S_seq, <- list_fmap_compose.
  apply list_fmap_ext. intros ? k _. cbn. lia.
Qed.

Lemma elem_of_id_range (n : Z) (len : nat) (v : Z) :
  v ∈ id_range n len <-> (n <= v < n + Z.of_nat len)%Z.
Proof.
  revert n. induction len as [|len IH]; intros n.
  - cbn. rewrite elem_of_nil. lia.
  - rewrite id_range_S, elem_of_cons, IH. lia.
Qed.

Lemma NoDup_id_range (n : Z) (len : nat) : NoDup (id_range n len).
Proof.
  revert n. induction len as [|len IH]; intros n.
  - constructor.
  - rewrite id_range_S. constructor; [|apply IH].
    rewrite elem_of_id_range. lia.
Qed.

Lemma plain_predictTracks_ids (this : AB3DMOTTracker) :
  track_ids (Tracker.tracks (Plain.predictTracks this))
  = track_ids (Tracker.tracks this).
Proof.
  unfold track_ids, Plain.predictTracks; cbn.
  change (map ?f ?l) with (f <$> l).
  rewrite <- list_fmap_compose. reflexivity.
Qed.

Lemma plain_updateLoop_ids (detections : list Detection) (assignments : list Z)
    (tracks : list Track) :
  track_ids (Plain.updateLoop detections assignments tracks) = track_ids tracks.
Proof.
  revert assignments tracks.
  induction detections as [|d ds IH]; intros [|a asg] tracks; cbn; try reflexivity.
  rewrite IH. destruct (negb (a =? -1)%Z); [|reflexivity].
  unfold track_ids.
  rewrite (list_fmap_alter Track.id _ (fun x => x))
    by (apply Forall_forall; reflexivity).
  apply list_alter_id. reflexivity.
Qed.

Lemma plain_createLoop_spec (detections : list Detection) (assignments : list Z)
    (i : nat) (tracks : list Track) (n : Z) (newMap : gmap nat Z) :
  exists (spawned : list Track) (newMap' : gmap nat Z),
    Plain.createLoop detections assignments i tracks n newMap
    = (tracks ++ spawned, (n + Z.of_nat (length spawned))%Z, newMap')
    /\ Forall fresh_track spawned
    /\ track_ids spawned = id_range n (length spawned)
    /\ (forall (j : nat) (v : Z),
           newMap' !! j = Some v ->
           newMap !! j = Some v \/ (n <= v < n + Z.of_nat (length spawned))%Z).
Proof.
  revert assignments i tracks n newMap.
  induction detections as [|d ds IH]; intros [|a asg] i tracks n newMap;
    cbn [Plain.createLoop];
    try (exists [], newMap; rewrite app_nil_r, Z.add_0_r;
         repeat split; [constructor | now left]).
  destruct (a =? -1)%Z.
  - destruct (IH asg (S i)
                (tracks ++ [Track.mk n (Detection.bbox d) (0, 0, 0) 1%Z 1%Z 0%Z None])
                (n + 1)%Z (<[i:=n]> newMap))
      as (sp & m' & E & Hfresh & Hids & Hmap).
    eexists (_ :: sp), m'. rewrite E, <- app_assoc. cbn [app length].
    repeat split.
    + f_equal. f_equal. lia.
    + constructor; [repeat split | exact Hfresh].
    + rewrite id_range_S. unfold track_ids in *. cbn [fmap list_fmap Track.id].
      f_equal. exact Hids.
    + intros j v Hj. destruct (Hmap j v Hj) as [Hin | Hrange]; [|right; lia].
      destruct (decide (i = j)) as [-> | Hne].
      * rewrite lookup_insert_eq in Hin. injection Hin as <-. right. lia.
      * rewrite lookup_insert_ne in Hin by exact Hne. now left.
  - apply IH.
Qed.

Lemma stepOutput_ids (tracks : list Track) (newTrackMap : gmap nat Z)
    (detections : list Detection) (assignments : list Z) (i : nat) :
  Forall (fun o =>
            TrackedDetection.trackId o ∈ track_ids tracks
            \/ exists j : nat, newTrackMap !! j = Some (TrackedDetection.trackId o))
         (stepOutput tracks newTrackMap detections assignments i).
Proof.
  revert assignments i.
  induction detections as [|d ds IH]; intros [|a asg] i; cbn [stepOutput];
    try constructor.
  assert (Hcreated :
    Forall (fun o =>
              TrackedDetection.trackId o ∈ track_ids tracks
              \/ exists j : nat, newTrackMap !! j = Some (TrackedDetection.trackId o))
           match newTrackMap !! i with
           | Some createdId =>
               TrackedDetection.mk d createdId :: stepOutput tracks newTrackMap ds asg (S i)
           | None => stepOutput tracks newTrackMap ds asg (S i)
           end).
  { destruct (newTrackMap !! i) as [createdId|] eqn:E; [|apply IH].
    constructor; [right; exists i; exact E | apply IH]. }
  destruct (negb (a =? -1)%Z); [|exact Hcreated].
  destruct (tracks !! Z.to_nat a) as [track|] eqn:E; [|exact Hcreated].
  constructor; [|apply IH].
  left. cbn. apply list_elem_of_fmap. exists track. split; [reflexivity|].
  apply list_elem_of_lookup. eauto.
Qed.

(** One frame, seen through the ids only: the table read by the output loop
    holds ids of the old table and ids minted in this frame. *)
Lemma frame_ids (this this' : AB3DMOTTracker) (updated spawned table : list Track)
    (newTrackMap : gmap nat Z) (detections : list Detection)
    (assignments : list Z) :
  table_ok this ->
  Tracker.tracks this' = table ->
  track_ids updated = track_ids (Tracker.tracks this) ->
  track_ids spawned = id_range (Tracker.nextTrackId this) (length spawned) ->
  Tracker.nextTrackId this'
  = (Tracker.nextTrackId this + Z.of_nat (length spawned))%Z ->
  track_ids (Tracker.tracks this') `sublist_of` track_ids (updated ++ spawned) ->
  (forall (j : nat) (v : Z),
      newTrackMap !! j = Some v ->
      (Tracker.nextTrackId this <= v
       < Tracker.nextTrackId this + Z.of_nat (length spawned))%Z) ->
  table_ok this'
  /\ (Tracker.nextTrackId this <= Tracker.nextTrackId this')%Z
  /\ Forall (fun o =>
               TrackedDetection.trackId o ∈ track_ids (Tracker.tracks this)
               \/ (Tracker.nextTrackId this <= TrackedDetection.trackId o
                   < Tracker.nextTrackId this')%Z)
            (stepOutput table newTrackMap detections assignments 0)
  /\ (forall id : Z,
         id ∈ track_ids (Tracker.tracks this') ->
         id ∈ track_ids (Tracker.tracks this)
         \/ (Tracker.nextTrackId this <= id < Tracker.nextTrackId this')%Z).
Proof.
  intros [Hnd Hlt] <- Hupd Hsp Hnext Hsub Hmap.
  unfold track_ids in Hsub. rewrite fmap_app in Hsub.
  fold (track_ids updated) (track_ids spawned) in Hsub.
  rewrite Hupd, Hsp in Hsub.
  assert (Hall : NoDup (track_ids (Tracker.tracks this)
                        ++ id_range (Tracker.nextTrackId this) (length spawned))).
  { apply NoDup_app. split; [exact Hnd|]. split; [|apply NoDup_id_range].
    intros v Hv Hr. apply elem_of_id_range in Hr.
    rewrite Forall_forall in Hlt. specialize (Hlt v Hv). lia. }
  assert (Hin : forall v, v ∈ track_ids (Tracker.tracks this') ->
                v ∈ track_ids (Tracker.tracks this)
                \/ (Tracker.nextTrackId this <= v < Tracker.nextTrackId this')%Z).
  { intros v Hv. apply (sublist_subseteq _ _ Hsub) in Hv.
    apply elem_of_app in Hv as [Hv | Hv]; [now left|].
    apply elem_of_id_range in Hv. right. lia. }
  split; [split|split; [|split]].
  - eapply sublist_NoDup; [exact Hall | exact Hsub].
  - apply Forall_forall. intros v Hv. destruct (Hin v Hv) as [Hold | Hnew]; [|lia].
    rewrite Forall_forall in Hlt. specialize (Hlt v Hold). lia.
  - lia.
  - eapply Forall_impl; [apply stepOutput_ids|].
    intros o [Htab | (j & Hj)]; [exact (Hin _ Htab)|].
    right. specialize (Hmap j _ Hj). lia.
  - exact Hin.
Qed.

Lemma deleteOldTracks_sublist (this : AB3DMOTTracker) :
  Tracker.tracks (deleteOldTracks this) `sublist_of` Tracker.tracks this.
Proof. apply sublist_filter. Qed.

Lemma plain_step_ids (detections : list Detection) (this : AB3DMOTTracker) :
  table_ok this ->
  table_ok (snd (Plain.step detections this))
  /\ (Tracker.nextTrackId this
      <= Tracker.nextTrackId (snd (Plain.step detections this)))%Z
  /\ Forall (fun o =>
               TrackedDetection.trackId o ∈ track_ids (Tracker.tracks this)
               \/ (Tracker.nextTrackId this <= TrackedDetection.trackId o
                   < Tracker.nextTrackId (snd (Plain.step detections this)))%Z)
            (fst (Plain.step detections this))
  /\ (forall id : Z,
         id ∈ track_ids (Tracker.tracks (snd (Plain.step detections this))) ->
         id ∈ track_ids (Tracker.tracks this)
         \/ (Tracker.nextTrackId this <= id
             < Tracker.nextTrackId (snd (Plain.step detections this)))%Z).
Proof.
  intros Hok. unfold Plain.step, Plain.createNewTracks.
  set (predicted := Plain.predictTracks this).
  set (assignments := associateDetections predicted detections).
  set (updated := Plain.updateTracks detections assignments predicted).
  destruct (plain_createLoop_spec detections assignments 0 (Tracker.tracks updated)
              (Tracker.nextTrackId updated) ∅)
    as (spawned & newMap & E & _ & Hids & Hmap).
  rewrite E. cbn [fst snd].
  eapply (frame_ids this _ (Tracker.tracks updated) spawned).
  - exact Hok.
  - reflexivity.
  - unfold updated, Plain.updateTracks; cbn.
    rewrite plain_updateLoop_ids. apply plain_predictTracks_ids.
  - exact Hids.
  - reflexivity.
  - apply fmap_sublist, sublist_filter.
  - intros j v Hj. destruct (Hmap j v Hj) as [Hempty | Hrange];
      [rewrite lookup_empty in Hempty; discriminate | exact Hrange].
Qed.

Lemma kalman_predictTracks_ids (this : AB3DMOTTracker) :
  track_ids (Tracker.tracks (Kalman.predictTracks this))
  = track_ids (Tracker.tracks this).
Proof.
  unfold track_ids, Kalman.predictTracks; cbn.
  change (map ?f ?l) with (f <$> l).
  rewrite <- list_fmap_compose. apply list_fmap_ext.
  intros ? track _. cbn. now destruct (Track.kalmanFilter track).
Qed.

Lemma kalman_updateLoop_ids (detections : list Detection) (assignments : list Z)
    (tracks : list Track) :
  track_ids (snd (Kalman.updateLoop detections assignments tracks))
  = track_ids tracks.
Proof.
  revert assignments tracks.
  induction detections as [|d ds IH]; intros [|a asg] tracks;
    cbn [Kalman.updateLoop]; try reflexivity.
  destruct (negb (a =? -1)%Z); [|apply IH].
  destruct (tracks !! Z.to_nat a) as [track|] eqn:E; [|apply IH].
  assert (Hins : forall kf,
             track_ids (<[Z.to_nat a :=
                          Track.mk (Track.id track) (Detection.bbox d)
                                   (Track.velocity track) (Track.age track)
                                   (Track.hits track + 1)%Z 0%Z kf]> tracks)
             = track_ids tracks).
  { intros kf. unfold track_ids. rewrite list_fmap_insert. cbn [Track.id].
    apply list_insert_id. rewrite list_lookup_fmap, E. reflexivity. }
  destruct (Track.kalmanFilter track) as [kf|].
  - destruct (KalmanFilter3D.update _ kf) as [kf'|message].
    + rewrite IH. apply Hins.
    + cbn [snd]. apply Hins.
  - rewrite IH. apply Hins.
Qed.

Lemma kalman_createLoop_spec (detections : list Detection) (assignments : list Z)
    (i : nat) (tracks : list Track) (n : Z) (newMap : gmap nat Z) :
  exists (spawned : list Track) (newMap' : gmap nat Z),
    Kalman.createLoop detections assignments i tracks n newMap
    = (tracks ++ spawned, (n + Z.of_nat (length spawned))%Z, newMap')
    /\ Forall fresh_track spawned
    /\ track_ids spawned = id_range n (length spawned)
    /\ (forall (j : nat) (v : Z),
           newMap' !! j = Some v ->
           newMap !! j = Some v \/ (n <= v < n + Z.of_nat (length spawned))%Z).
Proof.
  revert assignments i tracks n newMap.
  induction detections as [|d ds IH]; intros [|a asg] i tracks n newMap;
    cbn [Kalman.createLoop];
    try (exists [], newMap; rewrite app_nil_r, Z.add_0_r;
         repeat split; [constructor | now left]).
  destruct (a =? -1)%Z; [|apply IH].
  cbv zeta.
  match goal with
  | |- context [Kalman.createLoop ds asg (S i) (tracks ++ [?new]) _ _] =>
      destruct (IH asg (S i) (tracks ++ [new]) (n + 1)%Z (<[i:=n]> newMap))
        as (sp & m' & E & Hfresh & Hids & Hmap);
      exists (new :: sp), m'
  end.
  rewrite E, <- app_assoc. cbn [app length]. repeat split.
  - f_equal. f_equal. lia.
  - constructor; [repeat split | exact Hfresh].
  - rewrite id_range_S. unfold track_ids in *. cbn [fmap list_fmap Track.id].
    f_equal. exact Hids.
  - intros j v Hj. destruct (Hmap j v Hj) as [Hin | Hrange]; [|right; lia].
    destruct (decide (i = j)) as [-> | Hne].
    + rewrite lookup_insert_eq in Hin. injection Hin as <-. right. lia.
    + rewrite lookup_insert_ne in Hin by exact Hne. now left.
Qed.

Lemma kalman_step_ids (detections : list Detection) (this this' : AB3DMOTTracker)
    (out : list TrackedDetection) :
  table_ok this ->
  Kalman.step detections this = (Normal out, this') ->
  table_ok this'
  /\ (Tracker.nextTrackId this <= Tracker.nextTrackId this')%Z
  /\ Forall (fun o =>
               TrackedDetection.trackId o ∈ track_ids (Tracker.tracks this)
               \/ (Tracker.nextTrackId this <= TrackedDetection.trackId o
                   < Tracker.nextTrackId this')%Z)
            out
  /\ (forall id : Z,
         id ∈ track_ids (Tracker.tracks this') ->
         id ∈ track_ids (Tracker.tracks this)
         \/ (Tracker.nextTrackId this <= id < Tracker.nextTrackId this')%Z).
Proof.
  intros Hok. unfold Kalman.step, Kalman.updateTracks, Kalman.createNewTracks.
  set (predicted := Kalman.predictTracks this).
  set (assignments := associateDetections predicted detections).
  pose proof (kalman_updateLoop_ids detections assignments (Tracker.tracks predicted))
    as Hupd.
  destruct (Kalman.updateLoop detections assignments (Tracker.tracks predicted))
    as [[[]|message] updated]; [|discriminate].
  cbn [snd] in Hupd.
  set (pruned := deleteOldTracks (Tracker.with_tracks predicted updated)).
  destruct (kalman_createLoop_spec detections assignments 0 (Tracker.tracks pruned)
              (Tracker.nextTrackId pruned) ∅)
    as (spawned & newMap & E & _ & Hids & Hmap).
  rewrite E. intros [= <- <-].
  eapply (frame_ids this _ updated spawned).
  - exact Hok.
  - reflexivity.
  - rewrite Hupd. apply kalman_predictTracks_ids.
  - exact Hids.
  - reflexivity.
  - cbn [Tracker.tracks]. unfold track_ids. rewrite !fmap_app.
    apply sublist_app; [|reflexivity]. apply fmap_sublist, sublist_filter.
  - intros j v Hj. destruct (Hmap j v Hj) as [Hempty | Hrange];
      [rewrite lookup_empty in Hempty; discriminate | exact Hrange].
Qed.

(** ** Runs *)

Lemma constructor_table_ok (options : option Options.t) (this : AB3DMOTTracker) :
  constructor options = Normal this -> table_ok this.
Proof.
  destruct options as [options|]; intros [= <-]; split; constructor.
Qed.

Lemma frame_output_below (this this' : AB3DMOTTracker)
    (out : list TrackedDetection) :
  table_ok this ->
  (Tracker.nextTrackId this <= Tracker.nextTrackId this')%Z ->
  Forall (fun o =>
            TrackedDetection.trackId o ∈ track_ids (Tracker.tracks this)
            \/ (Tracker.nextTrackId this <= TrackedDetection.trackId o
                < Tracker.nextTrackId this')%Z) out ->
  Forall (fun o => (TrackedDetection.trackId o < Tracker.nextTrackId this')%Z) out.
Proof.
  intros [_ Hlt] Hle Hout. eapply Forall_impl; [exact Hout|].
  intros o [Hold | Hnew]; [|lia].
  rewrite Forall_forall in Hlt. specialize (Hlt _ Hold). lia.
Qed.

Lemma plain_runLoop_ok (frames : list (list Detection)) (this : AB3DMOTTracker) :
  table_ok this ->
  table_ok (snd (Plain.runLoop frames this))
  /\ (Tracker.nextTrackId this
      <= Tracker.nextTrackId (snd (Plain.runLoop frames this)))%Z
  /\ ids_below (Tracker.nextTrackId (snd (Plain.runLoop frames this)))
               (fst (Plain.runLoop frames this)).
Proof.
  revert this. induction frames as [|detections frames IH]; intros this Hok;
    cbn [Plain.runLoop].
  - cbn [fst snd]. split; [exact Hok|]. split; [lia | constructor].
  - destruct (plain_step_ids detections this Hok) as (Hok1 & Hle1 & Hout1 & _).
    pose proof (frame_output_below _ _ _ Hok Hle1 Hout1) as Hbelow.
    destruct (Plain.step detections this) as [out this1]. cbn [fst snd] in *.
    destruct (IH this1 Hok1) as (Hok2 & Hle2 & Hout2).
    destruct (Plain.runLoop frames this1) as [outs this2]. cbn [fst snd] in *.
    split; [exact Hok2|]. split; [lia|].
    constructor; [|exact Hout2].
    eapply Forall_impl; [exact Hbelow|]. intros o. cbn. lia.
Qed.

Lemma kalman_runLoop_ok (frames : list (list Detection))
    (this this' : AB3DMOTTracker) (outputs : list (list TrackedDetection)) :
  table_ok this ->
  Kalman.runLoop frames this = (Normal outputs, this') ->
  table_ok this'
  /\ (Tracker.nextTrackId this <= Tracker.nextTrackId this')%Z
  /\ ids_below (Tracker.nextTrackId this') outputs.
Proof.
  revert this outputs. induction frames as [|detections frames IH];
    intros this outputs Hok; cbn [Kalman.runLoop].
  - intros [= <- <-]. split; [exact Hok|]. split; [lia | constructor].
  - destruct (Kalman.step detections this) as [[out|message] this1] eqn:E1;
      [|discriminate].
    destruct (kalman_step_ids _ _ _ _ Hok E1) as (Hok1 & Hle1 & Hout1 & _).
    pose proof (frame_output_below _ _ _ Hok Hle1 Hout1) as Hbelow.
    destruct (Kalman.runLoop frames this1) as [[outs|message] this2] eqn:E2;
      [|discriminate].
    intros [= <- <-].
    destruct (IH this1 outs Hok1 E2) as (Hok2 & Hle2 & Hout2).
    split; [exact Hok2|]. split; [lia|].
    constructor; [|exact Hout2].
    eapply Forall_impl; [exact Hbelow|]. intros o. cbn. lia.
Qed.

Lemma output_id_ok_intro (this this' : AB3DMOTTracker)
    (earlier : list (list TrackedDetection)) (out : list TrackedDetection) :
  table_ok this ->
  ids_below (Tracker.nextTrackId this) earlier ->
  Forall (fun o =>
            TrackedDetection.trackId o ∈ track_ids (Tracker.tracks this)
            \/ (Tracker.nextTrackId this <= TrackedDetection.trackId o
                < Tracker.nextTrackId this')%Z) out ->
  Forall (output_id_ok this this' earlier) out.
Proof.
  intros [_ Hlt] Hearlier Hout. eapply Forall_impl; [exact Hout|].
  intros o [Hold | Hnew]; [now left|]. right. split; [exact Hnew|]. split.
  - eapply Forall_impl; [exact Hlt|]. intros id. cbn. lia.
  - eapply Forall_impl; [exact Hearlier|]. intros out' Hout'.
    eapply Forall_impl; [exact Hout'|]. intros o'. cbn. lia.
Qed.

(** C5: in every run of a freshly constructed tracker, each output entry of a
    frame carries one id, which is the id of a track in the table before the
    frame or an id minted in the frame; a minted id is strictly greater than
    every id of the table and every id output in earlier frames.  After the
    frame the ids of the table are pairwise distinct and below
    [nextTrackId], which never decreases: an id is never handed out twice.
    This holds for [step] of both tracker sources. *)
Theorem C5_output_ids_fresh (options : option Options.t) (t0 : AB3DMOTTracker)
    (earlierFrames : list (list Detection)) (detections : list Detection) :
  constructor options = Normal t0 ->
  (let this := snd (Plain.runLoop earlierFrames t0) in
   let earlier := fst (Plain.runLoop earlierFrames t0) in
   let this' := snd (Plain.step detections this) in
   Forall (output_id_ok this this' earlier) (fst (Plain.step detections this))
   /\ table_ok this'
   /\ (Tracker.nextTrackId this <= Tracker.nextTrackId this')%Z)
  /\ (forall (earlier : list (list TrackedDetection)) (this this' : AB3DMOTTracker)
             (out : list TrackedDetection),
         Kalman.runLoop earlierFrames t0 = (Normal earlier, this) ->
         Kalman.step detections this = (Normal out, this') ->
         Forall (output_id_ok this this' earlier) out
         /\ table_ok this'
         /\ (Tracker.nextTrackId this <= Tracker.nextTrackId this')%Z).
Proof.
  intros Hnew. pose proof (constructor_table_ok _ _ Hnew) as Hok0. split.
  - destruct (plain_runLoop_ok earlierFrames t0 Hok0) as (Hok & _ & Hbelow).
    destruct (plain_step_ids detections _ Hok) as (Hok' & Hle & Hout & _).
    cbv zeta. split; [|split; assumption].
    apply output_id_ok_intro; assumption.
  - intros earlier this this' out Hrun Hstep.
    destruct (kalman_runLoop_ok _ _ _ _ Hok0 Hrun) as (Hok & _ & Hbelow).
    destruct (kalman_step_ids _ _ _ _ Hok Hstep) as (Hok' & Hle & Hout & _).
    split; [|split; assumption].
    apply output_id_ok_intro; assumption.
Qed.

(** ** Pruning horizon ([Plain]) *)

Lemma deleteOldTracks_elem_of (this : AB3DMOTTracker) (track : Track) :
  track ∈ Tracker.tracks (deleteOldTracks this)
  <-> (Track.timeSinceUpdate track <= Tracker.maxAge this)%Z
      /\ track ∈ Tracker.tracks this.
Proof.
  unfold deleteOldTracks, Tracker.with_tracks; cbn [Tracker.tracks].
  now rewrite list_elem_of_filter.
Qed.

Lemma plain_updateLoop_lookup (detections : list Detection) (assignments : list Z)
    (tracks : list Track) (k : nat) :
  (forall a : Z, a ∈ assignments -> a ≠ (-1)%Z -> Z.to_nat a ≠ k) ->
  Plain.updateLoop detections assignments tracks !! k = tracks !! k.
Proof.
  revert assignments tracks.
  induction detections as [|d ds IH]; intros [|a asg] tracks Hk;
    cbn [Plain.updateLoop]; try reflexivity.
  rewrite IH by (intros a' Ha'; apply Hk; now right).
  destruct (a =? -1)%Z eqn:Ea; cbn [negb]; [reflexivity|].
  apply list_lookup_alter_ne, Hk; [now left|].
  apply Z.eqb_neq, Ea.
Qed.

Lemma plain_step_config (detections : list Detection) (this : AB3DMOTTracker) :
  Tracker.maxAge (snd (Plain.step detections this)) = Tracker.maxAge this.
Proof.
  unfold Plain.step, Plain.createNewTracks.
  destruct (Plain.createLoop _ _ _ _ _ _) as [[? ?] ?]. reflexivity.
Qed.

Lemma plain_runLoop_config (frames : list (list Detection)) (this : AB3DMOTTracker) :
  Tracker.maxAge (snd (Plain.runLoop frames this)) = Tracker.maxAge this.
Proof.
  revert this. induction frames as [|d frames IH]; intros this; cbn [Plain.runLoop];
    [reflexivity|].
  pose proof (plain_step_config d this) as H1.
  destruct (Plain.step d this) as [out this1]. cbn [snd] in H1.
  specialize (IH this1). destruct (Plain.runLoop frames this1) as [outs this2].
  cbn [snd] in *. congruence.
Qed.

(** The table after a frame of [Plain.step]: the updated tracks followed by
    the spawned ones, filtered by [deleteOldTracks]. *)
Lemma plain_step_table (detections : list Detection) (this : AB3DMOTTracker) :
  let predicted := Plain.predictTracks this in
  let assignments := associateDetections predicted detections in
  let updated := Plain.updateLoop detections assignments (Tracker.tracks predicted) in
  exists spawned : list Track,
    Forall fresh_track spawned
    /\ track_ids spawned = id_range (Tracker.nextTrackId this) (length spawned)
    /\ Tracker.nextTrackId (snd (Plain.step detections this))
       = (Tracker.nextTrackId this + Z.of_nat (length spawned))%Z
    /\ Tracker.tracks (snd (Plain.step detections this))
       = filter (fun track => (Track.timeSinceUpdate track <= Tracker.maxAge this)%Z)
                (updated ++ spawned).
Proof.
  cbv zeta. unfold Plain.step, Plain.createNewTracks, Plain.updateTracks.
  match goal with
  | |- context [Plain.createLoop ?ds ?asg 0 ?tr ?n ∅] =>
      destruct (plain_createLoop_spec ds asg 0 tr n ∅)
        as (spawned & newMap & E & Hfresh & Hids & _)
  end.
  rewrite E. exists spawned. cbn. auto.
Qed.

Lemma plain_step_unmatched (detections : list Detection) (this : AB3DMOTTracker)
    (id m : Z) :
  table_ok this ->
  has_track this id m ->
  id ∉ matched_ids this detections ->
  let this' := snd (Plain.step detections this) in
  ((m + 1 <= Tracker.maxAge this)%Z -> has_track this' id (m + 1))
  /\ ((Tracker.maxAge this < m + 1)%Z -> absent this' id).
Proof.
  intros [Hnd Hlt] (track & Hin & Hid & Htsu) Hun. cbv zeta.
  unfold has_track, absent.
  destruct (plain_step_table detections this)
    as (spawned & Hfresh & Hids & _ & ->).
  apply list_elem_of_lookup in Hin as [k Hk].
  set (predicted := Plain.predictTracks this) in *.
  set (assignments := associateDetections predicted detections) in *.
  set (updated := Plain.updateLoop detections assignments (Tracker.tracks predicted)).
  set (track' := Track.mk (Track.id track) (Track.bbox track) (Track.velocity track)
                          (Track.age track + 1)%Z (Track.hits track)
                          (Track.timeSinceUpdate track + 1)%Z
                          (Track.kalmanFilter track)).
  assert (Hpk : Tracker.tracks predicted !! k = Some track').
  { unfold predicted, Plain.predictTracks; cbn.
    change (map ?f ?l) with (f <$> l). rewrite list_lookup_fmap, Hk. reflexivity. }
  assert (Huk : updated !! k = Some track').
  { unfold updated. rewrite plain_updateLoop_lookup; [exact Hpk|].
    intros a Ha Hne Hak. apply Hun. unfold matched_ids. cbv zeta.
    apply list_elem_of_omap. exists a. split; [exact Ha|].
    fold predicted. apply Z.eqb_neq in Hne. rewrite Hne, Hak, Hpk. cbn.
    now rewrite Hid. }
  assert (Hupd_ids : track_ids updated = track_ids (Tracker.tracks this)).
  { unfold updated. rewrite plain_updateLoop_ids. apply plain_predictTracks_ids. }
  split.
  - intros Hle. exists track'. split; [|split; [exact Hid | cbn; lia]].
    apply list_elem_of_filter. split; [cbn; lia|].
    apply elem_of_app. left. apply list_elem_of_lookup. eauto.
  - intros Hgt Hin. unfold track_ids in Hin.
    apply list_elem_of_fmap in Hin as (t & Ht & Hin).
    apply list_elem_of_filter in Hin as [Hkeep Hin].
    apply elem_of_app in Hin as [Hin | Hin].
    + apply list_elem_of_lookup in Hin as [k' Hk'].
      assert (k' = k) as ->.
      { rewrite <- Hupd_ids in Hnd.
        eapply NoDup_lookup; [exact Hnd | |].
        - unfold track_ids. rewrite list_lookup_fmap, Hk'. cbn. now rewrite <- Ht.
        - unfold track_ids. rewrite list_lookup_fmap, Huk. cbn. now rewrite Hid. }
      rewrite Huk in Hk'. injection Hk' as <-. cbn in Hkeep. lia.
    + assert (Hr : id ∈ id_range (Tracker.nextTrackId this) (length spawned)).
      { rewrite <- Hids. unfold track_ids. apply list_elem_of_fmap. eauto. }
      apply elem_of_id_range in Hr.
      rewrite Forall_forall in Hlt.
      assert (id < Tracker.nextTrackId this)%Z; [|lia].
      apply Hlt. unfold track_ids. apply list_elem_of_fmap.
      exists track. split; [now rewrite Hid|]. apply list_elem_of_lookup. eauto.
Qed.

Lemma plain_step_absent (detections : list Detection) (this : AB3DMOTTracker)
    (id : Z) :
  table_ok this -> (id < Tracker.nextTrackId this)%Z -> absent this id ->
  absent (snd (Plain.step detections this)) id.
Proof.
  intros Hok Hlt Habs Hin.
  destruct (plain_step_ids detections this Hok) as (_ & _ & _ & Htab).
  destruct (Htab id Hin) as [Hold | Hnew]; [contradiction | lia].
Qed.

Lemma plain_runLoop_absent (frames : list (list Detection)) (this : AB3DMOTTracker)
    (id : Z) :
  table_ok this -> (id < Tracker.nextTrackId this)%Z -> absent this id ->
  absent (snd (Plain.runLoop frames this)) id.
Proof.
  revert this. induction frames as [|d frames IH]; intros this Hok Hlt Habs;
    cbn [Plain.runLoop]; [exact Habs|].
  pose proof (plain_step_absent d this id Hok Hlt Habs) as Habs1.
  destruct (plain_step_ids d this Hok) as (Hok1 & Hle1 & _).
  destruct (Plain.step d this) as [out this1]. cbn [snd] in *.
  specialize (IH this1 Hok1 ltac:(lia) Habs1).
  destruct (Plain.runLoop frames this1) as [outs this2]. exact IH.
Qed.

Lemma has_track_below (this : AB3DMOTTracker) (id m : Z) :
  table_ok this -> has_track this id m -> (id < Tracker.nextTrackId this)%Z.
Proof.
  intros [_ Hlt] (track & Hin & Hid & _). rewrite Forall_forall in Hlt.
  apply Hlt. unfold track_ids. apply list_elem_of_fmap. eauto.
Qed.

Lemma plain_runLoop_unmatched (frames : list (list Detection))
    (this : AB3DMOTTracker) (id m : Z) :
  table_ok this ->
  has_track this id m ->
  (m <= Tracker.maxAge this)%Z ->
  never_matched id frames this ->
  let this' := snd (Plain.runLoop frames this) in
  let n := Z.of_nat (length frames) in
  ((m + n <= Tracker.maxAge this)%Z -> has_track this' id (m + n))
  /\ ((Tracker.maxAge this < m + n)%Z -> absent this' id).
Proof.
  revert this m.
  induction frames as [|d frames IH]; intros this m Hok Hhas Hm Hnever;
    cbv zeta; cbn [Plain.runLoop length].
  - cbn [snd]. rewrite Z.add_0_r. split; [intros _; exact Hhas | lia].
  - destruct Hnever as [Hun Hnever].
    destruct (plain_step_unmatched d this id m Hok Hhas Hun) as [Hkeep Hdrop].
    destruct (plain_step_ids d this Hok) as (Hok1 & Hle1 & _).
    pose proof (plain_step_config d this) as Hcfg.
    pose proof (has_track_below this id m Hok Hhas) as Hbelow.
    destruct (Plain.step d this) as [out this1]. cbn [snd] in *.
    destruct (Z_le_gt_dec (m + 1) (Tracker.maxAge this)) as [Hle | Hgt].
    + specialize (IH this1 (m + 1)%Z Hok1 (Hkeep Hle) ltac:(lia) Hnever).
      cbv zeta in IH. rewrite Hcfg in IH.
      destruct (Plain.runLoop frames this1) as [outs this2]. cbn [snd] in *.
      replace (m + Z.of_nat (S (length frames)))%Z
        with (m + 1 + Z.of_nat (length frames))%Z by lia.
      exact IH.
    + pose proof (plain_runLoop_absent frames this1 id Hok1 ltac:(lia)
                    (Hdrop ltac:(lia))) as Habs.
      destruct (Plain.runLoop frames this1) as [outs this2]. cbn [snd] in *.
      split; [lia | intros _; exact Habs].
Qed.

(** C6: [deleteOldTracks] removes a track exactly when its
    [timeSinceUpdate] exceeds [maxAge].  Consequently, for [maxAge >= 0], a
    track created in a frame (its id is minted there) and matched in none of
    the [n] frames that follow is in the table, with [timeSinceUpdate = n],
    as long as [n <= maxAge], and is absent once [n > maxAge]. *)
Theorem C6_pruning_horizon :
  (forall (this : AB3DMOTTracker) (track : Track),
      track ∈ Tracker.tracks this ->
      (track ∉ Tracker.tracks (deleteOldTracks this)
       <-> (Tracker.maxAge this < Track.timeSinceUpdate track)%Z))
  /\ (forall (prev : AB3DMOTTracker) (detections : list Detection) (id : Z)
             (frames : list (list Detection)),
         let this := snd (Plain.step detections prev) in
         let this' := snd (Plain.runLoop frames this) in
         let n := Z.of_nat (length frames) in
         table_ok prev ->
         (0 <= Tracker.maxAge prev)%Z ->
         (Tracker.nextTrackId prev <= id < Tracker.nextTrackId this)%Z ->
         never_matched id frames this ->
         ((n <= Tracker.maxAge prev)%Z -> has_track this' id n)
         /\ ((Tracker.maxAge prev < n)%Z -> absent this' id)).
Proof.
  split.
  - intros this track Hin. rewrite deleteOldTracks_elem_of. split.
    + intros Hnot. destruct (Z_le_gt_dec (Track.timeSinceUpdate track)
                                         (Tracker.maxAge this)); [|lia].
      exfalso. auto.
    + intros Hgt [Hle _]. lia.
  - intros prev detections id frames this this' n Hok Hage Hid Hnever.
    destruct (plain_step_ids detections prev Hok) as (Hok1 & _).
    pose proof (plain_step_config detections prev) as Hcfg.
    assert (Hhas : has_track this id 0).
    { unfold has_track, this.
      destruct (plain_step_table detections prev)
        as (spawned & Hfresh & Hids & Hnext & ->).
      fold this in Hid. unfold this in Hid. rewrite Hnext in Hid.
      apply elem_of_id_range in Hid. rewrite <- Hids in Hid.
      apply list_elem_of_fmap in Hid as (track & -> & Hin).
      rewrite Forall_forall in Hfresh. destruct (Hfresh track Hin) as (_ & _ & Htsu).
      exists track. split; [|split; [reflexivity | exact Htsu]].
      apply list_elem_of_filter. split; [lia|].
      apply elem_of_app. now right. }
    pose proof (plain_runLoop_unmatched frames this id 0 Hok1 Hhas) as Hrun.
    fold this in Hcfg. rewrite Hcfg in Hrun.
    specialize (Hrun Hage Hnever). cbv zeta in Hrun.
    rewrite !Z.add_0_l in Hrun. exact Hrun.
Qed.

(** C7: [update] runs the frame pipeline of [step] (predict, associate,
    update matched tracks, spawn, prune), leaves the tracker in the state
    [step] leaves it in, and returns the tracks of that state whose [hits]
    are at least [minHits], in table order. *)
Theorem C7_update_same_pipeline (detections : list Detection)
    (this : AB3DMOTTracker) :
  snd (Plain.update detections this) = frame_pipeline detections this
  /\ snd (Plain.step detections this) = frame_pipeline detections this
  /\ fst (Plain.update detections this)
     = filter (fun track => (Tracker.minHits this <= Track.hits track)%Z)
              (Tracker.tracks (snd (Plain.step detections this))).
Proof.
  unfold Plain.update, Plain.step, frame_pipeline, Plain.createNewTracks.
  destruct (Plain.createLoop _ _ _ _ _ _) as [[tracks' next'] newMap].
  repeat split.
Qed.

(** ** Counting the unmatched detections *)

Lemma unmatched_before_cons_unmatched (assignments : list Z) (k : nat) :
  unmatched_before ((-1)%Z :: assignments) (S k) = S (unmatched_before assignments k).
Proof. unfold unmatched_before. cbn [take]. now rewrite filter_cons_True. Qed.

Lemma unmatched_before_cons_matched (a : Z) (assignments : list Z) (k : nat) :
  a ≠ (-1)%Z ->
  unmatched_before (a :: assignments) (S k) = unmatched_before assignments k.
Proof. intros Ha. unfold unmatched_before. cbn [take]. now rewrite filter_cons_False. Qed.

Lemma associateDetections_length (this : AB3DMOTTracker) (detections : list Detection) :
  length (associateDetections this detections) = length detections.
Proof.
  unfold associateDetections.
  destruct (associateLoop_spec (Tracker.iouThreshold this) (Tracker.tracks this)
                               detections ∅) as [HF _].
  symmetry. eapply Forall2_length, HF.
Qed.

Lemma plain_createLoop_next (detections : list Detection) (assignments : list Z)
    (i : nat) (tracks : list Track) (n : Z) (newMap : gmap nat Z) :
  length detections = length assignments ->
  snd (fst (Plain.createLoop detections assignments i tracks n newMap))
  = (n + Z.of_nat (unmatched_before assignments (length assignments)))%Z.
Proof.
  revert assignments i tracks n newMap.
  induction detections as [|d ds IH]; intros [|a asg] i tracks n newMap Hlen;
    try discriminate; cbn [Plain.createLoop length].
  - cbn. lia.
  - injection Hlen as Hlen. destruct (a =? -1)%Z eqn:Ea.
    + apply Z.eqb_eq in Ea as ->. cbv zeta. rewrite IH by exact Hlen.
      rewrite unmatched_before_cons_unmatched. lia.
    + apply Z.eqb_neq in Ea. rewrite IH by exact Hlen.
      now rewrite unmatched_before_cons_matched.
Qed.

Lemma kalman_createLoop_next (detections : list Detection) (assignments : list Z)
    (i : nat) (tracks tracks' : list Track) (n : Z) (newMap : gmap nat Z) :
  snd (fst (Kalman.createLoop detections assignments i tracks n newMap))
  = snd (fst (Plain.createLoop detections assignments i tracks' n newMap)).
Proof.
  revert assignments i tracks tracks' n newMap.
  induction detections as [|d ds IH]; intros [|a asg] i tracks tracks' n newMap;
    cbn [Kalman.createLoop Plain.createLoop]; try reflexivity.
  destruct (a =? -1)%Z; apply IH.
Qed.

(** ** Order of pruning and spawning *)

Lemma filter_fresh (maxAge : Z) (spawned : list Track) :
  (0 <= maxAge)%Z -> Forall fresh_track spawned ->
  filter (fun track => (Track.timeSinceUpdate track <= maxAge)%Z) spawned = spawned.
Proof.
  intros Hage. induction 1 as [|track spawned (_ & _ & Htsu) _ IH]; [reflexivity|].
  rewrite filter_cons_True by lia. now rewrite IH.
Qed.

(** C3, as stated, fails for [index.ts]: with [maxAge = -1] the track that
    [step] (and [update]) creates for the only detection of the first frame
    is pruned in that same frame; the output still carries its id. *)
Lemma C3_spawn_then_prune_counterexample :
  let this := Tracker.mk [] 1 (-1) 3 (3 # 10) [] in
  map TrackedDetection.trackId (fst (Plain.step [detection_at 0] this)) = [1%Z]
  /\ Tracker.tracks (snd (Plain.step [detection_at 0] this)) = []
  /\ Tracker.tracks (snd (Plain.update [detection_at 0] this)) = [].
Proof. vm_compute. repeat split. Qed.

Lemma filter_fresh_none (maxAge : Z) (spawned : list Track) :
  (maxAge < 0)%Z -> Forall fresh_track spawned ->
  filter (fun track => (Track.timeSinceUpdate track <= maxAge)%Z) spawned = [].
Proof.
  intros Hage. induction 1 as [|track spawned (_ & _ & Htsu) _ IH]; [reflexivity|].
  rewrite filter_cons_False by lia. exact IH.
Qed.

(** C3, amended: [step] of the tracker with the estimator prunes before it
    spawns: the table after a frame is the pruned table of updated tracks
    followed by one new track for every unmatched detection of the frame,
    whatever [maxAge] is, so no new track passes through the prune filter of
    its birth frame.  [step] and [update] of [index.ts] spawn first and prune
    afterwards: the new tracks, again one for every unmatched detection,
    pass through the prune filter of their birth frame; all of them survive
    it when [maxAge >= 0], and none of them does when [maxAge < 0]. *)
Theorem C3_prune_spawn_order :
  (forall (detections : list Detection) (this this' : AB3DMOTTracker)
          (out : list TrackedDetection),
      Kalman.step detections this = (Normal out, this') ->
      let predicted := Kalman.predictTracks this in
      let assignments := associateDetections predicted detections in
      exists updated spawned : list Track,
        Kalman.updateLoop detections assignments (Tracker.tracks predicted)
        = (Normal tt, updated)
        /\ Forall fresh_track spawned
        /\ length spawned = unmatched_before assignments (length detections)
        /\ track_ids spawned = id_range (Tracker.nextTrackId this) (length spawned)
        /\ Tracker.tracks this'
           = filter (fun track =>
                       (Track.timeSinceUpdate track <= Tracker.maxAge this)%Z)
                    updated
             ++ spawned)
  /\ (forall (detections : list Detection) (this : AB3DMOTTracker),
         let predicted := Plain.predictTracks this in
         let assignments := associateDetections predicted detections in
         let updated :=
           Plain.updateLoop detections assignments (Tracker.tracks predicted) in
         let prune :=
           filter (fun track =>
                     (Track.timeSinceUpdate track <= Tracker.maxAge this)%Z) in
         exists spawned : list Track,
           Forall fresh_track spawned
           /\ length spawned = unmatched_before assignments (length detections)
           /\ track_ids spawned = id_range (Tracker.nextTrackId this) (length spawned)
           /\ Tracker.tracks (snd (Plain.step detections this))
              = prune (updated ++ spawned)
           /\ Tracker.tracks (snd (Plain.update detections this))
              = prune (updated ++ spawned)
           /\ ((0 <= Tracker.maxAge this)%Z ->
               prune (updated ++ spawned) = prune updated ++ spawned)
           /\ ((Tracker.maxAge this < 0)%Z ->
               prune (updated ++ spawned) = prune updated)).
Proof.
  split.
  - intros detections this this' out.
    unfold Kalman.step, Kalman.updateTracks, Kalman.createNewTracks. cbv zeta.
    set (predicted := Kalman.predictTracks this).
    set (assignments := associateDetections predicted detections).
    pose proof (associateDetections_length predicted detections) as Hlen.
    fold assignments in Hlen.
    destruct (Kalman.updateLoop _ _ _) as [[[]|message] updated]; [|discriminate].
    match goal with
    | |- context [Kalman.createLoop ?ds ?asg 0 ?tr ?n ∅] =>
        destruct (kalman_createLoop_spec ds asg 0 tr n ∅)
          as (spawned & newMap & E & Hfresh & Hids & _);
        pose proof (kalman_createLoop_next ds asg 0 tr tr n ∅) as Hk;
        pose proof (plain_createLoop_next ds asg 0 tr n ∅ (eq_sym Hlen)) as Hp
    end.
    rewrite <- Hk, E in Hp. cbn [fst snd] in Hp.
    rewrite E. intros [= <- <-]. exists updated, spawned.
    split; [reflexivity|]. split; [exact Hfresh|].
    split; [rewrite <- Hlen; lia|]. split; [exact Hids | reflexivity].
  - intros detections this. cbv zeta.
    set (predicted := Plain.predictTracks this).
    set (assignments := associateDetections predicted detections).
    pose proof (associateDetections_length predicted detections) as Hlen.
    fold assignments in Hlen.
    assert (Hstep :
      exists spawned : list Track,
        Forall fresh_track spawned
        /\ length spawned = unmatched_before assignments (length detections)
        /\ track_ids spawned = id_range (Tracker.nextTrackId this) (length spawned)
        /\ Tracker.tracks (snd (Plain.step detections this))
           = filter (fun track =>
                       (Track.timeSinceUpdate track <= Tracker.maxAge this)%Z)
                    (Plain.updateLoop detections assignments (Tracker.tracks predicted)
                     ++ spawned)).
    { unfold Plain.step, Plain.createNewTracks, Plain.updateTracks. cbv zeta.
      fold predicted. fold assignments.
      match goal with
      | |- context [Plain.createLoop ?ds ?asg 0 ?tr ?n ∅] =>
          destruct (plain_createLoop_spec ds asg 0 tr n ∅)
            as (spawned & newMap & E & Hfresh & Hids & _);
          pose proof (plain_createLoop_next ds asg 0 tr n ∅ (eq_sym Hlen)) as Hp
      end.
      rewrite E in Hp. cbn [fst snd] in Hp.
      rewrite E. exists spawned.
      split; [exact Hfresh|]. split; [rewrite <- Hlen; lia|].
      split; [exact Hids | reflexivity]. }
    destruct Hstep as (spawned & Hfresh & Hcount & Hids & E).
    exists spawned. split; [exact Hfresh|]. split; [exact Hcount|].
    split; [exact Hids|]. split; [exact E|]. split; [|split].
    + rewrite <- E.
      unfold Plain.update, Plain.step, Plain.createNewTracks.
      destruct (Plain.createLoop _ _ _ _ _ _) as [[tracks' next'] newMap].
      reflexivity.
    + intros Hage. rewrite filter_app. f_equal. now apply filter_fresh.
    + intros Hage. rewrite filter_app, (filter_fresh_none _ _ Hage Hfresh).
      apply app_nil_r.
Qed.

(** At [maxAge = -1], where the two orders differ: the estimator variant
    keeps the track it creates, [index.ts] prunes it. *)
Lemma C3_prune_spawn_order_witness :
  let this := Tracker.mk [] 1 (-1) 3 (3 # 10) [] in
  let detections := [detection_at 0] in
  (exists updated spawned : list Track,
      Kalman.updateLoop detections
        (associateDetections (Kalman.predictTracks this) detections)
        (Tracker.tracks (Kalman.predictTracks this))
      = (Normal tt, updated)
      /\ Forall fresh_track spawned
      /\ length spawned
         = unmatched_before (associateDetections (Kalman.predictTracks this) detections)
                            (length detections)
      /\ track_ids spawned = id_range (Tracker.nextTrackId this) (length spawned)
      /\ Tracker.tracks (snd (Kalman.step detections this))
         = filter (fun track =>
                     (Track.timeSinceUpdate track <= Tracker.maxAge this)%Z)
                  updated
           ++ spawned)
  /\ unmatched_before (associateDetections (Kalman.predictTracks this) detections)
                      (length detections) = 1%nat
  /\ length (Tracker.tracks (snd (Kalman.step detections this))) = 1%nat
  /\ (Tracker.maxAge this < 0)%Z
  /\ Tracker.tracks (snd (Plain.step detections this))
     = filter (fun track =>
                 (Track.timeSinceUpdate track <= Tracker.maxAge this)%Z)
              (Plain.updateLoop detections
                 (associateDetections (Plain.predictTracks this) detections)
                 (Tracker.tracks (Plain.predictTracks this))).
Proof.
  cbv zeta. destruct C3_prune_spawn_order as [Hkalman Hplain].
  split; [|split; [reflexivity|split; [reflexivity|split; [reflexivity|]]]].
  - destruct (Kalman.step [detection_at 0] (Tracker.mk [] 1 (-1) 3 (3 # 10) []))
      as [[out|message] this'] eqn:E; [|vm_compute in E; discriminate].
    exact (Hkalman [detection_at 0] (Tracker.mk [] 1 (-1) 3 (3 # 10) []) this' out E).
  - destruct (Hplain [detection_at 0] (Tracker.mk [] 1 (-1) 3 (3 # 10) []))
      as (spawned & _ & _ & _ & Hstep & _ & _ & Hage).
    rewrite Hstep. apply Hage. reflexivity.
Defined.

(** ** Construction *)

(** C4, as stated, fails: the constructor accepts a negative [maxAge], a zero
    [minHits] and an [iouThreshold] of 2. *)
Lemma C4_invalid_options_accepted :
  constructor (Some invalid_options)
  = Normal (Tracker.mk [] 1 (-1) 0 2 []).
Proof. reflexivity. Qed.

(** C4, amended: construction never fails, and a supplied [maxAge], [minHits]
    or [iouThreshold] is stored as given, whatever its value; an omitted one
    takes its default (3, 3 and 0.3). *)
Theorem C4_constructor_stores_options (options : option Options.t) :
  exists this : AB3DMOTTracker,
    constructor options = Normal this
    /\ Tracker.maxAge this = nullish (options ≫= Options.maxAge) 3%Z
    /\ Tracker.minHits this = nullish (options ≫= Options.minHits) 3%Z
    /\ Tracker.iouThreshold this = nullish (options ≫= Options.iouThreshold) (3 # 10)
    /\ Tracker.tracks this = []
    /\ Tracker.nextTrackId this = 1%Z.
Proof.
  destruct options as [options|]; eexists; (split; [reflexivity|]); cbn;
    repeat split.
Qed.

(** ** The output loop reads the table after pruning *)

(** C1 fails on the code.  A fresh tracker with the default configuration is
    run on five frames: objects A and B in the first, B alone in the next
    four.  In the fifth frame A is pruned, B (index 1 when it was matched)
    has moved to index 0, and the output loop, which reads
    [tracks[assignedTrackIndex]] after the prune, finds nothing at index 1:
    the frame's only detection is dropped from the output.  Both tracker
    sources behave the same.  With a third object C present in every frame,
    the fifth frame reports the detection of B under the id of C and drops
    the detection of C. *)
Theorem C1_step_drops_matched_detection :
  map (map TrackedDetection.trackId) (fst (Plain.runLoop five_frames initial))
  = [[1; 2]; [2]; [2]; [2]; []]%Z
  /\ (exists outputs : list (list TrackedDetection),
         fst (Kalman.runLoop five_frames initial) = Normal outputs
         /\ map (map TrackedDetection.trackId) outputs
            = [[1; 2]; [2]; [2]; [2]; []]%Z)
  /\ map (map TrackedDetection.trackId) (fst (Plain.runLoop five_frames_ABC initial))
     = [[1; 2; 3]; [2; 3]; [2; 3]; [2; 3]; [3]]%Z
  /\ (exists outputs : list (list TrackedDetection),
         fst (Kalman.runLoop five_frames_ABC initial) = Normal outputs
         /\ map (map TrackedDetection.trackId) outputs
            = [[1; 2; 3]; [2; 3]; [2; 3]; [2; 3]; [3]]%Z).
Proof.
  split; [vm_compute; reflexivity|].
  split; [eexists; split; vm_compute; reflexivity|].
  split; [vm_compute; reflexivity|].
  eexists; split; vm_compute; reflexivity.
Qed.

(** ** The innovation covariance on a run *)































(** ** The theorems at concrete inputs *)

Lemma C5_output_ids_fresh_witness :
  constructor None = Normal initial
  /\ Forall (output_id_ok (snd (Plain.runLoop [frame_AB] initial))
                          (snd (Plain.step frame_B (snd (Plain.runLoop [frame_AB] initial))))
                          (fst (Plain.runLoop [frame_AB] initial)))
            (fst (Plain.step frame_B (snd (Plain.runLoop [frame_AB] initial))))
  /\ Forall (output_id_ok (snd (Kalman.runLoop [frame_AB] initial))
                          (snd (Kalman.step frame_B (snd (Kalman.runLoop [frame_AB] initial))))
                          (returned (fst (Kalman.runLoop [frame_AB] initial)) []))
            (returned (fst (Kalman.step frame_B (snd (Kalman.runLoop [frame_AB] initial)))) []).
Proof.
  destruct (C5_output_ids_fresh None initial [frame_AB] frame_B eq_refl)
    as [Hplain Hkalman].
  split; [reflexivity|]. split; [exact (proj1 Hplain)|].
  refine (proj1 (Hkalman _ _ _ _ _ _)); vm_compute; reflexivity.
Defined.

Lemma C6_pruning_horizon_witness :
  let created := snd (Plain.step frame_AB initial) in
  let track := Track.mk 7 (cube 0 2) (0, 0, 0) 5 1 4 None in
  let this := Tracker.mk [track] 8 3 3 (3 # 10) [] in
  (track ∉ Tracker.tracks (deleteOldTracks this)
   <-> (Tracker.maxAge this < Track.timeSinceUpdate track)%Z)
  /\ table_ok initial
  /\ (0 <= Tracker.maxAge initial)%Z
  /\ (Tracker.nextTrackId initial <= 1 < Tracker.nextTrackId created)%Z
  /\ never_matched 1 [frame_B; frame_B; frame_B] created
  /\ never_matched 1 [frame_B; frame_B; frame_B; frame_B] created
  /\ has_track (snd (Plain.runLoop [frame_B; frame_B; frame_B] created)) 1 3
  /\ absent (snd (Plain.runLoop [frame_B; frame_B; frame_B; frame_B] created)) 1.
Proof.
  cbv zeta. destruct C6_pruning_horizon as [Hprune Hrun].
  assert (Hok : table_ok initial) by (split; constructor).
  assert (Hage : (0 <= Tracker.maxAge initial)%Z) by (vm_compute; discriminate).
  assert (Hid : (Tracker.nextTrackId initial <= 1
                 < Tracker.nextTrackId (snd (Plain.step frame_AB initial)))%Z)
    by (vm_compute; split; [discriminate | reflexivity]).
  assert (H3 : never_matched 1 [frame_B; frame_B; frame_B]
                             (snd (Plain.step frame_AB initial)))
    by (cbn [never_matched]; repeat (split; [compute_done|]); exact I).
  assert (H4 : never_matched 1 [frame_B; frame_B; frame_B; frame_B]
                             (snd (Plain.step frame_AB initial)))
    by (cbn [never_matched]; repeat (split; [compute_done|]); exact I).
  split; [apply Hprune; apply list_elem_of_here|].
  repeat (split; [assumption|]). split.
  - apply (Hrun initial frame_AB 1%Z [frame_B; frame_B; frame_B] Hok Hage Hid H3).
    vm_compute. discriminate.
  - apply (Hrun initial frame_AB 1%Z [frame_B; frame_B; frame_B; frame_B]
                Hok Hage Hid H4).
    vm_compute. reflexivity.
Defined.

(** * Further properties of the code *)

(** * Further properties of the code *)

(** ** The output of a frame *)

Lemma stepOutput_sublist (tracks : list Track) (newTrackMap : gmap nat Z)
    (detections : list Detection) (assignments : list Z) (i : nat) :
  (TrackedDetection.detection <$> stepOutput tracks newTrackMap detections assignments i)
  `sublist_of` detections.
Proof.
  revert assignments i.
  induction detections as [|d ds IH]; intros [|a asg] i; cbn [stepOutput];
    try apply sublist_nil_l.
  assert (Hcreated :
    (TrackedDetection.detection <$>
       match newTrackMap !! i with
       | Some createdId =>
           TrackedDetection.mk d createdId :: stepOutput tracks newTrackMap ds asg (S i)
       | None => stepOutput tracks newTrackMap ds asg (S i)
       end) `sublist_of` d :: ds).
  { destruct (newTrackMap !! i).
    - cbn. apply sublist_skip, IH.
    - apply sublist_cons, IH. }
  destruct (negb (a =? -1)%Z); [|exact Hcreated].
  destruct (tracks !! Z.to_nat a); [|exact Hcreated].
  cbn. apply sublist_skip, IH.
Qed.

(** X1: [step] never invents, repeats or reorders a detection: the detections it
    outputs are a subsequence of the frame, so there are at most as many
    output entries as detections.  This holds for both tracker sources (for
    the one with the estimator, when [step] returns). *)
Theorem step_output_sublist (detections : list Detection) (this : AB3DMOTTracker) :
  (TrackedDetection.detection <$> fst (Plain.step detections this))
  `sublist_of` detections
  /\ (TrackedDetection.detection <$> returned (fst (Kalman.step detections this)) [])
     `sublist_of` detections
  /\ (length (fst (Plain.step detections this)) <= length detections)%nat
  /\ (length (returned (fst (Kalman.step detections this)) []) <= length detections)%nat.
Proof.
  assert (HP : (TrackedDetection.detection <$> fst (Plain.step detections this))
               `sublist_of` detections).
  { unfold Plain.step. destruct (Plain.createNewTracks _ _ _) as [newMap this'].
    apply stepOutput_sublist. }
  assert (HK : (TrackedDetection.detection
                  <$> returned (fst (Kalman.step detections this)) [])
               `sublist_of` detections).
  { unfold Kalman.step.
    destruct (Kalman.updateTracks _ _ _) as [[[]|message] this1];
      [|apply sublist_nil_l].
    destruct (Kalman.createNewTracks _ _ _) as [newMap this']. cbn [fst returned].
    apply stepOutput_sublist. }
  split; [exact HP|]. split; [exact HK|]. split.
  - apply sublist_length in HP. now rewrite length_fmap in HP.
  - apply sublist_length in HK. now rewrite length_fmap in HK.
Qed.

(** What [createNewTracks] records in its map: the id of the track spawned
    for each unmatched detection, and nothing else. *)
Lemma plain_createLoop_map (detections : list Detection) (assignments : list Z)
    (i : nat) (tracks : list Track) (n : Z) (newMap : gmap nat Z) :
  length detections = length assignments ->
  (forall (k : nat) (a : Z),
      assignments !! k = Some a ->
      snd (Plain.createLoop detections assignments i tracks n newMap) !! (i + k)%nat
      = if (a =? -1)%Z then Some (n + Z.of_nat (unmatched_before assignments k))%Z
        else newMap !! (i + k)%nat)
  /\ (forall j : nat,
         (j < i)%nat ->
         snd (Plain.createLoop detections assignments i tracks n newMap) !! j
         = newMap !! j).
Proof.
  revert assignments i tracks n newMap.
  induction detections as [|d ds IH]; intros [|a asg] i tracks n newMap Hlen;
    try discriminate; cbn [Plain.createLoop].
  - split; [intros k a' Hk; discriminate | reflexivity].
  - injection Hlen as Hlen.
    destruct (a =? -1)%Z eqn:Ea.
    + apply Z.eqb_eq in Ea as ->. cbv zeta.
      match goal with
      | |- context [Plain.createLoop ds asg (S i) ?tr ?n' ?m'] =>
          destruct (IH asg (S i) tr n' m' Hlen) as [Hin Hout]
      end.
      split.
      * intros [|k] a' Hk; cbn in Hk.
        -- injection Hk as <-. rewrite Nat.add_0_r, Hout by lia.
           rewrite lookup_insert_eq. cbn. f_equal. unfold unmatched_before. cbn. lia.
        -- replace (i + S k)%nat with (S i + k)%nat by lia.
           rewrite (Hin k a' Hk). destruct (a' =? -1)%Z.
           ++ rewrite unmatched_before_cons_unmatched. f_equal. lia.
           ++ rewrite lookup_insert_ne by lia. reflexivity.
      * intros j Hj. rewrite Hout by lia. rewrite lookup_insert_ne by lia. reflexivity.
    + apply Z.eqb_neq in Ea.
      destruct (IH asg (S i) tracks n newMap Hlen) as [Hin Hout].
      split.
      * intros [|k] a' Hk; cbn in Hk.
        -- injection Hk as <-. rewrite Nat.add_0_r, Hout by lia.
           apply Z.eqb_neq in Ea. now rewrite Ea.
        -- replace (i + S k)%nat with (S i + k)%nat by lia.
           rewrite (Hin k a' Hk). destruct (a' =? -1)%Z; [|reflexivity].
           now rewrite unmatched_before_cons_matched.
      * intros j Hj. apply Hout. lia.
Qed.

(** The map and the next id do not depend on which source spawns. *)
Lemma kalman_createLoop_map (detections : list Detection) (assignments : list Z)
    (i : nat) (tracks tracks' : list Track) (n : Z) (newMap : gmap nat Z) :
  snd (Kalman.createLoop detections assignments i tracks n newMap)
  = snd (Plain.createLoop detections assignments i tracks' n newMap).
Proof.
  revert assignments i tracks tracks' n newMap.
  induction detections as [|d ds IH]; intros [|a asg] i tracks tracks' n newMap;
    cbn [Kalman.createLoop Plain.createLoop]; try reflexivity.
  destruct (a =? -1)%Z; apply IH.
Qed.

(** The output loop on a table in which every assigned index is found and a
    map which holds every unmatched detection. *)
Lemma stepOutput_complete (tracks : list Track) (newTrackMap : gmap nat Z)
    (detections : list Detection) (assignments : list Z) (i : nat) :
  length detections = length assignments ->
  (forall (k : nat) (a : Z),
      assignments !! k = Some a ->
      if (a =? -1)%Z then is_Some (newTrackMap !! (i + k)%nat)
      else is_Some (tracks !! Z.to_nat a)) ->
  let out := stepOutput tracks newTrackMap detections assignments i in
  TrackedDetection.detection <$> out = detections
  /\ forall (k : nat) (o : TrackedDetection) (a : Z),
       out !! k = Some o -> assignments !! k = Some a ->
       if (a =? -1)%Z then newTrackMap !! (i + k)%nat = Some (TrackedDetection.trackId o)
       else Track.id <$> (tracks !! Z.to_nat a) = Some (TrackedDetection.trackId o).
Proof.
  revert assignments i.
  induction detections as [|d ds IH]; intros [|a asg] i Hlen Hfound;
    try discriminate; cbv zeta; cbn [stepOutput].
  - split; [reflexivity | intros k o a Hk; discriminate].
  - injection Hlen as Hlen.
    assert (Hfound' : forall (k : nat) (a' : Z),
               asg !! k = Some a' ->
               if (a' =? -1)%Z then is_Some (newTrackMap !! (S i + k)%nat)
               else is_Some (tracks !! Z.to_nat a')).
    { intros k a' Hk. specialize (Hfound (S k) a' Hk).
      now replace (i + S k)%nat with (S i + k)%nat in Hfound by lia. }
    destruct (IH asg (S i) Hlen Hfound') as [Hdets Hids].
    pose proof (Hfound 0%nat a eq_refl) as H0. rewrite Nat.add_0_r in H0.
    destruct (a =? -1)%Z eqn:Ea; cbn [negb].
    + destruct H0 as [createdId Hc]. rewrite Hc. cbn. split; [now rewrite Hdets|].
      intros [|k] o a' Ho Ha; cbn in Ho, Ha.
      * injection Ho as <-. injection Ha as <-. rewrite Ea, Nat.add_0_r. exact Hc.
      * replace (i + S k)%nat with (S i + k)%nat by lia. exact (Hids k o a' Ho Ha).
    + destruct H0 as [track Ht]. rewrite Ht. cbn. split; [now rewrite Hdets|].
      intros [|k] o a' Ho Ha; cbn in Ho, Ha.
      * injection Ho as <-. injection Ha as <-. rewrite Ea, Ht. reflexivity.
      * replace (i + S k)%nat with (S i + k)%nat by lia. exact (Hids k o a' Ho Ha).
Qed.

Lemma filter_all {A : Type} (P : A -> Prop) `{forall a, Decision (P a)} (l : list A) :
  Forall P l -> filter P l = l.
Proof.
  induction 1 as [|a l Ha _ IH]; [reflexivity|].
  rewrite filter_cons_True by exact Ha. now rewrite IH.
Qed.

Lemma plain_updateLoop_Forall (P : Track -> Prop) (detections : list Detection)
    (assignments : list Z) (tracks : list Track) :
  (forall (track : Track) (bbox : BoundingBox3D),
      P track ->
      P (Track.mk (Track.id track) bbox (Track.velocity track) (Track.age track)
                  (Track.hits track + 1)%Z 0%Z (Track.kalmanFilter track))) ->
  Forall P tracks ->
  Forall P (Plain.updateLoop detections assignments tracks).
Proof.
  intros Hstep. revert assignments tracks.
  induction detections as [|d ds IH]; intros [|a asg] tracks HP;
    cbn [Plain.updateLoop]; try exact HP.
  apply IH. destruct (negb (a =? -1)%Z); [|exact HP].
  apply Forall_alter; [exact HP|]. intros track _. apply Hstep.
Qed.

Lemma kalman_updateLoop_Forall (P : Track -> Prop) (detections : list Detection)
    (assignments : list Z) (tracks : list Track) :
  (forall (track : Track) (bbox : BoundingBox3D) (kf : option KalmanFilter3D.t),
      P track ->
      P (Track.mk (Track.id track) bbox (Track.velocity track) (Track.age track)
                  (Track.hits track + 1)%Z 0%Z kf)) ->
  Forall P tracks ->
  Forall P (snd (Kalman.updateLoop detections assignments tracks)).
Proof.
  intros Hstep. revert assignments tracks.
  induction detections as [|d ds IH]; intros [|a asg] tracks HP;
    cbn [Kalman.updateLoop]; try exact HP.
  destruct (negb (a =? -1)%Z); [|now apply IH].
  destruct (tracks !! Z.to_nat a) as [track|] eqn:Et; [|now apply IH].
  assert (Hins : forall kf,
             Forall P (<[Z.to_nat a :=
                         Track.mk (Track.id track) (Detection.bbox d)
                                  (Track.velocity track) (Track.age track)
                                  (Track.hits track + 1)%Z 0%Z kf]> tracks)).
  { intros kf. apply Forall_insert; [exact HP|]. apply Hstep.
    rewrite Forall_forall in HP. apply HP. apply list_elem_of_lookup. eauto. }
  cbv zeta. destruct (Track.kalmanFilter track) as [kf|].
  - destruct (KalmanFilter3D.update _ kf); [apply IH|]; apply Hins.
  - apply IH, Hins.
Qed.

Lemma track_ids_lookup (tracks tracks' : list Track) (k : nat) :
  track_ids tracks = track_ids tracks' ->
  Track.id <$> (tracks !! k) = Track.id <$> (tracks' !! k).
Proof.
  unfold track_ids. intros H. now rewrite <- !list_lookup_fmap, H.
Qed.

(** Where the output loop finds what it looks for: a table that still holds
    the updated tracks at their indices, followed by anything. *)
Lemma frame_output_complete (this : AB3DMOTTracker) (detections : list Detection)
    (assignments : list Z) (updated rest : list Track) (newTrackMap : gmap nat Z)
    (n : Z) :
  length assignments = length detections ->
  (forall a : Z, a ∈ assignments ->
                 a = (-1)%Z \/ (0 <= a < Z.of_nat (length updated))%Z) ->
  track_ids updated = track_ids (Tracker.tracks this) ->
  (forall (k : nat) (a : Z),
      assignments !! k = Some a ->
      newTrackMap !! k
      = if (a =? -1)%Z then Some (n + Z.of_nat (unmatched_before assignments k))%Z
        else None) ->
  let out := stepOutput (updated ++ rest) newTrackMap detections assignments 0 in
  TrackedDetection.detection <$> out = detections
  /\ forall (i : nat) (o : TrackedDetection) (a : Z),
       out !! i = Some o -> assignments !! i = Some a ->
       (a ≠ (-1)%Z ->
        Track.id <$> (Tracker.tracks this !! Z.to_nat a)
        = Some (TrackedDetection.trackId o))
       /\ (a = (-1)%Z ->
           TrackedDetection.trackId o
           = (n + Z.of_nat (unmatched_before assignments i))%Z).
Proof.
  intros Hlen Hrange Hids Hmap.
  assert (Hlook : forall a : Z, a ∈ assignments -> a ≠ (-1)%Z ->
            (updated ++ rest) !! Z.to_nat a = updated !! Z.to_nat a
            /\ is_Some (updated !! Z.to_nat a)).
  { intros a Ha Hne. destruct (Hrange a Ha) as [-> | Hr]; [contradiction|].
    split; [apply lookup_app_l; lia | apply lookup_lt_is_Some; lia]. }
  destruct (stepOutput_complete (updated ++ rest) newTrackMap detections assignments 0)
    as [Hdets Hout].
  - now symmetry.
  - intros k a Hk. cbn [Nat.add].
    destruct (a =? -1)%Z eqn:Ea.
    + rewrite (Hmap k a Hk), Ea. eauto.
    + apply Z.eqb_neq in Ea.
      destruct (Hlook a) as [-> Hsome]; [apply list_elem_of_lookup; eauto | exact Ea|].
      exact Hsome.
  - cbv zeta. split; [exact Hdets|].
    intros i o a Ho Ha. specialize (Hout i o a Ho Ha). cbn [Nat.add] in Hout.
    destruct (a =? -1)%Z eqn:Ea.
    + apply Z.eqb_eq in Ea as ->. split; [intros H; now contradiction H|].
      intros _. rewrite (Hmap i _ Ha) in Hout. cbn in Hout. now injection Hout as <-.
    + apply Z.eqb_neq in Ea. split; [|intros H; contradiction].
      intros _.
      destruct (Hlook a) as [Heq _]; [apply list_elem_of_lookup; eauto | exact Ea|].
      rewrite Heq in Hout. rewrite <- Hout. symmetry. now apply track_ids_lookup.
Qed.

(** X2: in a frame in which nothing is pruned, [step] does what its output loop
    is written for: one entry per detection, in order; a matched detection
    carries the id of the track (of the table before the frame) at its
    assigned index, and the [k]-th unmatched detection carries
    [nextTrackId + k].  Nothing is pruned when [maxAge >= 0] and every track
    enters the frame with [timeSinceUpdate < maxAge]. *)
Theorem step_output_complete (detections : list Detection) (this : AB3DMOTTracker) :
  (0 <= Tracker.maxAge this)%Z ->
  Forall (fun track => (Track.timeSinceUpdate track < Tracker.maxAge this)%Z)
         (Tracker.tracks this) ->
  let expected (assignments : list Z) (out : list TrackedDetection) :=
    TrackedDetection.detection <$> out = detections
    /\ forall (i : nat) (o : TrackedDetection) (a : Z),
         out !! i = Some o -> assignments !! i = Some a ->
         (a ≠ (-1)%Z ->
          Track.id <$> (Tracker.tracks this !! Z.to_nat a)
          = Some (TrackedDetection.trackId o))
         /\ (a = (-1)%Z ->
             TrackedDetection.trackId o
             = (Tracker.nextTrackId this
                + Z.of_nat (unmatched_before assignments i))%Z) in
  expected (associateDetections (Plain.predictTracks this) detections)
           (fst (Plain.step detections this))
  /\ forall (out : list TrackedDetection) (this' : AB3DMOTTracker),
       Kalman.step detections this = (Normal out, this') ->
       expected (associateDetections (Kalman.predictTracks this) detections) out.
Proof.
  intros Hage Hyoung. cbv zeta. split.
  - unfold Plain.step, Plain.createNewTracks, Plain.updateTracks.
    set (predicted := Plain.predictTracks this).
    set (assignments := associateDetections predicted detections).
    set (updated := Plain.updateLoop detections assignments (Tracker.tracks predicted)).
    pose proof (associateDetections_length predicted detections) as Hlen.
    fold assignments in Hlen.
    destruct (plain_createLoop_spec detections assignments 0 updated
                (Tracker.nextTrackId predicted) ∅)
      as (spawned & newMap & E & _ & _ & _).
    pose proof (plain_createLoop_map detections assignments 0 updated
                  (Tracker.nextTrackId predicted) ∅ (eq_sym Hlen)) as [Hmap _].
    cbn [Tracker.tracks Tracker.with_tracks Tracker.nextTrackId] in *.
    rewrite E in Hmap |- *. cbn [fst snd deleteOldTracks Tracker.tracks
                                 Tracker.with_tracks Tracker.maxAge] in *.
    assert (HU : Forall (fun track =>
                           (Track.timeSinceUpdate track <= Tracker.maxAge this)%Z)
                        updated).
    { apply plain_updateLoop_Forall; [intros; cbn; exact Hage|].
      unfold predicted, Plain.predictTracks; cbn.
      change (map ?f ?l) with (f <$> l). apply Forall_fmap.
      eapply Forall_impl; [exact Hyoung|]. intros track. cbn. lia. }
    rewrite filter_app, (filter_all _ updated HU).
    apply (frame_output_complete this detections assignments updated).
    + exact Hlen.
    + intros a Ha. unfold updated. rewrite plain_updateLoop_length.
      apply (associateDetections_in_range predicted detections a Ha).
    + unfold updated. rewrite plain_updateLoop_ids. apply plain_predictTracks_ids.
    + intros k a Hk. specialize (Hmap k a Hk). cbn [Nat.add] in Hmap.
      rewrite Hmap. destruct (a =? -1)%Z; [reflexivity | apply lookup_empty].
  - intros out this'.
    unfold Kalman.step, Kalman.createNewTracks, Kalman.updateTracks.
    set (predicted := Kalman.predictTracks this).
    set (assignments := associateDetections predicted detections).
    pose proof (associateDetections_length predicted detections) as Hlen.
    fold assignments in Hlen.
    pose proof (kalman_updateLoop_ids detections assignments (Tracker.tracks predicted))
      as Hids.
    pose proof (kalman_updateLoop_length detections assignments (Tracker.tracks predicted))
      as Hlength.
    pose proof (kalman_updateLoop_Forall
                  (fun track => (Track.timeSinceUpdate track <= Tracker.maxAge this)%Z)
                  detections assignments (Tracker.tracks predicted)) as HU.
    destruct (Kalman.updateLoop detections assignments (Tracker.tracks predicted))
      as [[[]|message] updated]; [|discriminate].
    cbn [snd] in Hids, Hlength, HU.
    cbn [deleteOldTracks Tracker.tracks Tracker.with_tracks Tracker.maxAge
         Tracker.nextTrackId].
    rewrite (filter_all _ updated).
    2:{ apply HU; [intros; cbn; exact Hage|].
        unfold predicted, Kalman.predictTracks; cbn.
        change (map ?f ?l) with (f <$> l). apply Forall_fmap.
        eapply Forall_impl; [exact Hyoung|]. intros track. cbn.
        destruct (Track.kalmanFilter track); cbn; lia. }
    destruct (kalman_createLoop_spec detections assignments 0 updated
                (Tracker.nextTrackId predicted) ∅)
      as (spawned & newMap & E & _ & _ & _).
    pose proof (plain_createLoop_map detections assignments 0 updated
                  (Tracker.nextTrackId predicted) ∅ (eq_sym Hlen)) as [Hmap _].
    rewrite <- (kalman_createLoop_map _ _ _ updated) in Hmap.
    rewrite E in Hmap |- *. cbn [fst snd] in *. intros [= <- _].
    apply (frame_output_complete this detections assignments updated).
    + exact Hlen.
    + intros a Ha. rewrite Hlength.
      apply (associateDetections_in_range predicted detections a Ha).
    + rewrite Hids. apply kalman_predictTracks_ids.
    + intros k a Hk. specialize (Hmap k a Hk). cbn [Nat.add] in Hmap.
      rewrite Hmap. destruct (a =? -1)%Z; [reflexivity | apply lookup_empty].
Qed.

(** ** Edge frames *)

Lemma associateLoop_no_tracks (iouThreshold : Q) (usedTracks : gset Z)
    (detections : list Detection) :
  associateLoop iouThreshold [] usedTracks detections
  = replicate (length detections) (-1)%Z.
Proof.
  induction detections as [|d ds IH]; [reflexivity|].
  cbn [associateLoop bestTrack length replicate].
  change (negb (-1 =? -1)%Z) with false. cbn [andb]. now rewrite IH.
Qed.

Lemma unmatched_before_repeat (n k : nat) :
  (k <= n)%nat -> unmatched_before (replicate n (-1)%Z) k = k.
Proof.
  unfold unmatched_before. intros Hk.
  rewrite take_replicate, filter_all, length_replicate
    by (apply Forall_replicate; reflexivity).
  lia.
Qed.

Lemma kalman_updateLoop_unmatched (detections : list Detection) (n : nat)
    (tracks : list Track) :
  Kalman.updateLoop detections (replicate n (-1)%Z) tracks = (Normal tt, tracks).
Proof.
  revert n. induction detections as [|d ds IH]; intros [|n]; try reflexivity.
  cbn [replicate Kalman.updateLoop]. change (negb (-1 =? -1)%Z) with false. apply IH.
Qed.

Lemma plain_updateLoop_unmatched (detections : list Detection) (n : nat)
    (tracks : list Track) :
  Plain.updateLoop detections (replicate n (-1)%Z) tracks = tracks.
Proof.
  revert n. induction detections as [|d ds IH]; intros [|n]; try reflexivity.
  cbn [replicate Plain.updateLoop]. change (negb (-1 =? -1)%Z) with false. apply IH.
Qed.

(** The output of a frame in which no detection is matched. *)
Lemma stepOutput_all_spawned (table : list Track) (detections : list Detection)
    (n : Z) (newTrackMap : gmap nat Z) :
  (forall (k : nat) (a : Z),
      replicate (length detections) (-1)%Z !! k = Some a ->
      newTrackMap !! k
      = Some (n + Z.of_nat (unmatched_before (replicate (length detections) (-1)%Z) k))%Z) ->
  let out := stepOutput table newTrackMap detections
                        (replicate (length detections) (-1)%Z) 0 in
  TrackedDetection.detection <$> out = detections
  /\ TrackedDetection.trackId <$> out = id_range n (length detections).
Proof.
  intros Hmap.
  destruct (stepOutput_complete table newTrackMap detections
              (replicate (length detections) (-1)%Z) 0) as [Hdets Hout].
  - now rewrite length_replicate.
  - intros k a Hk. cbn [Nat.add]. rewrite (Hmap k a Hk).
    apply lookup_replicate in Hk as [-> _]. cbn. eauto.
  - cbv zeta. split; [exact Hdets|].
    set (out := stepOutput table newTrackMap detections
                           (replicate (length detections) (-1)%Z) 0) in *.
    assert (Hlen : length out = length detections).
    { rewrite <- (length_fmap TrackedDetection.detection out). now rewrite Hdets. }
    apply list_eq. intros k. unfold id_range. rewrite !list_lookup_fmap.
    destruct (out !! k) as [o|] eqn:Ho.
    + assert (Hk : (k < length detections)%nat).
      { rewrite <- Hlen. eapply lookup_lt_Some, Ho. }
      assert (Ha : replicate (length detections) (-1)%Z !! k = Some (-1)%Z)
        by (apply lookup_replicate; auto).
      specialize (Hout k o _ Ho Ha). cbn [Nat.add] in Hout.
      rewrite (Hmap k _ Ha) in Hout. change (-1 =? -1)%Z with true in Hout.
      rewrite lookup_seq_lt by exact Hk. cbn. injection Hout as <-.
      rewrite unmatched_before_repeat by lia. reflexivity.
    + apply lookup_ge_None in Ho. rewrite Hlen in Ho.
      rewrite lookup_seq_ge by exact Ho. reflexivity.
Qed.

(** X3: two edge frames, for both tracker sources.  A frame without detections
    returns no output, mints no id and leaves in the table the predicted
    tracks that pass the prune filter.  A frame on an empty table matches
    nothing: every detection is output, in order, under the ids
    [nextTrackId, nextTrackId + 1, ...], whatever [maxAge] is, and the
    estimator variant does not throw. *)
Theorem step_edge_frames (this : AB3DMOTTracker) (detections : list Detection) :
  Plain.step [] this = ([], deleteOldTracks (Plain.predictTracks this))
  /\ Kalman.step [] this = (Normal [], deleteOldTracks (Kalman.predictTracks this))
  /\ (Tracker.tracks this = [] ->
      (TrackedDetection.detection <$> fst (Plain.step detections this) = detections
       /\ TrackedDetection.trackId <$> fst (Plain.step detections this)
          = id_range (Tracker.nextTrackId this) (length detections))
      /\ exists out : list TrackedDetection,
           fst (Kalman.step detections this) = Normal out
           /\ TrackedDetection.detection <$> out = detections
           /\ TrackedDetection.trackId <$> out
              = id_range (Tracker.nextTrackId this) (length detections)).
Proof.
  split; [destruct this; reflexivity|]. split; [destruct this; reflexivity|].
  intros Hempty.
  assert (Hmap : forall (tracks : list Track) (k : nat) (a : Z),
            replicate (length detections) (-1)%Z !! k = Some a ->
            snd (Plain.createLoop detections (replicate (length detections) (-1)%Z) 0
                                  tracks (Tracker.nextTrackId this) ∅) !! k
            = Some (Tracker.nextTrackId this
                    + Z.of_nat (unmatched_before
                                  (replicate (length detections) (-1)%Z) k))%Z).
  { intros tracks k a Hk.
    destruct (plain_createLoop_map detections (replicate (length detections) (-1)%Z) 0
                tracks (Tracker.nextTrackId this) ∅) as [Hin _];
      [now rewrite length_replicate|].
    specialize (Hin k a Hk). cbn [Nat.add] in Hin. rewrite Hin.
    apply lookup_replicate in Hk as [-> _]. reflexivity. }
  split.
  - unfold Plain.step, Plain.createNewTracks, Plain.updateTracks, associateDetections,
      Plain.predictTracks.
    rewrite Hempty. cbn [map Tracker.tracks Tracker.with_tracks Tracker.iouThreshold
                         Tracker.nextTrackId].
    rewrite associateLoop_no_tracks, plain_updateLoop_unmatched.
    destruct (Plain.createLoop detections (replicate (length detections) (-1)%Z) 0 []
                (Tracker.nextTrackId this) ∅) as [[tracks' next'] newMap] eqn:E.
    cbn [fst snd]. apply stepOutput_all_spawned.
    intros k a Hk. specialize (Hmap [] k a Hk). now rewrite E in Hmap.
  - unfold Kalman.step, Kalman.createNewTracks, Kalman.updateTracks, associateDetections,
      Kalman.predictTracks.
    rewrite Hempty. cbn [map Tracker.tracks Tracker.with_tracks Tracker.iouThreshold
                         Tracker.nextTrackId].
    rewrite associateLoop_no_tracks, kalman_updateLoop_unmatched.
    cbn [deleteOldTracks Tracker.tracks Tracker.with_tracks Tracker.nextTrackId].
    rewrite filter_nil.
    destruct (Kalman.createLoop detections (replicate (length detections) (-1)%Z) 0 []
                (Tracker.nextTrackId this) ∅) as [[tracks' next'] newMap] eqn:E.
    cbn [fst snd]. eexists. split; [reflexivity|].
    apply stepOutput_all_spawned.
    intros k a Hk. specialize (Hmap [] k a Hk).
    rewrite <- (kalman_createLoop_map _ _ _ []), E in Hmap. exact Hmap.
Qed.

(** ** What a frame does to the tracks of the table *)

Lemma plain_updateLoop_matched (detections : list Detection) (assignments : list Z)
    (tracks : list Track) (i k : nat) (detection : Detection) (track : Track) :
  NoDup (filter (fun a => a ≠ (-1)%Z) assignments) ->
  (forall a : Z, a ∈ assignments -> a = (-1)%Z \/ (0 <= a)%Z) ->
  detections !! i = Some detection ->
  assignments !! i = Some (Z.of_nat k) ->
  tracks !! k = Some track ->
  Plain.updateLoop detections assignments tracks !! k
  = Some (Track.mk (Track.id track) (Detection.bbox detection) (Track.velocity track)
                   (Track.age track) (Track.hits track + 1)%Z 0%Z
                   (Track.kalmanFilter track)).
Proof.
  revert assignments tracks i.
  induction detections as [|d ds IH]; intros [|a asg] tracks i Hnd Hrange Hd Ha Ht;
    try discriminate.
  cbn [Plain.updateLoop].
  assert (Hrange' : forall a' : Z, a' ∈ asg -> a' = (-1)%Z \/ (0 <= a')%Z)
    by (intros a' Ha'; apply Hrange; now right).
  destruct i as [|i]; cbn in Hd, Ha.
  - injection Hd as ->. injection Ha as ->.
    rewrite filter_cons_True in Hnd by lia. apply NoDup_cons in Hnd as [Hnotin _].
    replace (negb (Z.of_nat k =? -1)%Z) with true
      by (symmetry; apply negb_true_iff, Z.eqb_neq; lia).
    rewrite plain_updateLoop_lookup.
    + rewrite Nat2Z.id, list_lookup_alter_eq, Ht. reflexivity.
    + intros a' Ha' Hne Hk. apply Hnotin.
      destruct (Hrange' a' Ha') as [-> | Hge]; [contradiction|].
      replace (Z.of_nat k) with a' by lia.
      apply list_elem_of_filter. split; [exact Hne | exact Ha'].
  - assert (Hnd' : NoDup (filter (fun a => a ≠ (-1)%Z) asg)).
    { destruct (decide (a ≠ (-1)%Z)) as [Hne | Heq].
      - rewrite filter_cons_True in Hnd by exact Hne. now apply NoDup_cons in Hnd as [_ ?].
      - now rewrite filter_cons_False in Hnd by exact Heq. }
    destruct (a =? -1)%Z eqn:Ea; cbn [negb].
    + eapply IH; eauto.
    + apply Z.eqb_neq in Ea.
      eapply IH; eauto.
      rewrite list_lookup_alter_ne; [exact Ht|].
      intros Hk. rewrite filter_cons_True in Hnd by exact Ea.
      apply NoDup_cons in Hnd as [Hnotin _]. apply Hnotin.
      destruct (Hrange a) as [-> | Hge]; [now left | contradiction|].
      replace a with (Z.of_nat k) by lia.
      apply list_elem_of_filter. split; [lia|].
      apply list_elem_of_lookup. eauto.
Qed.

Lemma associateDetections_NoDup (this : AB3DMOTTracker) (detections : list Detection) :
  NoDup (filter (fun a => a ≠ (-1)%Z) (associateDetections this detections)).
Proof. unfold associateDetections. apply associateLoop_spec. Qed.

(** The predict and update phases of a frame of [index.ts], seen from one
    track of the table. *)
Lemma plain_frame_tracks (detections : list Detection) (this : AB3DMOTTracker)
    (k : nat) (track : Track) :
  Tracker.tracks this !! k = Some track ->
  let predicted := Plain.predictTracks this in
  let assignments := associateDetections predicted detections in
  let updated := Tracker.tracks (Plain.updateTracks detections assignments predicted) in
  (Z.of_nat k ∉ assignments ->
   updated !! k
   = Some (Track.mk (Track.id track) (Track.bbox track) (Track.velocity track)
                    (Track.age track + 1)%Z (Track.hits track)
                    (Track.timeSinceUpdate track + 1)%Z (Track.kalmanFilter track)))
  /\ (forall (i : nat) (detection : Detection),
         detections !! i = Some detection ->
         assignments !! i = Some (Z.of_nat k) ->
         updated !! k
         = Some (Track.mk (Track.id track) (Detection.bbox detection)
                          (Track.velocity track) (Track.age track + 1)%Z
                          (Track.hits track + 1)%Z 0%Z (Track.kalmanFilter track))).
Proof.
  intros Hk. cbv zeta.
  set (predicted := Plain.predictTracks this).
  set (assignments := associateDetections predicted detections).
  assert (Hpk : Tracker.tracks predicted !! k
                = Some (Track.mk (Track.id track) (Track.bbox track)
                                 (Track.velocity track) (Track.age track + 1)%Z
                                 (Track.hits track) (Track.timeSinceUpdate track + 1)%Z
                                 (Track.kalmanFilter track))).
  { unfold predicted, Plain.predictTracks; cbn.
    change (map ?f ?l) with (f <$> l). rewrite list_lookup_fmap, Hk. reflexivity. }
  assert (Hrange : forall a : Z, a ∈ assignments -> a = (-1)%Z \/ (0 <= a)%Z).
  { intros a Ha.
    destruct (associateDetections_in_range predicted detections a Ha); [now left|].
    right. lia. }
  unfold Plain.updateTracks; cbn [Tracker.tracks Tracker.with_tracks]. split.
  - intros Hnot. rewrite plain_updateLoop_lookup; [exact Hpk|].
    intros a Ha Hne Hak. apply Hnot.
    destruct (Hrange a Ha) as [-> | Hge]; [contradiction|].
    replace (Z.of_nat k) with a by lia. exact Ha.
  - intros i detection Hd Ha.
    rewrite (plain_updateLoop_matched detections assignments _ i k detection _
               (associateDetections_NoDup predicted detections) Hrange Hd Ha Hpk).
    reflexivity.
Qed.

(** X4: the predict and update phases of a frame of [index.ts], track by track.
    Every track of the table ages by one.  A track whose index the
    association did not assign keeps its box and hits and has
    [timeSinceUpdate] increased by one; a track assigned to a detection takes
    the box of that detection, gains exactly one hit and has
    [timeSinceUpdate] reset to 0.  Id and velocity never change. *)
Theorem plain_frame_effect (detections : list Detection) (this : AB3DMOTTracker)
    (k : nat) (track : Track) :
  Tracker.tracks this !! k = Some track ->
  let predicted := Plain.predictTracks this in
  let assignments := associateDetections predicted detections in
  let updated := Tracker.tracks (Plain.updateTracks detections assignments predicted) in
  (Z.of_nat k ∉ assignments ->
   updated !! k
   = Some (Track.mk (Track.id track) (Track.bbox track) (Track.velocity track)
                    (Track.age track + 1)%Z (Track.hits track)
                    (Track.timeSinceUpdate track + 1)%Z (Track.kalmanFilter track)))
  /\ (forall (i : nat) (detection : Detection),
         detections !! i = Some detection ->
         assignments !! i = Some (Z.of_nat k) ->
         updated !! k
         = Some (Track.mk (Track.id track) (Detection.bbox detection)
                          (Track.velocity track) (Track.age track + 1)%Z
                          (Track.hits track + 1)%Z 0%Z (Track.kalmanFilter track))).
Proof.
  exact (plain_frame_tracks detections this k track).
Qed.

(** ** Ids minted and configuration kept *)

(** X5: a frame changes [tracks] and [nextTrackId] only.  [nextTrackId] grows by
    exactly the number of detections the association left unmatched, whether
    or not tracks are pruned; [maxAge], [minHits], [iouThreshold] and the
    stored frames are never written, by [step] or by [update], nor by a
    [step] of the estimator variant that throws. *)
Theorem step_minted_and_config (detections : list Detection) (this : AB3DMOTTracker) :
  let same_config (this' : AB3DMOTTracker) :=
    Tracker.maxAge this' = Tracker.maxAge this
    /\ Tracker.minHits this' = Tracker.minHits this
    /\ Tracker.iouThreshold this' = Tracker.iouThreshold this
    /\ Tracker.frames this' = Tracker.frames this in
  let minted (assignments : list Z) (this' : AB3DMOTTracker) :=
    Tracker.nextTrackId this'
    = (Tracker.nextTrackId this
       + Z.of_nat (unmatched_before assignments (length detections)))%Z in
  (same_config (snd (Plain.step detections this))
   /\ minted (associateDetections (Plain.predictTracks this) detections)
             (snd (Plain.step detections this)))
  /\ snd (Plain.update detections this) = snd (Plain.step detections this)
  /\ same_config (snd (Kalman.step detections this))
  /\ match fst (Kalman.step detections this) with
     | Normal _ =>
         minted (associateDetections (Kalman.predictTracks this) detections)
                (snd (Kalman.step detections this))
     | Throw _ =>
         Tracker.nextTrackId (snd (Kalman.step detections this))
         = Tracker.nextTrackId this
     end.
Proof.
  cbv zeta. split; [|split; [|split]].
  - unfold Plain.step, Plain.createNewTracks.
    set (predicted := Plain.predictTracks this).
    set (assignments := associateDetections predicted detections).
    pose proof (associateDetections_length predicted detections) as Hlen.
    fold assignments in Hlen.
    pose proof (plain_createLoop_next detections assignments 0
                  (Tracker.tracks (Plain.updateTracks detections assignments predicted))
                  (Tracker.nextTrackId this) ∅ (eq_sym Hlen)) as Hnext.
    cbn [Plain.updateTracks Tracker.nextTrackId Tracker.with_tracks predicted
         Plain.predictTracks] in *.
    destruct (Plain.createLoop _ _ _ _ _ _) as [[tracks' next'] newMap].
    cbn [fst snd] in *. rewrite Hlen in Hnext. repeat split. exact Hnext.
  - unfold Plain.update, Plain.step, Plain.createNewTracks.
    destruct (Plain.createLoop _ _ _ _ _ _) as [[tracks' next'] newMap]. reflexivity.
  - unfold Kalman.step, Kalman.updateTracks, Kalman.createNewTracks.
    destruct (Kalman.updateLoop _ _ _) as [[[]|message] updated]; [|repeat split].
    destruct (Kalman.createLoop _ _ _ _ _ _) as [[tracks' next'] newMap].
    repeat split.
  - unfold Kalman.step, Kalman.updateTracks, Kalman.createNewTracks.
    set (predicted := Kalman.predictTracks this).
    set (assignments := associateDetections predicted detections).
    pose proof (associateDetections_length predicted detections) as Hlen.
    fold assignments in Hlen.
    destruct (Kalman.updateLoop _ _ _) as [[[]|message] updated]; [|reflexivity].
    cbn [deleteOldTracks Tracker.tracks Tracker.with_tracks Tracker.nextTrackId
         Tracker.maxAge predicted Kalman.predictTracks].
    match goal with
    | |- context [Kalman.createLoop detections assignments 0 ?tr ?n ∅] =>
        pose proof (kalman_createLoop_next detections assignments 0 tr [] n ∅) as Hk;
        pose proof (plain_createLoop_next detections assignments 0 [] n ∅
                      (eq_sym Hlen)) as Hnext
    end.
    destruct (Kalman.createLoop _ _ _ _ _ _) as [[tracks' next'] newMap].
    cbn [fst snd Tracker.nextTrackId] in *. rewrite Hk, Hnext, Hlen. reflexivity.
Qed.

(** ** Lifetime counters *)

Lemma Forall_lookup_total {A : Type} (P : A -> Prop) (l : list A) :
  (forall (k : nat) (a : A), l !! k = Some a -> P a) -> Forall P l.
Proof. intros H. apply Forall_lookup. exact H. Qed.

Lemma Forall_filter_keep {A : Type} (P Q : A -> Prop) `{forall a, Decision (Q a)}
    (l : list A) :
  Forall P l -> Forall P (filter Q l).
Proof.
  rewrite !Forall_forall. intros HP a Ha.
  apply list_elem_of_filter in Ha as [_ Ha]. auto.
Qed.

Lemma plain_step_counters (detections : list Detection) (this : AB3DMOTTracker) :
  Forall counters_ok (Tracker.tracks this) ->
  Forall counters_ok (Tracker.tracks (snd (Plain.step detections this)))
  /\ Forall (fun track => (Track.timeSinceUpdate track <= Tracker.maxAge this)%Z)
            (Tracker.tracks (snd (Plain.step detections this))).
Proof.
  intros Hok.
  destruct (plain_step_table detections this) as (spawned & Hfresh & _ & _ & ->).
  set (predicted := Plain.predictTracks this).
  set (assignments := associateDetections predicted detections).
  set (updated := Plain.updateLoop detections assignments (Tracker.tracks predicted)).
  split; [|apply Forall_forall; intros track Hin;
           now apply list_elem_of_filter in Hin as [? _]].
  apply Forall_filter_keep, Forall_app. split.
  - apply Forall_lookup_total. intros k track' Hk'.
    assert (Hlt : (k < length (Tracker.tracks this))%nat).
    { apply lookup_lt_Some in Hk'. unfold updated in Hk'.
      rewrite plain_updateLoop_length in Hk'.
      unfold predicted, Plain.predictTracks in Hk'; cbn in Hk'.
      now rewrite length_map in Hk'. }
    destruct (lookup_lt_is_Some_2 _ _ Hlt) as [track Hk].
    rewrite Forall_forall in Hok.
    destruct (Hok track) as (Hhits & Htsu & Hage);
      [apply list_elem_of_lookup; eauto|].
    destruct (plain_frame_tracks detections this k track Hk) as [Hmiss Hhit].
    cbv zeta in Hmiss, Hhit. fold predicted assignments in Hmiss, Hhit.
    unfold Plain.updateTracks in Hmiss, Hhit.
    cbn [Tracker.tracks Tracker.with_tracks] in Hmiss, Hhit.
    fold updated in Hmiss, Hhit.
    destruct (decide (Z.of_nat k ∈ assignments)) as [Hin | Hnot].
    + apply list_elem_of_lookup in Hin as [i Hi].
      assert (Hd : is_Some (detections !! i)).
      { apply lookup_lt_is_Some.
        rewrite <- (associateDetections_length predicted detections).
        eapply lookup_lt_Some, Hi. }
      destruct Hd as [detection Hd].
      rewrite (Hhit i detection Hd Hi) in Hk'. injection Hk' as <-.
      unfold counters_ok; cbn. lia.
    + rewrite (Hmiss Hnot) in Hk'. injection Hk' as <-.
      unfold counters_ok; cbn. lia.
  - eapply Forall_impl; [exact Hfresh|].
    intros track (Hage & Hhits & Htsu). unfold counters_ok. lia.
Qed.

Lemma plain_runLoop_counters (options : option Options.t) (t0 : AB3DMOTTracker)
    (frames : list (list Detection)) :
  constructor options = Normal t0 ->
  Forall (fun track =>
            counters_ok track
            /\ (Track.timeSinceUpdate track <= Tracker.maxAge t0)%Z)
         (Tracker.tracks (snd (Plain.runLoop frames t0))).
Proof.
  intros Hnew.
  assert (H0 : Forall (fun track =>
                         counters_ok track
                         /\ (Track.timeSinceUpdate track <= Tracker.maxAge t0)%Z)
                      (Tracker.tracks t0)).
  { destruct options; injection Hnew as <-; constructor. }
  clear Hnew. revert H0. generalize (eq_refl (Tracker.maxAge t0)).
  generalize (Tracker.maxAge t0) at 1 3 4 as maxAge.
  intros maxAge. revert t0.
  induction frames as [|detections frames IH]; intros this Hage H0;
    cbn [Plain.runLoop]; [exact H0|].
  assert (Hok : Forall counters_ok (Tracker.tracks this))
    by (eapply Forall_impl; [exact H0|]; now intros track [? _]).
  destruct (plain_step_counters detections this Hok) as [Hok1 Hage1].
  pose proof (plain_step_config detections this) as Hcfg.
  destruct (Plain.step detections this) as [out this1]. cbn [snd] in *.
  specialize (IH this1 ltac:(congruence)).
  destruct (Plain.runLoop frames this1) as [outs this2]. cbn [snd] in *.
  apply IH. apply Forall_and. split; [exact Hok1|].
  eapply Forall_impl; [exact Hage1|]. intros track. cbn. lia.
Qed.

(** X6: in every state a run of [index.ts] reaches from a freshly constructed
    tracker, every track of the table has [hits >= 1],
    [timeSinceUpdate >= 0], [hits + timeSinceUpdate <= age] (a track is
    matched at most once per frame) and [timeSinceUpdate <= maxAge]. *)
Theorem plain_run_counters (options : option Options.t) (t0 : AB3DMOTTracker)
    (frames : list (list Detection)) :
  constructor options = Normal t0 ->
  Forall (fun track =>
            counters_ok track
            /\ (Track.timeSinceUpdate track <= Tracker.maxAge t0)%Z)
         (Tracker.tracks (snd (Plain.runLoop frames t0))).
Proof.
  exact (plain_runLoop_counters options t0 frames).
Qed.

(** ** Batch mode *)

Lemma plain_runLoop_app (frames1 frames2 : list (list Detection))
    (this : AB3DMOTTracker) :
  Plain.runLoop (frames1 ++ frames2) this
  = (fst (Plain.runLoop frames1 this)
     ++ fst (Plain.runLoop frames2 (snd (Plain.runLoop frames1 this))),
     snd (Plain.runLoop frames2 (snd (Plain.runLoop frames1 this)))).
Proof.
  revert this. induction frames1 as [|d frames1 IH]; intros this; cbn [app Plain.runLoop].
  - cbn. now destruct (Plain.runLoop frames2 this).
  - destruct (Plain.step d this) as [out this1]. rewrite IH.
    destruct (Plain.runLoop frames1 this1) as [outs1 this2]. cbn [fst snd].
    destruct (Plain.runLoop frames2 this2) as [outs2 this3]. reflexivity.
Qed.

Lemma kalman_runLoop_app (frames1 frames2 : list (list Detection))
    (this : AB3DMOTTracker) :
  Kalman.runLoop (frames1 ++ frames2) this
  = match Kalman.runLoop frames1 this with
    | (Throw message, this1) => (Throw message, this1)
    | (Normal outputs1, this1) =>
        match Kalman.runLoop frames2 this1 with
        | (Throw message, this2) => (Throw message, this2)
        | (Normal outputs2, this2) => (Normal (outputs1 ++ outputs2), this2)
        end
    end.
Proof.
  revert this. induction frames1 as [|d frames1 IH]; intros this; cbn [app Kalman.runLoop].
  - now destruct (Kalman.runLoop frames2 this) as [[outs|message] this2].
  - destruct (Kalman.step d this) as [[out|message] this1]; [|reflexivity].
    rewrite IH.
    destruct (Kalman.runLoop frames1 this1) as [[outs1|message] this2]; [|reflexivity].
    destruct (Kalman.runLoop frames2 this2) as [[outs2|message] this3]; reflexivity.
Qed.

Lemma plain_step_setData (frames : list (list Detection))
    (detections : list Detection) (this : AB3DMOTTracker) :
  Plain.step detections (setData frames this)
  = (fst (Plain.step detections this), setData frames (snd (Plain.step detections this))).
Proof.
  unfold Plain.step, Plain.createNewTracks. cbn.
  destruct (Plain.createLoop _ _ _ _ _ _) as [[tracks' next'] newMap]. reflexivity.
Qed.

Lemma plain_runLoop_setData (stored frames : list (list Detection))
    (this : AB3DMOTTracker) :
  fst (Plain.runLoop frames (setData stored this)) = fst (Plain.runLoop frames this).
Proof.
  revert this. induction frames as [|d frames IH]; intros this; cbn [Plain.runLoop];
    [reflexivity|].
  rewrite plain_step_setData.
  destruct (Plain.step d this) as [out this1]. cbn [fst snd].
  specialize (IH this1).
  destruct (Plain.runLoop frames (setData stored this1)) as [outs2 this2].
  destruct (Plain.runLoop frames this1) as [outs2' this2']. cbn in *. now rewrite IH.
Qed.

Lemma plain_runLoop_length (frames : list (list Detection)) (this : AB3DMOTTracker) :
  length (fst (Plain.runLoop frames this)) = length frames.
Proof.
  revert this. induction frames as [|d fs IH]; intros this; cbn [Plain.runLoop];
    [reflexivity|].
  destruct (Plain.step d this) as [out this1]. specialize (IH this1).
  destruct (Plain.runLoop fs this1). cbn in *. now rewrite IH.
Qed.

Lemma kalman_runLoop_length (frames : list (list Detection)) (this this' : AB3DMOTTracker)
    (outputs : list (list TrackedDetection)) :
  Kalman.runLoop frames this = (Normal outputs, this') ->
  length outputs = length frames.
Proof.
  revert this outputs. induction frames as [|d fs IH]; intros this outputs;
    cbn [Kalman.runLoop].
  - now intros [= <- _].
  - destruct (Kalman.step d this) as [[out|message] this1]; [|discriminate].
    specialize (IH this1).
    destruct (Kalman.runLoop fs this1) as [[outs|message'] this2]; [|discriminate].
    intros [= <- <-]. cbn. f_equal. now apply IH.
Qed.

(** X7: batch mode is [step] applied frame after frame: running a sequence of
    frames equals running a prefix and then the rest from the state the
    prefix left, and there is one output list per frame.  In the estimator
    variant a frame that throws ends the run with that error, the later
    frames are not processed and no outputs are returned; when no frame
    throws, the tracker state and the track ids of the outputs compose in
    the same way. *)
Theorem run_is_iterated_step (frames1 frames2 : list (list Detection))
    (this : AB3DMOTTracker) :
  Plain.runLoop (frames1 ++ frames2) this
  = (fst (Plain.runLoop frames1 this)
     ++ fst (Plain.runLoop frames2 (snd (Plain.runLoop frames1 this))),
     snd (Plain.runLoop frames2 (snd (Plain.runLoop frames1 this))))
  /\ length (fst (Plain.runLoop frames1 this)) = length frames1
  /\ match Kalman.runLoop frames1 this with
     | (Throw message, this1) =>
         Kalman.runLoop (frames1 ++ frames2) this = (Throw message, this1)
     | (Normal outputs1, this1) =>
         length outputs1 = length frames1
         /\ snd (Kalman.runLoop (frames1 ++ frames2) this)
            = snd (Kalman.runLoop frames2 this1)
         /\ match fst (Kalman.runLoop frames2 this1) with
            | Throw message =>
                fst (Kalman.runLoop (frames1 ++ frames2) this) = Throw message
            | Normal outputs2 =>
                exists outputs : list (list TrackedDetection),
                  fst (Kalman.runLoop (frames1 ++ frames2) this) = Normal outputs
                  /\ map (map TrackedDetection.trackId) outputs
                     = map (map TrackedDetection.trackId) (outputs1 ++ outputs2)
            end
     end.
Proof.
  split; [apply plain_runLoop_app|]. split; [apply plain_runLoop_length|].
  rewrite kalman_runLoop_app.
  destruct (Kalman.runLoop frames1 this) as [[outputs1|message] this1] eqn:E1;
    [|reflexivity].
  split; [eapply kalman_runLoop_length, E1|].
  destruct (Kalman.runLoop frames2 this1) as [[outputs2|message] this2];
    cbn [fst snd]; (split; [reflexivity|]); [|reflexivity].
  exists (outputs1 ++ outputs2). now split.
Qed.

(** X8: [trackBatch] of [index.ts] never fails, returns one output list per
    frame, and is causal: the outputs for a prefix of the frames are the
    same whether or not further frames follow. *)
Theorem trackBatch_causal (frames1 frames2 : list (list Detection))
    (options : option Options.t) :
  exists outputs1 outputs2 : list (list TrackedDetection),
    trackBatch frames1 options = Normal outputs1
    /\ trackBatch (frames1 ++ frames2) options = Normal (outputs1 ++ outputs2)
    /\ length outputs1 = length frames1
    /\ length outputs2 = length frames2.
Proof.
  unfold trackBatch, Plain.run.
  set (t := fun frames => Tracker.mk [] 1
              (nullish (Options.maxAge (batchOptions frames options)) 3%Z)
              (nullish (Options.minHits (batchOptions frames options)) 3%Z)
              (nullish (Options.iouThreshold (batchOptions frames options)) (3 # 10))
              frames).
  assert (Hc : forall frames,
             constructor (Some (batchOptions frames options)) = Normal (t frames)).
  { intros frames. destruct options; reflexivity. }
  assert (Ht : forall frames, t frames = setData frames (t [])).
  { intros frames. unfold t, setData. destruct options; reflexivity. }
  rewrite !Hc. cbn [Tracker.frames t].
  exists (fst (Plain.runLoop frames1 (t []))),
         (fst (Plain.runLoop frames2 (snd (Plain.runLoop frames1 (t []))))).
  rewrite (Ht frames1), (Ht (frames1 ++ frames2)), !plain_runLoop_setData.
  rewrite plain_runLoop_app. cbn [fst].
  repeat split; apply plain_runLoop_length.
Qed.

(** ** Confirmation of a track by [update] *)

Lemma plain_step_age (detections : list Detection) (this : AB3DMOTTracker) (n : Z) :
  (0 <= n)%Z ->
  Forall (fun track => (Track.age track <= n)%Z) (Tracker.tracks this) ->
  Forall (fun track => (Track.age track <= n + 1)%Z)
         (Tracker.tracks (snd (Plain.step detections this))).
Proof.
  intros Hn Hok.
  destruct (plain_step_table detections this) as (spawned & Hfresh & _ & _ & ->).
  set (predicted := Plain.predictTracks this).
  set (assignments := associateDetections predicted detections).
  set (updated := Plain.updateLoop detections assignments (Tracker.tracks predicted)).
  apply Forall_filter_keep, Forall_app. split.
  - apply Forall_lookup_total. intros k track' Hk'.
    assert (Hlt : (k < length (Tracker.tracks this))%nat).
    { apply lookup_lt_Some in Hk'. unfold updated in Hk'.
      rewrite plain_updateLoop_length in Hk'.
      unfold predicted, Plain.predictTracks in Hk'; cbn in Hk'.
      now rewrite length_map in Hk'. }
    destruct (lookup_lt_is_Some_2 _ _ Hlt) as [track Hk].
    rewrite Forall_forall in Hok.
    assert (Hage : (Track.age track <= n)%Z)
      by (apply Hok, list_elem_of_lookup; eauto).
    destruct (plain_frame_tracks detections this k track Hk) as [Hmiss Hhit].
    cbv zeta in Hmiss, Hhit. fold predicted assignments in Hmiss, Hhit.
    unfold Plain.updateTracks in Hmiss, Hhit.
    cbn [Tracker.tracks Tracker.with_tracks] in Hmiss, Hhit.
    fold updated in Hmiss, Hhit.
    destruct (decide (Z.of_nat k ∈ assignments)) as [Hin | Hnot].
    + apply list_elem_of_lookup in Hin as [i Hi].
      assert (Hd : is_Some (detections !! i)).
      { apply lookup_lt_is_Some.
        rewrite <- (associateDetections_length predicted detections).
        eapply lookup_lt_Some, Hi. }
      destruct Hd as [detection Hd].
      rewrite (Hhit i detection Hd Hi) in Hk'. injection Hk' as <-. cbn. lia.
    + rewrite (Hmiss Hnot) in Hk'. injection Hk' as <-. cbn. lia.
  - eapply Forall_impl; [exact Hfresh|].
    intros track (Hage & _ & _). lia.
Qed.

Lemma plain_runLoop_age (frames : list (list Detection)) (this : AB3DMOTTracker) (n : Z) :
  (0 <= n)%Z ->
  Forall (fun track => (Track.age track <= n)%Z) (Tracker.tracks this) ->
  Forall (fun track => (Track.age track <= n + Z.of_nat (length frames))%Z)
         (Tracker.tracks (snd (Plain.runLoop frames this))).
Proof.
  revert this n. induction frames as [|detections frames IH]; intros this n Hn Hok;
    cbn [Plain.runLoop length].
  - eapply Forall_impl; [exact Hok|]. intros track. cbn. lia.
  - pose proof (plain_step_age detections this n Hn Hok) as Hstep.
    destruct (Plain.step detections this) as [out this1]. cbn [snd] in Hstep.
    specialize (IH this1 (n + 1)%Z ltac:(lia) Hstep).
    destruct (Plain.runLoop frames this1) as [outs this2]. cbn [snd] in *.
    eapply Forall_impl; [exact IH|]. intros track. cbn. lia.
Qed.

Lemma plain_step_minHits (detections : list Detection) (this : AB3DMOTTracker) :
  Tracker.minHits (snd (Plain.step detections this)) = Tracker.minHits this.
Proof.
  unfold Plain.step, Plain.createNewTracks.
  destruct (Plain.createLoop _ _ _ _ _ _) as [[? ?] ?]. reflexivity.
Qed.

Lemma plain_runLoop_minHits (frames : list (list Detection)) (this : AB3DMOTTracker) :
  Tracker.minHits (snd (Plain.runLoop frames this)) = Tracker.minHits this.
Proof.
  revert this. induction frames as [|detections frames IH]; intros this;
    cbn [Plain.runLoop]; [reflexivity|].
  pose proof (plain_step_minHits detections this) as Hstep.
  destruct (Plain.step detections this) as [out this1]. cbn [snd] in Hstep.
  specialize (IH this1).
  destruct (Plain.runLoop frames this1) as [outs this2]. cbn [snd] in *. congruence.
Qed.

Lemma plain_update_output (detections : list Detection) (this : AB3DMOTTracker) :
  fst (Plain.update detections this)
  = filter (fun track => (Tracker.minHits this <= Track.hits track)%Z)
           (Tracker.tracks (snd (Plain.step detections this))).
Proof.
  unfold Plain.update, Plain.step, Plain.createNewTracks.
  destruct (Plain.createLoop _ _ _ _ _ _) as [[? ?] ?]. reflexivity.
Qed.

(** X9: [update] reports a track only once it is confirmed.  After any number of
    frames from a freshly constructed tracker, every track a further
    [update] returns has at least [minHits] hits, is at least as old (in
    frames) as it has hits, and is no older than the number of frames
    processed; so [update] returns nothing during the first [minHits - 1]
    frames. *)
Theorem update_confirmation_delay (options : option Options.t) (t0 : AB3DMOTTracker)
    (frames : list (list Detection)) (detections : list Detection) :
  constructor options = Normal t0 ->
  let this := snd (Plain.runLoop frames t0) in
  Forall (fun track =>
            (Tracker.minHits t0 <= Track.hits track)%Z
            /\ (Track.hits track <= Track.age track)%Z
            /\ (Track.age track <= Z.of_nat (length frames) + 1)%Z)
         (fst (Plain.update detections this))
  /\ ((Z.of_nat (length frames) + 1 < Tracker.minHits t0)%Z ->
      fst (Plain.update detections this) = []).
Proof.
  intros Hnew this.
  assert (H0 : Tracker.tracks t0 = []).
  { destruct options; injection Hnew as <-; reflexivity. }
  assert (Hage : Forall (fun track =>
                           (Track.age track <= Z.of_nat (length frames) + 1)%Z)
                        (Tracker.tracks (snd (Plain.step detections this)))).
  { apply plain_step_age; [lia|].
    pose proof (plain_runLoop_age frames t0 0 ltac:(lia)) as H.
    rewrite H0 in H. specialize (H (Forall_nil_2 _)).
    eapply Forall_impl; [exact H|]. intros track. cbn. lia. }
  assert (Hok : Forall counters_ok (Tracker.tracks (snd (Plain.step detections this)))).
  { apply plain_step_counters.
    pose proof (plain_runLoop_counters options t0 frames Hnew) as H.
    eapply Forall_impl; [exact H|]. now intros track [? _]. }
  assert (Hall : Forall (fun track =>
                           (Tracker.minHits t0 <= Track.hits track)%Z
                           /\ (Track.hits track <= Track.age track)%Z
                           /\ (Track.age track <= Z.of_nat (length frames) + 1)%Z)
                        (fst (Plain.update detections this))).
  { rewrite plain_update_output.
    apply Forall_forall. intros track Hin.
    apply list_elem_of_filter in Hin as [Hhits Hin].
    unfold this in Hhits. rewrite (plain_runLoop_minHits frames t0) in Hhits.
    rewrite Forall_forall in Hage, Hok.
    destruct (Hok track Hin) as (_ & Htsu & Hsum).
    specialize (Hage track Hin). cbn in Hage. lia. }
  split; [exact Hall|].
  intros Hearly. destruct (fst (Plain.update detections this)) as [|track rest];
    [reflexivity|].
  apply Forall_cons_iff in Hall as [(H1 & H2 & H3) _]. lia.
Qed.

(** ** Association, continued: the greedy choice *)

Lemma bestTrack_max (usedTracks : gset Z) (bbox : BoundingBox3D)
    (tracks : list Track) (t : nat) (best : Z * Q) :
  snd best <= snd (bestTrack usedTracks bbox tracks t best)
  /\ forall (k : nat) (track : Track),
       tracks !! k = Some track ->
       Z.of_nat (t + k) ∉ usedTracks ->
       calculate3DIoU bbox (Track.bbox track)
       <= snd (bestTrack usedTracks bbox tracks t best).
Proof.
  revert t best. induction tracks as [|track rest IH]; intros t best;
    cbn [bestTrack].
  - split; [apply Qle_refl | intros k tr Hk; discriminate].
  - case_bool_decide as Hused.
    + destruct (IH (S t) best) as [Hbest Hmax]. split; [exact Hbest|].
      intros [|k] tr Hk Hfree; cbn in Hk.
      * rewrite Nat.add_0_r in Hfree. contradiction.
      * apply (Hmax k tr Hk). now rewrite Nat.add_succ_r in Hfree.
    + destruct (Qltb (snd best) (calculate3DIoU bbox (Track.bbox track))) eqn:E.
      * apply Qltb_lt in E.
        destruct (IH (S t) (Z.of_nat t, calculate3DIoU bbox (Track.bbox track)))
          as [Hbest Hmax]. cbn [snd] in Hbest.
        split; [eapply Qle_trans; [apply Qlt_le_weak, E | exact Hbest]|].
        intros [|k] tr Hk Hfree; cbn in Hk.
        -- injection Hk as <-. exact Hbest.
        -- apply (Hmax k tr Hk). now rewrite Nat.add_succ_r in Hfree.
      * apply Qltb_nlt in E.
        destruct (IH (S t) best) as [Hbest Hmax]. split; [exact Hbest|].
        intros [|k] tr Hk Hfree; cbn in Hk.
        -- injection Hk as <-. eapply Qle_trans; [exact E | exact Hbest].
        -- apply (Hmax k tr Hk). now rewrite Nat.add_succ_r in Hfree.
Qed.

Lemma associateLoop_greedy (iouThreshold : Q) (tracks : list Track)
    (detections : list Detection) (usedTracks : gset Z)
    (i k : nat) (detection : Detection) (a : Z) (track : Track) :
  detections !! i = Some detection ->
  associateLoop iouThreshold tracks usedTracks detections !! i = Some a ->
  tracks !! k = Some track ->
  Z.of_nat k ∉ usedTracks ->
  Z.of_nat k ∉ take i (associateLoop iouThreshold tracks usedTracks detections) ->
  (a = (-1)%Z ->
   calculate3DIoU (Detection.bbox detection) (Track.bbox track) < iouThreshold)
  /\ (forall chosen : Track,
         a ≠ (-1)%Z -> tracks !! Z.to_nat a = Some chosen ->
         calculate3DIoU (Detection.bbox detection) (Track.bbox track)
         <= calculate3DIoU (Detection.bbox detection) (Track.bbox chosen)).
Proof.
  revert usedTracks i.
  induction detections as [|d ds IH]; intros usedTracks i Hd Ha Hk Hfree Hearlier;
    [discriminate|].
  cbn [associateLoop] in Ha, Hearlier.
  destruct (bestTrack_max usedTracks (Detection.bbox d) tracks 0 ((-1)%Z, -1))
    as [_ Hmax].
  destruct (bestTrack_spec usedTracks (Detection.bbox d) tracks 0 ((-1)%Z, -1))
    as [E | (kb & chosen & Hkb & _ & E)]; rewrite E in Ha, Hearlier, Hmax;
    cbv beta iota zeta in Ha, Hearlier; cbn [snd] in Hmax.
  - change (negb (-1 =? -1)%Z) with false in Ha, Hearlier. cbn [andb] in Ha, Hearlier.
    destruct i as [|i]; cbn in Hd, Ha, Hearlier.
    + injection Hd as ->. injection Ha as <-.
      pose proof (Hmax k track Hk Hfree) as Hle.
      pose proof (calculate3DIoU_nonneg (Detection.bbox detection) (Track.bbox track)).
      exfalso. lra.
    + apply not_elem_of_cons in Hearlier as [_ Hearlier]. eapply IH; eauto.
  - change (0 + kb)%nat with kb in *.
    destruct (negb (Z.of_nat kb =? -1)%Z
              && Qgeb (calculate3DIoU (Detection.bbox d) (Track.bbox chosen))
                      iouThreshold) eqn:Hif.
    + destruct i as [|i]; cbn in Hd, Ha, Hearlier.
      * injection Hd as ->. injection Ha as <-. split; [lia|].
        intros chosen' _ Hc. rewrite Nat2Z.id, Hkb in Hc. injection Hc as <-.
        exact (Hmax k track Hk Hfree).
      * apply not_elem_of_cons in Hearlier as [Hne Hearlier].
        eapply IH; eauto.
        intros Hin. apply elem_of_union in Hin as [Hin | Hin]; [|contradiction].
        apply elem_of_singleton in Hin. contradiction.
    + destruct i as [|i]; cbn in Hd, Ha, Hearlier.
      * injection Hd as ->. injection Ha as <-. split; [|intros c Hc; contradiction].
        intros _. apply andb_false_iff in Hif as [Hif | Hif].
        -- apply negb_false_iff, Z.eqb_eq in Hif. lia.
        -- unfold Qgeb in Hif.
           assert (Hlt : calculate3DIoU (Detection.bbox detection) (Track.bbox chosen)
                         < iouThreshold).
           { apply Qnot_le_lt. intros Hle. apply Qle_bool_iff in Hle. congruence. }
           eapply Qle_lt_trans; [exact (Hmax k track Hk Hfree) | exact Hlt].
      * apply not_elem_of_cons in Hearlier as [_ Hearlier]. eapply IH; eauto.
Qed.

(** X10: the association is greedy in detection order.  For the [i]-th detection
    and any track that no earlier detection of the frame was assigned: if
    the detection is assigned a track, that track overlaps the detection at
    least as much as this one; if the detection is left unassigned, this
    track overlaps it by less than [iouThreshold].  (Overlap is never
    negative, so with [iouThreshold <= 0] a detection is left unassigned
    only when every track is taken.) *)
Theorem association_greedy (this : AB3DMOTTracker) (detections : list Detection)
    (i k : nat) (detection : Detection) (a : Z) (track : Track) :
  let assignments := associateDetections this detections in
  detections !! i = Some detection ->
  assignments !! i = Some a ->
  Tracker.tracks this !! k = Some track ->
  Z.of_nat k ∉ take i assignments ->
  0 <= calculate3DIoU (Detection.bbox detection) (Track.bbox track)
  /\ (a = (-1)%Z ->
      calculate3DIoU (Detection.bbox detection) (Track.bbox track)
      < Tracker.iouThreshold this)
  /\ (forall chosen : Track,
         a ≠ (-1)%Z -> Tracker.tracks this !! Z.to_nat a = Some chosen ->
         calculate3DIoU (Detection.bbox detection) (Track.bbox track)
         <= calculate3DIoU (Detection.bbox detection) (Track.bbox chosen)).
Proof.
  cbv zeta. unfold associateDetections. intros Hd Ha Hk Hearlier.
  split; [apply calculate3DIoU_nonneg|].
  eapply associateLoop_greedy; eauto. apply not_elem_of_empty.
Qed.

(** ** The estimator variant on tracks without a filter *)

Lemma kalman_updateLoop_no_filter (detections : list Detection) (assignments : list Z)
    (tracks : list Track) :
  Forall (fun track => Track.kalmanFilter track = None) tracks ->
  Kalman.updateLoop detections assignments tracks
  = (Normal tt, Plain.updateLoop detections assignments tracks).
Proof.
  revert assignments tracks.
  induction detections as [|d ds IH]; intros [|a asg] tracks Hnone;
    cbn [Kalman.updateLoop Plain.updateLoop]; try reflexivity.
  destruct (negb (a =? -1)%Z); [|now apply IH].
  destruct (tracks !! Z.to_nat a) as [track|] eqn:Et.
  - assert (Hk : Track.kalmanFilter track = None).
    { rewrite Forall_forall in Hnone. apply Hnone, list_elem_of_lookup. eauto. }
    cbv zeta. rewrite Hk.
    assert (Halter : alter (fun track =>
                              Track.mk (Track.id track) (Detection.bbox d)
                                       (Track.velocity track) (Track.age track)
                                       (Track.hits track + 1)%Z 0%Z
                                       (Track.kalmanFilter track))
                           (Z.to_nat a) tracks
                     = <[Z.to_nat a :=
                           Track.mk (Track.id track) (Detection.bbox d)
                                    (Track.velocity track) (Track.age track)
                                    (Track.hits track + 1)%Z 0%Z None]> tracks).
    { apply list_eq. intros j. destruct (decide (Z.to_nat a = j)) as [<- | Hne].
      - rewrite list_lookup_alter_eq, Et. cbn. rewrite Hk.
        symmetry. apply list_lookup_insert_eq. eapply lookup_lt_Some, Et.
      - now rewrite list_lookup_alter_ne, list_lookup_insert_ne. }
    rewrite Halter. apply IH. apply Forall_insert; [exact Hnone | reflexivity].
  - match goal with
    | |- context [alter ?f (Z.to_nat a) tracks] =>
        replace (alter f (Z.to_nat a) tracks) with tracks; [now apply IH|]
    end.
    apply list_eq. intros j. destruct (decide (Z.to_nat a = j)) as [<- | Hne].
    + now rewrite list_lookup_alter_eq, Et.
    + now rewrite list_lookup_alter_ne.
Qed.

(** X11: [kalmanFilter] is optional on a track, and both [predictTracks] and
    [updateTracks] of the estimator variant guard on it.  On a table none of
    whose tracks carries a filter (such as [index.ts] builds) the predict
    phase and the update phase of a frame do exactly what [index.ts] does,
    and the update phase does not throw. *)
Theorem kalman_without_filters (detections : list Detection) (this : AB3DMOTTracker) :
  Forall (fun track => Track.kalmanFilter track = None) (Tracker.tracks this) ->
  let predicted := Plain.predictTracks this in
  let assignments := associateDetections predicted detections in
  Kalman.predictTracks this = predicted
  /\ Kalman.updateTracks detections assignments predicted
     = (Normal tt, Plain.updateTracks detections assignments predicted).
Proof.
  intros Hnone predicted assignments. split.
  - unfold predicted, Kalman.predictTracks, Plain.predictTracks. f_equal.
    apply map_ext_Forall. eapply Forall_impl; [exact Hnone|].
    intros track Hk. cbn. now rewrite Hk.
  - unfold Kalman.updateTracks, Plain.updateTracks.
    rewrite kalman_updateLoop_no_filter; [reflexivity|].
    unfold predicted, Plain.predictTracks. cbn.
    change (map ?f ?l) with (f <$> l). apply Forall_fmap.
    eapply Forall_impl; [exact Hnone|]. intros track Hk. exact Hk.
Qed.

(** ** Geometry, continued: disjoint boxes and the overlap test *)



(** X13: [isOverlapping] does not depend on the order of the two boxes; it is
    true of every pair of boxes when the threshold is negative (the overlap
    is never negative); lowering the threshold never turns a positive answer
    into a negative one; and a box with a zero extent overlaps no box, for
    any threshold that is not negative and for the default threshold. *)
Theorem isOverlapping_properties (a b : BoundingBox3D) (threshold : option Q) :
  isOverlapping a b threshold = isOverlapping b a threshold
  /\ (forall t : Q, t < 0 -> isOverlapping a b (Some t) = true)
  /\ (forall t t' : Q,
         t' <= t -> isOverlapping a b (Some t) = true ->
         isOverlapping a b (Some t') = true)
  /\ (zero_extent a ->
      isOverlapping a b None = false
      /\ forall t : Q, 0 <= t -> isOverlapping a b (Some t) = false).
Proof.
  split; [|split; [|split]].
  - unfold isOverlapping. apply Qltb_proper; [reflexivity | apply calculate3DIoU_sym].
  - intros t Ht. unfold isOverlapping. apply Qltb_lt.
    pose proof (calculate3DIoU_nonneg a b). lra.
  - intros t t' Hle. unfold isOverlapping. rewrite !Qltb_lt. lra.
  - intros Hz. pose proof (calculate3DIoU_zero_extent a b Hz) as H0.
    unfold isOverlapping. split.
    + apply Qltb_nlt. rewrite H0. lra.
    + intros t Ht. apply Qltb_nlt. rewrite H0. exact Ht.
Qed.


(** ** Estimator, continued *)

(** X15: [matrixInverse] refuses a matrix that has not 3 rows or whose first row
    has not 3 entries.  On a 3 by 3 matrix it throws "Matrix is singular"
    exactly when [|det| < 1e-10]; otherwise it returns a matrix that is the
    inverse on both sides (entry by entry, as rationals). *)
Theorem matrixInverse_correct (A : list (list Q)) :
  (length A ≠ 3%nat \/ length (hd [] A) ≠ 3%nat ->
   KalmanFilter3D.matrixInverse A = Throw "Only 3x3 matrix inversion is supported")
  /\ (length A = 3%nat ->
      Forall (fun row => length row = 3%nat) A ->
      (Qabs (determinant3 A) < 1 # 10000000000 ->
       KalmanFilter3D.matrixInverse A = Throw "Matrix is singular")
      /\ (1 # 10000000000 <= Qabs (determinant3 A) ->
          exists inverse : list (list Q),
            KalmanFilter3D.matrixInverse A = Normal inverse
            /\ matrix_eq (KalmanFilter3D.matrixMultiply A inverse)
                         (KalmanFilter3D.createIdentityMatrix 3)
            /\ matrix_eq (KalmanFilter3D.matrixMultiply inverse A)
                         (KalmanFilter3D.createIdentityMatrix 3))).
Proof.
  split.
  { intros Hsize. unfold KalmanFilter3D.matrixInverse.
    destruct Hsize as [H | H]; apply Nat.eqb_neq in H; rewrite H;
      [reflexivity | now rewrite orb_true_r]. }
  intros Hlen Hrows.
  list_of_length A Hlen.
  repeat match goal with
         | H : Forall _ (_ :: _) |- _ =>
             let Hl := fresh "Hl" in
             apply Forall_cons_iff in H; destruct H as [Hl H]
         end.
  repeat match goal with
         | H : length ?l = 3%nat |- _ => list_of_length l H
         end.
  unfold KalmanFilter3D.matrixInverse, determinant3.
  cbn [length hd Nat.eqb negb orb KalmanFilter3D.entry nth].
  match goal with
  | |- context [Qltb (Qabs ?d) _] => set (det := d)
  end.
  split.
  - intros Hsmall. apply Qltb_lt in Hsmall. now rewrite Hsmall.
  - intros Hbig. apply Qltb_nlt in Hbig. rewrite Hbig.
    assert (Hdet : ~ det == 0).
    { intros H0. apply Qltb_nlt in Hbig. rewrite H0 in Hbig.
      revert Hbig. vm_compute. intros H; apply H; reflexivity. }
    eexists. split; [reflexivity|].
    unfold det in Hdet |- *. clear Hbig det.
    split;
      cbv [KalmanFilter3D.matrixMultiply KalmanFilter3D.createIdentityMatrix
           KalmanFilter3D.entry map seq length fold_left nth hd Nat.eqb];
      repeat (constructor;
              [repeat (constructor; [rewrite !Qred_correct; field; exact Hdet|])|]);
      repeat constructor.
Qed.

(** ** Motion model *)




Lemma predict_motion_step (dt : Q) (kf : KalmanFilter3D.t) (x y z vx vy vz : Q) :
  length (KalmanFilter3D.state kf) = 6%nat ->
  position_is kf x y z -> velocity_is kf vx vy vz ->
  position_is (KalmanFilter3D.predict dt kf) (x + vx * dt) (y + vy * dt) (z + vz * dt)
  /\ velocity_is (KalmanFilter3D.predict dt kf) vx vy vz.
Proof.
  intros Hs Hp Hv. destruct kf as [st cov q r]; cbn in Hs.
  list_of_length st Hs.
  unfold position_is, velocity_is, vector_eq, KalmanFilter3D.getPosition,
    KalmanFilter3D.getVelocity in *.
  cbn [KalmanFilter3D.state nth] in Hp, Hv.
  apply Forall2_cons in Hp as [Hx Hp]. apply Forall2_cons in Hp as [Hy Hp].
  apply Forall2_cons in Hp as [Hz _].
  apply Forall2_cons in Hv as [Hvx Hv]. apply Forall2_cons in Hv as [Hvy Hv].
  apply Forall2_cons in Hv as [Hvz _].
  cbv [KalmanFilter3D.predict KalmanFilter3D.state KalmanFilter3D.matrixVectorMultiply
       KalmanFilter3D.entry map seq length fold_left nth].
  split; repeat (constructor; [rewrite Qred_correct; rewrite <- ?Hx, <- ?Hy, <- ?Hz,
                               <- ?Hvx, <- ?Hvy, <- ?Hvz; ring|]); constructor.
Qed.

(** X16: [predict] is the constant-velocity model: it moves the position by
    [velocity * dt] and leaves the velocity as it is.  Hence any number of
    predictions of a filter at rest leaves its position where it was. *)
Theorem predict_constant_velocity (dt : Q) (kf : KalmanFilter3D.t)
    (x y z vx vy vz : Q) (n : nat) :
  filter_shape kf ->
  position_is kf x y z ->
  velocity_is kf vx vy vz ->
  (position_is (KalmanFilter3D.predict dt kf)
               (x + vx * dt) (y + vy * dt) (z + vz * dt)
   /\ velocity_is (KalmanFilter3D.predict dt kf) vx vy vz)
  /\ (vx == 0 -> vy == 0 -> vz == 0 ->
      position_is (Nat.iter n (KalmanFilter3D.predict dt) kf) x y z
      /\ velocity_is (Nat.iter n (KalmanFilter3D.predict dt) kf) 0 0 0).
Proof.
  intros Hshape Hp Hv. pose proof (proj1 Hshape) as Hs. clear Hshape.
  split; [now apply predict_motion_step|].
  intros Hvx Hvy Hvz.
  assert (Hv0 : velocity_is kf 0 0 0).
  { unfold velocity_is, vector_eq in *.
    apply Forall2_cons in Hv as [H1 Hv]. apply Forall2_cons in Hv as [H2 Hv].
    apply Forall2_cons in Hv as [H3 _].
    repeat constructor; [now rewrite H1 | now rewrite H2 | now rewrite H3]. }
  clear Hv Hvx Hvy Hvz.
  induction n as [|n IH]; cbn [Nat.iter]; [now split|].
  destruct IH as [IHp IHv].
  assert (Hlen : length (KalmanFilter3D.state
                           (Nat.iter n (KalmanFilter3D.predict dt) kf)) = 6%nat).
  { destruct n; [exact Hs | cbn [Nat.iter]; apply predict_shape]. }
  destruct (predict_motion_step dt _ x y z 0 0 0 Hlen IHp IHv) as [Hp' Hv'].
  split; [|exact Hv'].
  unfold position_is, vector_eq in *.
  apply Forall2_cons in Hp' as [H1 Hp']. apply Forall2_cons in Hp' as [H2 Hp'].
  apply Forall2_cons in Hp' as [H3 _].
  repeat constructor; [rewrite H1 | rewrite H2 | rewrite H3]; ring.
Qed.

(** X17: every filter the tracker can hold has a state of 6 entries and a 6 by 6
    covariance: [constructor] builds that shape, [predict] keeps it, and
    [update] keeps it when it returns. *)
Theorem filter_shape_invariant (bbox : BoundingBox3D) (processNoise measurementNoise dt : Q)
    (measurement : Q * Q * Q) (kf kf' : KalmanFilter3D.t) :
  filter_shape (KalmanFilter3D.constructor bbox processNoise measurementNoise)
  /\ (filter_shape kf -> filter_shape (KalmanFilter3D.predict dt kf))
  /\ (filter_shape kf ->
      KalmanFilter3D.update measurement kf = Normal kf' ->
      filter_shape kf').
Proof.
  split; [apply constructor_shape|]. split; [intros _; apply predict_shape|].
  apply update_shape.
Qed.


(** ** Matrix helpers *)

Lemma entry_lookup (A : list (list Q)) (i j : nat) (row : list Q) (q : Q) :
  A !! i = Some row -> row !! j = Some q -> KalmanFilter3D.entry A i j = q.
Proof.
  intros Hi Hj. unfold KalmanFilter3D.entry.
  rewrite (nth_lookup_Some _ _ _ _ Hi). apply nth_lookup_Some, Hj.
Qed.

Lemma matrixTranspose_entry (A : list (list Q)) (c i j : nat) :
  rectangular c A -> (0 < length A)%nat -> (i < c)%nat -> (j < length A)%nat ->
  KalmanFilter3D.entry (KalmanFilter3D.matrixTranspose A) i j
  = KalmanFilter3D.entry A j i.
Proof.
  intros Hrect Hpos Hi Hj.
  assert (Hhd : length (hd [] A) = c).
  { destruct A as [|row A]; [cbn in Hpos; lia|]. cbn.
    now apply Forall_cons_iff in Hrect as [? _]. }
  unfold KalmanFilter3D.matrixTranspose. rewrite Hhd.
  apply (entry_lookup _ i j (map (fun j => KalmanFilter3D.entry A j i) (seq 0 (length A)))).
  - change (map ?f ?l) with (f <$> l) at 1.
    now rewrite list_lookup_fmap, lookup_seq_lt.
  - change (map ?f ?l) with (f <$> l).
    now rewrite list_lookup_fmap, lookup_seq_lt.
Qed.

(** X19: the shape of a transpose, and the round trip: transposing a matrix with
    at least one row and at least one column twice gives the matrix back. *)
Theorem matrixTranspose_involutive (A : list (list Q)) (c : nat) :
  rectangular c A -> (0 < length A)%nat -> (0 < c)%nat ->
  length (KalmanFilter3D.matrixTranspose A) = c
  /\ rectangular (length A) (KalmanFilter3D.matrixTranspose A)
  /\ KalmanFilter3D.matrixTranspose (KalmanFilter3D.matrixTranspose A) = A.
Proof.
  intros Hrect Hpos Hc.
  assert (Hhd : length (hd [] A) = c).
  { destruct A as [|row A]; [cbn in Hpos; lia|]. cbn.
    now apply Forall_cons_iff in Hrect as [? _]. }
  assert (Hlen : length (KalmanFilter3D.matrixTranspose A) = c).
  { unfold KalmanFilter3D.matrixTranspose. now rewrite length_map, length_seq. }
  assert (Hrows : rectangular (length A) (KalmanFilter3D.matrixTranspose A)).
  { unfold rectangular, KalmanFilter3D.matrixTranspose. apply Forall_forall.
    intros row Hrow. apply list_elem_of_In, in_map_iff in Hrow as (i & <- & _).
    now rewrite length_map, length_seq. }
  split; [exact Hlen|]. split; [exact Hrows|].
  assert (Hhd' : length (hd [] (KalmanFilter3D.matrixTranspose A)) = length A).
  { destruct (KalmanFilter3D.matrixTranspose A) as [|row T] eqn:E;
      [cbn in Hlen; lia|]. cbn. now apply Forall_cons_iff in Hrows as [? _]. }
  apply list_eq. intros i.
  unfold KalmanFilter3D.matrixTranspose at 1. rewrite Hhd', Hlen.
  change (map ?f ?l) with (f <$> l) at 1. rewrite list_lookup_fmap.
  destruct (A !! i) as [row|] eqn:Hi.
  - assert (Hlt : (i < length A)%nat) by (eapply lookup_lt_Some, Hi).
    rewrite lookup_seq_lt by exact Hlt. cbn. f_equal.
    assert (Hrow : length row = c).
    { unfold rectangular in Hrect. rewrite Forall_forall in Hrect.
      apply Hrect, list_elem_of_lookup. eauto. }
    apply list_eq. intros j.
    change (map ?f ?l) with (f <$> l). rewrite list_lookup_fmap.
    destruct (row !! j) as [q|] eqn:Hj.
    + assert (Hjc : (j < c)%nat) by (rewrite <- Hrow; eapply lookup_lt_Some, Hj).
      rewrite lookup_seq_lt by exact Hjc. cbn. f_equal.
      rewrite (matrixTranspose_entry A c j i Hrect Hpos Hjc Hlt).
      apply (entry_lookup A i j row q Hi Hj).
    + apply lookup_ge_None in Hj. rewrite Hrow in Hj.
      now rewrite lookup_seq_ge.
  - apply lookup_ge_None in Hi. now rewrite lookup_seq_ge.
Qed.

(** X20: over the rationals, [predict] keeps the covariance symmetric: if the
    covariance of a well-shaped filter is symmetric, so is the covariance
    after [predict dt], for every [dt] and every process noise.  This is a
    property of the formula [F P F^T + Q] in exact arithmetic; on doubles
    the entries [(i, j)] and [(j, i)] are sums taken in different orders and
    can differ in the last bit. *)
Theorem predict_keeps_symmetry (dt : Q) (kf : KalmanFilter3D.t) :
  filter_shape kf ->
  symmetric (KalmanFilter3D.covariance kf) ->
  symmetric (KalmanFilter3D.covariance (KalmanFilter3D.predict dt kf)).
Proof.
  intros (_ & Hc & Hrows) Hsym.
  destruct kf as [st cov q r]; cbn in Hc, Hrows, Hsym.
  list_of_length cov Hc.
  repeat match goal with
         | H : Forall _ (_ :: _) |- _ =>
             let Hl := fresh "Hl" in
             apply Forall_cons_iff in H; destruct H as [Hl H]
         end.
  repeat match goal with
         | H : length ?l = 6%nat |- _ => list_of_length l H
         end.
  assert (Hs : forall i j : nat, (i < 6)%nat -> (j < 6)%nat -> _) by exact Hsym.
  pose proof (Hs 0 1 ltac:(lia) ltac:(lia))%nat as H01.
  pose proof (Hs 0 2 ltac:(lia) ltac:(lia))%nat as H02.
  pose proof (Hs 0 3 ltac:(lia) ltac:(lia))%nat as H03.
  pose proof (Hs 0 4 ltac:(lia) ltac:(lia))%nat as H04.
  pose proof (Hs 0 5 ltac:(lia) ltac:(lia))%nat as H05.
  pose proof (Hs 1 2 ltac:(lia) ltac:(lia))%nat as H12.
  pose proof (Hs 1 3 ltac:(lia) ltac:(lia))%nat as H13.
  pose proof (Hs 1 4 ltac:(lia) ltac:(lia))%nat as H14.
  pose proof (Hs 1 5 ltac:(lia) ltac:(lia))%nat as H15.
  pose proof (Hs 2 3 ltac:(lia) ltac:(lia))%nat as H23.
  pose proof (Hs 2 4 ltac:(lia) ltac:(lia))%nat as H24.
  pose proof (Hs 2 5 ltac:(lia) ltac:(lia))%nat as H25.
  pose proof (Hs 3 4 ltac:(lia) ltac:(lia))%nat as H34.
  pose proof (Hs 3 5 ltac:(lia) ltac:(lia))%nat as H35.
  pose proof (Hs 4 5 ltac:(lia) ltac:(lia))%nat as H45.
  cbv [KalmanFilter3D.entry nth] in H01, H02, H03, H04, H05, H12, H13, H14, H15,
    H23, H24, H25, H34, H35, H45.
  clear Hsym Hs.
  match goal with
  | |- symmetric ?P =>
      assert (Hupper : forall i j : nat, (i < j)%nat -> (j < 6)%nat ->
        KalmanFilter3D.entry P i j == KalmanFilter3D.entry P j i)
  end.
  { intros i j Hij Hj.
    destruct i as [|[|[|[|[|[|i]]]]]]; try (exfalso; clear - Hij Hj; lia);
      destruct j as [|[|[|[|[|[|j]]]]]]; try (exfalso; clear - Hij Hj; lia);
      cbv [KalmanFilter3D.matrixAdd KalmanFilter3D.matrixMultiply
           KalmanFilter3D.matrixTranspose KalmanFilter3D.createProcessNoiseMatrix
           KalmanFilter3D.entry KalmanFilter3D.processNoise
           KalmanFilter3D.covariance KalmanFilter3D.predict
           map seq length fold_left nth hd];
      (rewrite_strat (bottomup Qred_correct));
      unfold Qdiv;
      ring [H01 H02 H03 H04 H05 H12 H13 H14 H15 H23 H24 H25 H34 H35 H45]. }
  intros i j Hi Hj.
  assert (Hi' : (i < 6)%nat) by exact Hi.
  assert (Hj' : (j < 6)%nat) by exact Hj.
  destruct (Nat.lt_trichotomy i j) as [Hlt | [-> | Hgt]].
  - now apply Hupper.
  - reflexivity.
  - symmetry. now apply Hupper.
Qed.

(** ** Which tracks carry a filter *)

Lemma kalman_predictTracks_filters (this : AB3DMOTTracker) :
  Forall has_filter (Tracker.tracks this) ->
  Forall has_filter (Tracker.tracks (Kalman.predictTracks this)).
Proof.
  intros H. unfold Kalman.predictTracks. cbn [Tracker.tracks Tracker.with_tracks].
  change (map ?f ?l) with (f <$> l). apply Forall_fmap.
  eapply Forall_impl; [exact H|]. intros track (kf & E & _). cbn. rewrite E.
  exists (KalmanFilter3D.predict 1 kf). split; [reflexivity | apply predict_shape].
Qed.

Lemma kalman_updateLoop_filters (detections : list Detection) (assignments : list Z)
    (tracks : list Track) :
  Forall has_filter tracks ->
  Forall has_filter (snd (Kalman.updateLoop detections assignments tracks)).
Proof.
  revert assignments tracks.
  induction detections as [|d ds IH]; intros [|a asg] tracks H;
    cbn [Kalman.updateLoop]; try exact H.
  destruct (negb (a =? -1)%Z); [|now apply IH].
  destruct (tracks !! Z.to_nat a) as [track|] eqn:Et; [|now apply IH].
  assert (Ht : has_filter track).
  { rewrite Forall_forall in H. apply H, list_elem_of_lookup. eauto. }
  destruct Ht as (kf & E & Hshape). cbv zeta. rewrite E.
  destruct (KalmanFilter3D.update _ kf) as [kf'|message] eqn:U.
  - apply IH. apply Forall_insert; [exact H|].
    exists kf'. split; [reflexivity|]. eapply update_shape; eassumption.
  - cbn [snd]. apply Forall_insert; [exact H|].
    exists kf. now split.
Qed.

Lemma kalman_createLoop_filters (detections : list Detection) (assignments : list Z)
    (i : nat) (tracks : list Track) (n : Z) (newMap : gmap nat Z) :
  Forall has_filter tracks ->
  Forall has_filter (fst (fst (Kalman.createLoop detections assignments i tracks n newMap))).
Proof.
  revert assignments i tracks n newMap.
  induction detections as [|d ds IH]; intros [|a asg] i tracks n newMap H;
    cbn [Kalman.createLoop]; try exact H.
  destruct (a =? -1)%Z; [|now apply IH].
  cbv zeta. apply IH. apply Forall_app. split; [exact H|].
  constructor; [|constructor].
  eexists. split; [reflexivity | apply constructor_shape].
Qed.

Lemma kalman_step_filters (detections : list Detection) (this : AB3DMOTTracker) :
  Forall has_filter (Tracker.tracks this) ->
  Forall has_filter (Tracker.tracks (snd (Kalman.step detections this))).
Proof.
  intros H. apply kalman_predictTracks_filters in H.
  unfold Kalman.step, Kalman.updateTracks.
  set (predicted := Kalman.predictTracks this) in *.
  pose proof (kalman_updateLoop_filters detections
                (associateDetections predicted detections) _ H) as Hupd.
  destruct (Kalman.updateLoop _ _ _) as [[[]|message] tracks']; cbn [snd] in Hupd |- *;
    [|exact Hupd].
  unfold Kalman.createNewTracks.
  match goal with
  | |- context [Kalman.createLoop ?ds ?asg ?i ?ts ?n ?m] =>
      pose proof (kalman_createLoop_filters ds asg i ts n m) as Hnew;
      destruct (Kalman.createLoop ds asg i ts n m) as [[tracks'' next] newMap]
  end.
  cbn [fst snd Tracker.tracks] in *. apply Hnew.
  unfold deleteOldTracks. cbn [Tracker.tracks Tracker.with_tracks].
  now apply Forall_filter_keep.
Qed.

Lemma plain_createLoop_no_filter (detections : list Detection) (assignments : list Z)
    (i : nat) (tracks : list Track) (n : Z) (newMap : gmap nat Z) :
  Forall (fun track => Track.kalmanFilter track = None) tracks ->
  Forall (fun track => Track.kalmanFilter track = None)
         (fst (fst (Plain.createLoop detections assignments i tracks n newMap))).
Proof.
  revert assignments i tracks n newMap.
  induction detections as [|d ds IH]; intros [|a asg] i tracks n newMap H;
    cbn [Plain.createLoop]; try exact H.
  destruct (a =? -1)%Z; [|now apply IH].
  cbv zeta. apply IH. apply Forall_app. split; [exact H|]. now repeat constructor.
Qed.

Lemma plain_step_no_filter (detections : list Detection) (this : AB3DMOTTracker) :
  Forall (fun track => Track.kalmanFilter track = None) (Tracker.tracks this) ->
  Forall (fun track => Track.kalmanFilter track = None)
         (Tracker.tracks (snd (Plain.step detections this))).
Proof.
  intros H. unfold Plain.step, Plain.createNewTracks.
  match goal with
  | |- context [Plain.createLoop ?ds ?asg ?i ?ts ?n ?m] =>
      pose proof (plain_createLoop_no_filter ds asg i ts n m) as Hnew;
      destruct (Plain.createLoop ds asg i ts n m) as [[tracks'' next] newMap]
  end.
  cbn [fst snd Tracker.tracks] in *.
  unfold deleteOldTracks. cbn [Tracker.tracks Tracker.with_tracks].
  apply Forall_filter_keep, Hnew.
  unfold Plain.updateTracks. cbn [Tracker.tracks Tracker.with_tracks].
  apply plain_updateLoop_Forall; [intros track bbox Hk; exact Hk|].
  unfold Plain.predictTracks. cbn [Tracker.tracks Tracker.with_tracks].
  change (map ?f ?l) with (f <$> l). apply Forall_fmap.
  eapply Forall_impl; [exact H|]. intros track Hk. exact Hk.
Qed.

(** X21: the two tracker sources never mix: in every state a run of the estimator
    variant reaches from a freshly constructed tracker (also the state a
    throw leaves), every track carries a filter with a state of 6 entries
    and a 6 by 6 covariance; in every state a run of [index.ts] reaches, no
    track carries a filter. *)
Theorem run_filters (options : option Options.t) (t0 : AB3DMOTTracker)
    (frames : list (list Detection)) :
  constructor options = Normal t0 ->
  Forall has_filter (Tracker.tracks (snd (Kalman.runLoop frames t0)))
  /\ Forall (fun track => Track.kalmanFilter track = None)
            (Tracker.tracks (snd (Plain.runLoop frames t0))).
Proof.
  intros Hnew.
  assert (H0 : Tracker.tracks t0 = []).
  { destruct options; injection Hnew as <-; reflexivity. }
  clear Hnew. split.
  - assert (H : Forall has_filter (Tracker.tracks t0)) by (rewrite H0; constructor).
    clear H0. revert t0 H.
    induction frames as [|detections frames IH]; intros this H;
      cbn [Kalman.runLoop]; [exact H|].
    pose proof (kalman_step_filters detections this H) as Hstep.
    destruct (Kalman.step detections this) as [[out|message] this1];
      cbn [snd] in Hstep |- *; [|exact Hstep].
    specialize (IH this1 Hstep).
    destruct (Kalman.runLoop frames this1) as [[outs|message] this2]; exact IH.
  - assert (H : Forall (fun track => Track.kalmanFilter track = None)
                       (Tracker.tracks t0)) by (rewrite H0; constructor).
    clear H0. revert t0 H.
    induction frames as [|detections frames IH]; intros this H;
      cbn [Plain.runLoop]; [exact H|].
    pose proof (plain_step_no_filter detections this H) as Hstep.
    destruct (Plain.step detections this) as [out this1]. cbn [snd] in Hstep.
    specialize (IH this1 Hstep).
    destruct (Plain.runLoop frames this1) as [outs this2]. exact IH.
Qed.

(** ** The assignment solver *)

Lemma fold_left_invariant {A B : Type} (P : A -> Prop) (f : A -> B -> A)
    (l : list B) (a : A) :
  (forall (x : A) (b : B), b ∈ l -> P x -> P (f x b)) -> P a -> P (fold_left f l a).
Proof.
  revert a. induction l as [|b l IH]; intros a Hstep Ha; cbn; [exact Ha|].
  apply IH.
  - intros x b' Hb'. apply Hstep. now right.
  - apply Hstep; [left | exact Ha].
Qed.

Lemma insert_true_keeps (l : list bool) (k i : nat) :
  l !! i = Some true -> <[k := true]> l !! i = Some true.
Proof.
  intros H. destruct (decide (k = i)) as [->|Hne].
  - apply list_lookup_insert_eq. eapply lookup_lt_Some, H.
  - now rewrite list_lookup_insert_ne.
Qed.

Lemma nth_false_lookup (l : list bool) (i : nat) :
  nth i l false = false -> l !! i <> Some true.
Proof. rewrite nth_lookup. intros H E. rewrite E in H. discriminate. Qed.

(** Assigning the free row [i] to the free column [j] at a zero. *)
Lemma assign_step (cm : list (list Q)) (n : nat) (m : HungarianAlgorithm.marks)
    (i j : nat) :
  marks_ok cm n m -> (i < n)%nat -> (j < n)%nat ->
  nth j (HungarianAlgorithm.colCovered m) false = false ->
  Qeq_bool (HungarianAlgorithm.entry cm i j) 0 = true ->
  marks_ok cm n
    (HungarianAlgorithm.mkMarks
       (<[i := Z.of_nat j]> (HungarianAlgorithm.assignment m))
       (<[i := true]> (HungarianAlgorithm.rowCovered m))
       (<[j := true]> (HungarianAlgorithm.colCovered m))).
Proof.
  intros (Ha & Hr & Hc & Hgood & Hinj & Hcov) Hi Hj Hfree Hzero.
  apply nth_false_lookup in Hfree. apply Qeq_bool_iff in Hzero.
  unfold marks_ok; cbn. rewrite !length_insert.
  split; [exact Ha|]. split; [exact Hr|]. split; [exact Hc|].
  split; [|split].
  - intros i0 a H0. destruct (decide (i = i0)) as [<-|Hne].
    + rewrite list_lookup_insert_eq in H0 by lia. injection H0 as <-.
      right. now exists j.
    + rewrite list_lookup_insert_ne in H0 by exact Hne. now apply (Hgood i0).
  - intros i0 i1 j0 H0 H1.
    destruct (decide (i = i0)) as [<-|Hne0]; destruct (decide (i = i1)) as [<-|Hne1].
    + reflexivity.
    + rewrite list_lookup_insert_eq in H0 by lia.
      rewrite list_lookup_insert_ne in H1 by exact Hne0 || exact Hne1.
      injection H0 as H0. apply Nat2Z.inj in H0. subst j0.
      exfalso. apply Hfree. now apply (Hcov i1 j).
    + rewrite list_lookup_insert_eq in H1 by lia.
      rewrite list_lookup_insert_ne in H0 by exact Hne0.
      injection H1 as H1. apply Nat2Z.inj in H1. subst j0.
      exfalso. apply Hfree. now apply (Hcov i0 j).
    + rewrite list_lookup_insert_ne in H0 by exact Hne0.
      rewrite list_lookup_insert_ne in H1 by exact Hne1.
      now apply (Hinj i0 i1 j0).
  - intros i0 j0 H0. destruct (decide (i = i0)) as [<-|Hne].
    + rewrite list_lookup_insert_eq in H0 by lia.
      injection H0 as H0. apply Nat2Z.inj in H0. subst j0.
      split; apply list_lookup_insert_eq; lia.
    + rewrite list_lookup_insert_ne in H0 by exact Hne.
      destruct (Hcov i0 j0 H0) as [Hr0 Hc0].
      split; now apply insert_true_keeps.
Qed.

Lemma tryAssign_ok (cm : list (list Q)) (n : nat) (m : HungarianAlgorithm.marks)
    (i j : nat) :
  marks_ok cm n m -> (i < n)%nat -> (j < n)%nat ->
  marks_ok cm n (HungarianAlgorithm.tryAssign cm i m j).
Proof.
  intros Hok Hi Hj. unfold HungarianAlgorithm.tryAssign.
  destruct (Qeq_bool _ 0) eqn:Hz; cbn; [|exact Hok].
  destruct (nth i _ false) eqn:Hrow; cbn; [exact Hok|].
  destruct (nth j _ false) eqn:Hcol; cbn; [exact Hok|].
  now apply assign_step.
Qed.

Lemma start_ok (cm : list (list Q)) (n : nat) :
  marks_ok cm n
    (HungarianAlgorithm.mkMarks (replicate n (-1)%Z) (replicate n false)
       (replicate n false)).
Proof.
  unfold marks_ok; cbn. rewrite !length_replicate.
  repeat (split; [reflexivity|]). split; [|split].
  - intros i a H. apply lookup_replicate in H as [-> _]. now left.
  - intros i i' j H. apply lookup_replicate in H as [H _]. lia.
  - intros i j H. apply lookup_replicate in H as [H _]. lia.
Qed.

Lemma elem_of_seq_lt (n k : nat) : k ∈ seq 0 n -> (k < n)%nat.
Proof. intros H. apply elem_of_seq in H. lia. Qed.

(** [findInitialAssignment] ends in a consistent state. *)
Lemma findInitialAssignment_ok (this : HungarianAlgorithm.t) :
  exists m : HungarianAlgorithm.marks,
    HungarianAlgorithm.findInitialAssignment this = HungarianAlgorithm.assignment m
    /\ marks_ok (HungarianAlgorithm.costMatrix this) (HungarianAlgorithm.size this) m.
Proof.
  eexists. split; [reflexivity|].
  apply fold_left_invariant; [|apply start_ok].
  intros m i Hi Hok. apply elem_of_seq_lt in Hi.
  apply fold_left_invariant; [|exact Hok].
  intros m' j Hj Hok'. apply elem_of_seq_lt in Hj. now apply tryAssign_ok.
Qed.

(** The first loop of [augmentPath] rebuilds the covers of an assignment. *)
Lemma markAssigned_prefix (cm : list (list Q)) (n k : nat) (m0 : HungarianAlgorithm.marks) :
  marks_ok cm n m0 -> (k <= n)%nat ->
  let m :=
    fold_left (fun m i =>
                 let a := nth i (HungarianAlgorithm.assignment m) (-1)%Z in
                 if negb (a =? -1)%Z
                 then HungarianAlgorithm.mkMarks (HungarianAlgorithm.assignment m)
                        (<[i := true]> (HungarianAlgorithm.rowCovered m))
                        (<[Z.to_nat a := true]> (HungarianAlgorithm.colCovered m))
                 else m)
              (seq 0 k)
              (HungarianAlgorithm.mkMarks (HungarianAlgorithm.assignment m0)
                 (replicate n false) (replicate n false)) in
  HungarianAlgorithm.assignment m = HungarianAlgorithm.assignment m0
  /\ length (HungarianAlgorithm.rowCovered m) = n
  /\ length (HungarianAlgorithm.colCovered m) = n
  /\ (forall i j : nat, (i < k)%nat ->
        HungarianAlgorithm.assignment m0 !! i = Some (Z.of_nat j) ->
        HungarianAlgorithm.rowCovered m !! i = Some true
        /\ HungarianAlgorithm.colCovered m !! j = Some true).
Proof.
  intros (Ha & _ & _ & Hgood & _ & _). induction k as [|k IH]; intros Hk.
  - cbn. rewrite !length_replicate. repeat (split; [reflexivity|]).
    intros i j Hi. lia.
  - rewrite seq_S, fold_left_app. cbn [fold_left Nat.add].
    destruct IH as (Easg & Hr & Hc & Hcov); [lia|].
    match type of Easg with
    | HungarianAlgorithm.assignment ?x = _ => set (m := x) in *
    end.
    rewrite Easg.
    destruct (HungarianAlgorithm.assignment m0 !! k) as [a|] eqn:Hak;
      [|apply lookup_ge_None in Hak; lia].
    rewrite (nth_lookup_Some _ _ _ _ Hak).
    destruct (Z.eqb_spec a (-1)) as [->|Hne]; cbn [negb].
    + do 3 (split; [reflexivity || assumption|]). intros i j Hi Hij.
      destruct (decide (i = k)) as [->|Hik]; [|apply Hcov; [lia | exact Hij]].
      rewrite Hak in Hij. injection Hij as Hij. lia.
    + destruct (Hgood k a Hak) as [->|(j & -> & Hj & _)]; [contradiction|].
      rewrite Nat2Z.id. cbn. rewrite !length_insert.
      do 3 (split; [reflexivity || assumption|]). intros i j' Hi Hij.
      destruct (decide (i = k)) as [->|Hik].
      * rewrite Hak in Hij. injection Hij as Hij. apply Nat2Z.inj in Hij. subst j'.
        split; apply list_lookup_insert_eq; lia.
      * destruct (Hcov i j') as [Hri Hcj]; [lia | exact Hij |].
        split; now apply insert_true_keeps.
Qed.

Lemma markAssigned_ok (cm : list (list Q)) (n : nat) (m0 : HungarianAlgorithm.marks) :
  marks_ok cm n m0 ->
  marks_ok cm n (HungarianAlgorithm.markAssigned n (HungarianAlgorithm.assignment m0)).
Proof.
  intros Hok.
  destruct (markAssigned_prefix cm n n m0 Hok (Nat.le_refl n))
    as (Easg & Hr & Hc & Hcov).
  destruct Hok as (Ha & _ & _ & Hgood & Hinj & _).
  change (fold_left _ _ _)
    with (HungarianAlgorithm.markAssigned n (HungarianAlgorithm.assignment m0))
    in Easg, Hr, Hc, Hcov.
  unfold marks_ok. rewrite Easg.
  repeat (split; [assumption|]).
  intros i j Hij. apply Hcov; [|exact Hij].
  rewrite <- Ha. eapply lookup_lt_Some, Hij.
Qed.

Lemma firstFreeZero_ok (cm : list (list Q)) (n : nat) (m : HungarianAlgorithm.marks)
    (i : nat) (js : list nat) :
  marks_ok cm n m -> (i < n)%nat -> Forall (fun j => (j < n)%nat) js ->
  marks_ok cm n (HungarianAlgorithm.firstFreeZero cm i m js).
Proof.
  intros Hok Hi Hjs. induction Hjs as [|j js Hj _ IH]; cbn; [exact Hok|].
  destruct (nth j _ false) eqn:Hcol; cbn; [exact IH|].
  destruct (Qeq_bool _ 0) eqn:Hz; [|exact IH].
  now apply assign_step.
Qed.

(** [augmentPath] ends in a consistent state. *)
Lemma augmentPath_ok (this : HungarianAlgorithm.t) (m0 : HungarianAlgorithm.marks) :
  marks_ok (HungarianAlgorithm.costMatrix this) (HungarianAlgorithm.size this) m0 ->
  exists m : HungarianAlgorithm.marks,
    HungarianAlgorithm.augmentPath this (HungarianAlgorithm.assignment m0)
    = take (length (HungarianAlgorithm.costMatrix this)) (HungarianAlgorithm.assignment m)
    /\ marks_ok (HungarianAlgorithm.costMatrix this) (HungarianAlgorithm.size this) m.
Proof.
  intros Hok. eexists. split; [reflexivity|].
  apply fold_left_invariant; [|now apply markAssigned_ok].
  intros m i Hi Hm. apply elem_of_seq_lt in Hi.
  destruct (negb _); [|exact Hm].
  apply firstFreeZero_ok; [exact Hm | exact Hi |].
  apply Forall_forall. intros j Hj. now apply elem_of_seq_lt.
Qed.

Lemma padMatrix_length (this : HungarianAlgorithm.t) :
  (length (HungarianAlgorithm.costMatrix this) <= HungarianAlgorithm.size this)%nat ->
  length (HungarianAlgorithm.costMatrix (HungarianAlgorithm.padMatrix this))
  = HungarianAlgorithm.size this.
Proof.
  intros H. unfold HungarianAlgorithm.padMatrix; cbn.
  rewrite length_imap, length_app, length_replicate. lia.
Qed.

Lemma reduceColumn_length (n : nat) (cm : list (list Q)) (j : nat) :
  length (HungarianAlgorithm.reduceColumn n cm j) = length cm.
Proof.
  unfold HungarianAlgorithm.reduceColumn.
  destruct (HungarianAlgorithm.minimum _); [apply length_imap | reflexivity].
Qed.

Lemma reduce_length (this : HungarianAlgorithm.t) :
  length (HungarianAlgorithm.costMatrix
            (HungarianAlgorithm.reduceColumns (HungarianAlgorithm.reduceRows this)))
  = length (HungarianAlgorithm.costMatrix this)
  /\ HungarianAlgorithm.size
       (HungarianAlgorithm.reduceColumns (HungarianAlgorithm.reduceRows this))
     = HungarianAlgorithm.size this.
Proof.
  split; [|reflexivity]. cbn.
  apply (fold_left_invariant
           (fun cm => length cm = length (HungarianAlgorithm.costMatrix this))).
  - intros cm j _ H. now rewrite reduceColumn_length.
  - apply length_imap.
Qed.

(** X22: [solve] on a freshly constructed solver returns one entry for each row of
    the padded square matrix; every entry is [-1] or a column of the square
    at which the reduced matrix left in the object is zero; and no column is
    given to two rows. *)
Theorem solve_assignment (M : list (list Q)) :
  let n := Nat.max (length M) (length (hd [] M)) in
  let result := HungarianAlgorithm.solve (HungarianAlgorithm.constructor M) in
  length (fst result) = n
  /\ HungarianAlgorithm.size (snd result) = n
  /\ length (HungarianAlgorithm.costMatrix (snd result)) = n
  /\ (forall (i : nat) (a : Z), fst result !! i = Some a ->
        a = (-1)%Z
        \/ exists j : nat, a = Z.of_nat j /\ (j < n)%nat
             /\ HungarianAlgorithm.entry
                  (HungarianAlgorithm.costMatrix (snd result)) i j == 0)
  /\ (forall (i i' : nat) (a : Z),
        fst result !! i = Some a -> fst result !! i' = Some a ->
        a <> (-1)%Z -> i = i').
Proof.
  intros n result.
  set (this0 := HungarianAlgorithm.constructor M).
  set (this := HungarianAlgorithm.reduceColumns (HungarianAlgorithm.reduceRows this0)).
  assert (Hsize : HungarianAlgorithm.size this = n) by reflexivity.
  assert (Hlen : length (HungarianAlgorithm.costMatrix this) = n).
  { unfold this. rewrite (proj1 (reduce_length this0)).
    unfold this0, HungarianAlgorithm.constructor.
    rewrite padMatrix_length; cbn; [reflexivity | lia]. }
  assert (Hres : exists m : HungarianAlgorithm.marks,
             result = (HungarianAlgorithm.assignment m, this) /\ marks_ok
               (HungarianAlgorithm.costMatrix this) n m).
  { unfold result, HungarianAlgorithm.solve. fold this0. fold this.
    destruct (findInitialAssignment_ok this) as (m0 & -> & Hok0).
    rewrite Hsize in Hok0 |- *.
    destruct (_ <? n)%nat.
    - destruct (augmentPath_ok this m0) as (m & -> & Hok); [now rewrite Hsize|].
      rewrite Hsize in Hok. exists m. split; [|exact Hok].
      rewrite Hlen, take_ge; [reflexivity|]. destruct Hok as (-> & _). lia.
    - exists m0. split; [|exact Hok0].
      rewrite Hlen, take_ge; [reflexivity|]. destruct Hok0 as (-> & _). lia. }
  destruct Hres as (m & -> & Ha & _ & _ & Hgood & Hinj & _). cbn [fst snd].
  split; [exact Ha|]. split; [exact Hsize|]. split; [exact Hlen|].
  split; [exact Hgood|].
  intros i i' a Hi Hi' Hne.
  destruct (Hgood i a Hi) as [->|(j & -> & _)]; [contradiction|].
  now apply (Hinj i i' j).
Qed.

(** X23: the cost function [createIoUCostFunction] returns is the constant [1]
    whatever the threshold and the arguments, so the cost matrix built from
    it has one row of ones for each detection. *)
Theorem iou_cost_is_constant {T U : Type} (iouThreshold : option Q)
    (detections : list T) (tracks : list U) :
  (forall (detection : T) (track : U),
     createIoUCostFunction iouThreshold detection track == 1)
  /\ length (calculateCostMatrix detections tracks
               (createIoUCostFunction iouThreshold)) = length detections
  /\ Forall (fun row => length row = length tracks /\ Forall (fun c => c == 1) row)
            (calculateCostMatrix detections tracks
               (createIoUCostFunction iouThreshold)).
Proof.
  assert (Hone : forall (detection : T) (track : U),
             createIoUCostFunction iouThreshold detection track == 1).
  { intros detection track. unfold createIoUCostFunction.
    destruct (Qltb _ 0); [ring | reflexivity]. }
  split; [exact Hone|]. unfold calculateCostMatrix. split; [apply length_map|].
  apply Forall_forall. intros row Hrow.
  apply list_elem_of_In, in_map_iff in Hrow as (detection & <- & _).
  split; [apply length_map|].
  apply Forall_forall. intros c Hc.
  apply list_elem_of_In, in_map_iff in Hc as (track & <- & _). apply Hone.
Qed.

(** ** The two reductions of the solver *)
















(** ** The further theorems at concrete inputs *)

Lemma step_output_complete_witness :
  let this := snd (Plain.step frame_AB initial) in
  (0 <= Tracker.maxAge this)%Z
  /\ Forall (fun track => (Track.timeSinceUpdate track < Tracker.maxAge this)%Z)
            (Tracker.tracks this)
  /\ TrackedDetection.detection <$> fst (Plain.step frame_B this) = frame_B.
Proof.
  cbv zeta.
  assert (H1 : (0 <= Tracker.maxAge (snd (Plain.step frame_AB initial)))%Z)
    by (vm_compute; discriminate).
  assert (H2 : Forall (fun track =>
                         (Track.timeSinceUpdate track
                          < Tracker.maxAge (snd (Plain.step frame_AB initial)))%Z)
                      (Tracker.tracks (snd (Plain.step frame_AB initial))))
    by (vm_compute; repeat constructor).
  split; [exact H1|]. split; [exact H2|].
  exact (proj1 (proj1 (step_output_complete frame_B _ H1 H2))).
Defined.

Lemma step_edge_frames_witness :
  Tracker.tracks initial = []
  /\ TrackedDetection.trackId <$> fst (Plain.step frame_AB initial)
     = id_range (Tracker.nextTrackId initial) (length frame_AB).
Proof.
  split; [reflexivity|].
  exact (proj2 (proj1 (proj2 (proj2 (step_edge_frames initial frame_AB)) eq_refl))).
Defined.

Lemma plain_frame_effect_witness :
  let this := snd (Plain.step frame_AB initial) in
  let track := Track.mk 1 (cube 0 2) (0, 0, 0) 1 1 0 None in
  let predicted := Plain.predictTracks this in
  let assignments := associateDetections predicted frame_B in
  Tracker.tracks this !! 0%nat = Some track
  /\ (Z.of_nat 0 ∉ assignments ->
      Tracker.tracks (Plain.updateTracks frame_B assignments predicted) !! 0%nat
      = Some (Track.mk 1 (cube 0 2) (0, 0, 0) 2 1 1 None)).
Proof.
  cbv zeta. split; [reflexivity|].
  exact (proj1 (plain_frame_effect frame_B (snd (Plain.step frame_AB initial)) 0
                  (Track.mk 1 (cube 0 2) (0, 0, 0) 1 1 0 None) eq_refl)).
Defined.

Lemma plain_run_counters_witness :
  constructor None = Normal initial
  /\ Forall (fun track =>
               counters_ok track
               /\ (Track.timeSinceUpdate track <= Tracker.maxAge initial)%Z)
            (Tracker.tracks (snd (Plain.runLoop five_frames initial))).
Proof.
  split; [reflexivity|].
  exact (plain_run_counters None initial five_frames eq_refl).
Defined.

Lemma association_greedy_witness :
  let this := snd (Plain.step frame_AB initial) in
  let near := Track.mk 1 (cube 0 2) (0, 0, 0) 1 1 0 None in
  let far := Track.mk 2 (cube 100 2) (0, 0, 0) 1 1 0 None in
  frame_B !! 0%nat = Some (detection_at 100)
  /\ associateDetections this frame_B !! 0%nat = Some 1%Z
  /\ Tracker.tracks this !! 0%nat = Some near
  /\ (Z.of_nat 0 ∉ take 0 (associateDetections this frame_B))
  /\ Tracker.tracks this !! Z.to_nat 1 = Some far
  /\ calculate3DIoU (Detection.bbox (detection_at 100)) (Track.bbox near)
     <= calculate3DIoU (Detection.bbox (detection_at 100)) (Track.bbox far).
Proof.
  cbv zeta.
  assert (H1 : frame_B !! 0%nat = Some (detection_at 100)) by reflexivity.
  assert (H2 : associateDetections (snd (Plain.step frame_AB initial)) frame_B !! 0%nat
               = Some 1%Z) by (vm_compute; reflexivity).
  assert (H3 : Tracker.tracks (snd (Plain.step frame_AB initial)) !! 0%nat
               = Some (Track.mk 1 (cube 0 2) (0, 0, 0) 1 1 0 None)) by reflexivity.
  assert (H4 : Z.of_nat 0
               ∉ take 0 (associateDetections (snd (Plain.step frame_AB initial)) frame_B))
    by (rewrite take_0; apply not_elem_of_nil).
  assert (H5 : Tracker.tracks (snd (Plain.step frame_AB initial)) !! Z.to_nat 1
               = Some (Track.mk 2 (cube 100 2) (0, 0, 0) 1 1 0 None)) by reflexivity.
  repeat (split; [assumption|]).
  refine (proj2 (proj2 (association_greedy _ _ _ _ _ _ _ H1 H2 H3 H4)) _ _ H5).
  discriminate.
Defined.

Lemma kalman_without_filters_witness :
  let this := snd (Plain.step frame_AB initial) in
  Forall (fun track => Track.kalmanFilter track = None) (Tracker.tracks this)
  /\ Kalman.predictTracks this = Plain.predictTracks this.
Proof.
  cbv zeta.
  assert (H : Forall (fun track => Track.kalmanFilter track = None)
                     (Tracker.tracks (snd (Plain.step frame_AB initial))))
    by (vm_compute; repeat constructor).
  split; [exact H|].
  exact (proj1 (kalman_without_filters frame_B _ H)).
Defined.


Lemma isOverlapping_properties_witness :
  zero_extent (cube 0 0) /\ 0 <= 0
  /\ isOverlapping (cube 0 0) (cube 0 0) None = false
  /\ isOverlapping (cube 0 0) (cube 0 0) (Some 0) = false.
Proof.
  assert (Hz : zero_extent (cube 0 0)) by (left; reflexivity).
  assert (H0 : 0 <= 0) by (vm_compute; discriminate).
  split; [exact Hz|]. split; [exact H0|].
  destruct (proj2 (proj2 (proj2 (isOverlapping_properties (cube 0 0) (cube 0 0) None)))
              Hz) as [Hdefault Hall].
  split; [exact Hdefault | exact (Hall 0 H0)].
Defined.


Lemma matrixInverse_correct_witness :
  let A := [[2; 0; 0]; [0; 2; 0]; [0; 0; 2]] in
  length A = 3%nat
  /\ Forall (fun row => length row = 3%nat) A
  /\ 1 # 10000000000 <= Qabs (determinant3 A)
  /\ exists inverse : list (list Q),
       KalmanFilter3D.matrixInverse A = Normal inverse
       /\ matrix_eq (KalmanFilter3D.matrixMultiply A inverse)
                    (KalmanFilter3D.createIdentityMatrix 3)
       /\ matrix_eq (KalmanFilter3D.matrixMultiply inverse A)
                    (KalmanFilter3D.createIdentityMatrix 3).
Proof.
  cbv zeta.
  assert (H1 : length [[2; 0; 0]; [0; 2; 0]; [0; 0; 2]] = 3%nat) by reflexivity.
  assert (H2 : Forall (fun row : list Q => length row = 3%nat)
                      [[2; 0; 0]; [0; 2; 0]; [0; 0; 2]]) by (repeat constructor).
  assert (H3 : 1 # 10000000000 <= Qabs (determinant3 [[2; 0; 0]; [0; 2; 0]; [0; 0; 2]]))
    by (vm_compute; discriminate).
  split; [exact H1|]. split; [exact H2|]. split; [exact H3|].
  exact (proj2 (proj2 (matrixInverse_correct _) H1 H2) H3).
Defined.

Lemma predict_constant_velocity_witness :
  filter_shape filter_example
  /\ position_is filter_example 0 0 0
  /\ velocity_is filter_example 0 0 0
  /\ position_is (Nat.iter 3 (KalmanFilter3D.predict 1) filter_example) 0 0 0.
Proof.
  assert (H1 : filter_shape filter_example) by apply constructor_shape.
  assert (H2 : position_is filter_example 0 0 0) by (repeat constructor).
  assert (H3 : velocity_is filter_example 0 0 0) by (repeat constructor).
  split; [exact H1|]. split; [exact H2|]. split; [exact H3|].
  exact (proj1 (proj2 (predict_constant_velocity 1 filter_example 0 0 0 0 0 0 3
                         H1 H2 H3)
                  (Qeq_refl 0) (Qeq_refl 0) (Qeq_refl 0))).
Defined.

Lemma filter_shape_invariant_witness :
  filter_shape filter_example
  /\ filter_shape (KalmanFilter3D.predict 1 filter_example).
Proof.
  assert (H : filter_shape filter_example) by apply constructor_shape.
  split; [exact H|].
  exact (proj1 (proj2 (filter_shape_invariant (cube 0 2) (1 # 10) (1 # 10) 1 (0, 0, 0)
                         filter_example filter_example)) H).
Defined.


Lemma matrixTranspose_involutive_witness :
  let A := [[1; 2; 3]; [4; 5; 6]] in
  rectangular 3 A /\ (0 < length A)%nat /\ (0 < 3)%nat
  /\ KalmanFilter3D.matrixTranspose (KalmanFilter3D.matrixTranspose A) = A.
Proof.
  cbv zeta.
  assert (H1 : rectangular 3 [[1; 2; 3]; [4; 5; 6]]) by (repeat constructor).
  assert (H2 : (0 < length [[1; 2; 3]; [4; 5; 6]])%nat) by (cbn; lia).
  assert (H3 : (0 < 3)%nat) by lia.
  split; [exact H1|]. split; [exact H2|]. split; [exact H3|].
  exact (proj2 (proj2 (matrixTranspose_involutive _ 3 H1 H2 H3))).
Defined.

Lemma predict_keeps_symmetry_witness :
  filter_shape filter_example
  /\ symmetric (KalmanFilter3D.covariance filter_example)
  /\ symmetric (KalmanFilter3D.covariance (KalmanFilter3D.predict 1 filter_example)).
Proof.
  assert (H1 : filter_shape filter_example) by apply constructor_shape.
  assert (H2 : symmetric (KalmanFilter3D.covariance filter_example)).
  { intros i j Hi Hj. cbn in Hi, Hj.
    destruct i as [|[|[|[|[|[|i]]]]]]; try lia;
      destruct j as [|[|[|[|[|[|j]]]]]]; try lia; reflexivity. }
  split; [exact H1|]. split; [exact H2|].
  exact (predict_keeps_symmetry 1 filter_example H1 H2).
Defined.


Lemma update_confirmation_delay_witness :
  constructor None = Normal initial
  /\ (Z.of_nat (length [frame_AB]) + 1 < Tracker.minHits initial)%Z
  /\ fst (Plain.update frame_B (snd (Plain.runLoop [frame_AB] initial))) = [].
Proof.
  assert (H : (Z.of_nat (length [frame_AB]) + 1 < Tracker.minHits initial)%Z)
    by (cbn; lia).
  split; [reflexivity|]. split; [exact H|].
  exact (proj2 (update_confirmation_delay None initial [frame_AB] frame_B eq_refl) H).
Defined.

Lemma run_filters_witness :
  constructor None = Normal initial
  /\ Forall has_filter (Tracker.tracks (snd (Kalman.runLoop five_frames initial))).
Proof.
  split; [reflexivity|].
  exact (proj1 (run_filters None initial five_frames eq_refl)).
Defined.
